(** * cute-dynamo: a shallow embedding of [src/index.js]

    The library is a thin wrapper over the AWS SDK v3 DynamoDB document
    client: [init] resolves credentials and publishes a module-level
    [client]; [table(name).at(key)] exposes [get()] and [put(data)], which
    wrap the payload in a string attribute named [JSON].

    The embedding has four layers:
    - [JS]: the fragment of JavaScript values the code manipulates:
      strings of 16-bit code units, numbers as IEEE 754 doubles with
      Number::toString, truthiness, property reads, object literals with
      spread, ToString;
    - [JSON]: the built-ins [JSON.stringify] and [JSON.parse];
    - [DynamoDB]: the SDK and the service as the source sees them: the
      client constructors, the document client's marshalling and [send],
      tables with a key schema, GetItem and PutItem;
    - the source itself: [init], [table], [get], [put] over an explicit
      [world] that holds the module variable [client], [process.env] and
      the service.

    Values are trees: objects are property lists in own-property order
    (array indices first, ascending, then the other names as created),
    without methods, prototypes, symbols or shared references.

    An [async] function is a function from the world to a promise that is
    either settled or suspended at an [await]; the rest of a suspended
    body runs in the world as it is when the body is resumed. *)

From Stdlib Require Import ZArith List String Ascii Bool Lia.
From stdpp Require Import base option list strings gmap.

Set Warnings "-register-all".
Local Open Scope string_scope.
Local Open Scope list_scope.

(** ** JavaScript values *)

Module JS.

(** A string is a sequence of 16-bit code units, each given by its number
    (below 65536). *)
Definition jsstring : Type := list N.

(** The string a literal of the source denotes. *)
Definition str (s : string) : jsstring := map N_of_ascii (list_ascii_of_string s).

Definition is_string (s : jsstring) : bool := forallb (fun c => c <? 65536)%N s.

Fixpoint same_string (a b : jsstring) : bool :=
  match a, b with
  | [], [] => true
  | x :: a', y :: b' => (x =? y)%N && same_string a' b'
  | _, _ => false
  end.

(** *** Numbers

    A Number is NaN, an infinity, a zero with its sign, or a finite
    non-zero double [(-1)^negative * m * 2^e] with [m] odd. *)
Inductive number : Type :=
| NaN
| Infinity (negative : bool)
| Zero (negative : bool)
| Finite (negative : bool) (m : positive) (e : Z).

(** The finite values of the binary64 format: at most 53 significant
    bits, no bit below [2^-1074], magnitude below [2^1024]. *)
Definition is_double (x : number) : bool :=
  match x with
  | Finite _ m e =>
      Z.odd (Zpos m) && (Z.log2 (Zpos m) <? 53)%Z && (-1074 <=? e)%Z
      && (e + Z.log2 (Zpos m) <? 1024)%Z
  | _ => true
  end.

(** [p = m * 2^c] with [m] odd. *)
Fixpoint odd_part (p : positive) : positive * Z :=
  match p with
  | xO q => let '(m, c) := odd_part q in (m, c + 1)%Z
  | _ => (p, 0%Z)
  end.

(** The number [n * 2^u], for [n] of at most 53 bits and [u >= -1074];
    from [2^1024] on it is an infinity. *)
Definition make (negative : bool) (n u : Z) : number :=
  match n with
  | Zpos p =>
      let '(m, c) := odd_part p in
      if (1024 <=? u + c + Z.log2 (Zpos m))%Z then Infinity negative
      else Finite negative m (u + c)
  | _ => Zero negative
  end.

(** [a / (b * 2^u)] as a fraction of integers. *)
Definition scale (a b u : Z) : Z * Z :=
  if (0 <=? u)%Z then (a, b * 2 ^ u)%Z else (a * 2 ^ (- u), b)%Z.

(** The Number value for the positive rational [a / b]: the double
    nearest to it, ties to the even significand. The unit [2^u] of the
    last place is chosen so that the quotient has 53 bits, or is
    [2^-1074] for the subnormal range. *)
Definition round_ratio (negative : bool) (a b : Z) : number :=
  let u0 := Z.max (Z.log2 a - Z.log2 b - 53) (-1074) in
  let '(n0, d0) := scale a b u0 in
  let u := if (2 ^ 53 <=? n0 / d0)%Z then (u0 + 1)%Z else u0 in
  let '(n, d) := scale a b u in
  let q := (n / d)%Z in
  let r := (n mod d)%Z in
  make negative
    (if (2 * r <? d)%Z then q
     else if (d <? 2 * r)%Z then q + 1
     else if Z.even q then q else q + 1)%Z
    u.

(** The Number value for [M * 10^P], the mathematical value of a decimal
    literal. Beyond [10^400] every value is an infinity, and a value
    below [10^-400] is a zero. *)
Definition of_decimal (negative : bool) (M : N) (P : Z) : number :=
  if (M =? 0)%N then Zero negative
  else if (400 <? P)%Z then Infinity negative
  else if (P + Z.log2 (Z.of_N M) + 1 <? -400)%Z then Zero negative
  else if (0 <=? P)%Z then round_ratio negative (Z.of_N M * 10 ^ P) 1
  else round_ratio negative (Z.of_N M) (10 ^ (- P)).

(** The Number value of an integer. *)
Definition of_Z (z : Z) : number :=
  match z with
  | Z0 => Zero false
  | Zpos p => of_decimal false (Npos p) 0
  | Zneg p => of_decimal true (Npos p) 0
  end.

(** Number.isSafeInteger on an integer. *)
Definition safe_integer (z : Z) : bool :=
  (- 9007199254740991 <=? z)%Z && (z <=? 9007199254740991)%Z.

(** Decimal digits, most significant first. *)
Fixpoint digits_from (fuel : nat) (n : N) (acc : list N) : list N :=
  match fuel with
  | O => acc
  | S f =>
      if (n <? 10)%N then n :: acc
      else digits_from f (n / 10)%N ((n mod 10)%N :: acc)
  end.

Definition digits (n : N) : list N :=
  digits_from (S (N.to_nat (N.size n))) n [].

Definition digit_char (d : N) : N := (48 + d)%N.

Definition decimal (n : N) : jsstring := map digit_char (digits n).

(** *** Number::toString

    For a positive double [x = m * 2^e], the digits [s] and the exponent
    [n] of the specification: [s] has [k] digits, [s * 10^(n-k)] has the
    Number value [x], and [k] is as small as possible; among several such
    [s] the one nearest to [x]. *)

(** Whether [a / b >= 10^j]. *)
Definition ge_pow10 (a b j : Z) : bool :=
  if (0 <=? j)%Z then (b * 10 ^ j <=? a)%Z else (b <=? a * 10 ^ (- j))%Z.

(** The integer [j] with [10^j <= a / b < 10^(j+1)], found around an
    estimate from the binary logarithm. *)
Definition floor_log10 (a b : Z) : Z :=
  let f := ((Z.log2 a - Z.log2 b) * 30103 / 100000)%Z in
  if ge_pow10 a b (f + 2) then (f + 2)%Z
  else if ge_pow10 a b (f + 1) then (f + 1)%Z
  else if ge_pow10 a b f then f
  else if ge_pow10 a b (f - 1) then (f - 1)%Z
  else (f - 2)%Z.

(** Whether the [k] digits [s] with exponent [n] denote [m * 2^e]. *)
Definition denotes (m : positive) (e : Z) (s n k : Z) : bool :=
  (10 ^ (k - 1) <=? s)%Z
  && (Z.of_nat (length (digits (Z.to_N s))) =? k)%Z
  && match of_decimal false (Z.to_N s) (n - k) with
     | Finite _ m' e' => (m' =? m)%positive && (e' =? e)%Z
     | _ => false
     end.

(** One attempt: the digits [s], or [10^(k-1)] with the next exponent
    when [s] has grown to [10^k]. *)
Definition attempt (m : positive) (e : Z) (n k s : Z) : option (N * Z) :=
  let '(s', n') := if (s =? 10 ^ k)%Z then (10 ^ (k - 1), n + 1)%Z else (s, n) in
  if denotes m e s' n' k then Some (Z.to_N s', n') else None.

(** The [k]-digit decimals next to [a / b], the nearer one first, and
    the first of them that denotes the number. *)
Definition candidate (m : positive) (e : Z) (a b n k : Z) : option (N * Z) :=
  let '(num, den) :=
    if (0 <=? k - n)%Z then (a * 10 ^ (k - n), b)%Z else (a, b * 10 ^ (n - k))%Z in
  let lo := (num / den)%Z in
  let r := (num mod den)%Z in
  let first :=
    if (2 * r <? den)%Z then lo
    else if (den <? 2 * r)%Z then (lo + 1)%Z
    else if Z.even lo then lo else (lo + 1)%Z in
  let second := if (first =? lo)%Z then (lo + 1)%Z else lo in
  match attempt m e n k first with
  | Some c => Some c
  | None => if (r =? 0)%Z then None else attempt m e n k second
  end.

Fixpoint search (m : positive) (e : Z) (a b n k : Z) (tries : nat) : option (N * Z) :=
  match tries with
  | O => None
  | S tries' =>
      match candidate m e a b n k with
      | Some c => Some c
      | None => search m e a b n (k + 1)%Z tries'
      end
  end.

(** The exact decimal expansion of [m * 2^e]: what is left should
    seventeen digits not be enough, which they are for every double. *)
Definition exact (m : positive) (e : Z) : N * Z :=
  let s := if (0 <=? e)%Z then Z.to_N (Zpos m * 2 ^ e) else Z.to_N (Zpos m * 5 ^ (- e)) in
  (s, Z.of_nat (length (digits s)) + (if (0 <=? e)%Z then 0 else e))%Z.

Definition shortest (m : positive) (e : Z) : N * Z :=
  let a := if (0 <=? e)%Z then (Zpos m * 2 ^ e)%Z else Zpos m in
  let b := if (0 <=? e)%Z then 1%Z else (2 ^ (- e))%Z in
  match search m e a b (floor_log10 a b + 1) 1 17 with
  | Some c => c
  | None => exact m e
  end.

(** The text for the digits [s] and the exponent [n]: an integer with
    zeros appended, a decimal point inside the digits, a fraction with
    zeros after the point, or the exponent form from [1e21] on and below
    [1e-6]. *)
Definition format (s : N) (n : Z) : jsstring :=
  let ds := digits s in
  let k := Z.of_nat (length ds) in
  if ((k <=? n) && (n <=? 21))%Z then
    map digit_char (ds ++ repeat 0%N (Z.to_nat (n - k)))
  else if ((0 <? n) && (n <=? 21))%Z then
    map digit_char (take (Z.to_nat n) ds) ++ 46%N :: map digit_char (drop (Z.to_nat n) ds)
  else if ((-6 <? n) && (n <=? 0))%Z then
    48%N :: 46%N :: map digit_char (repeat 0%N (Z.to_nat (- n)) ++ ds)
  else
    map digit_char (take 1 ds)
    ++ match drop 1 ds with
       | [] => []
       | rest => 46%N :: map digit_char rest
       end
    ++ 101%N :: (if (0 <=? n - 1)%Z then 43%N else 45%N)
    :: decimal (Z.to_N (Z.abs (n - 1))).

Definition chars_of_number (x : number) : jsstring :=
  match x with
  | NaN => str "NaN"
  | Infinity false => str "Infinity"
  | Infinity true => str "-Infinity"
  | Zero _ => str "0"
  | Finite negative m e =>
      let '(s, n) := shortest m e in
      (if negative then [45%N] else []) ++ format s n
  end.

Definition chars_of_Z (z : Z) : jsstring :=
  match z with
  | Z0 => str "0"
  | Zpos p => decimal (Npos p)
  | Zneg p => 45%N :: decimal (Npos p)
  end.

(** Equality of Numbers as [==] and [===] decide it: NaN equals
    nothing, the two zeros are equal. *)
Definition number_equal (x y : number) : bool :=
  match x, y with
  | Infinity a, Infinity b => Bool.eqb a b
  | Zero _, Zero _ => true
  | Finite a m e, Finite b m' e' => Bool.eqb a b && (m =? m')%positive && (e =? e')%Z
  | _, _ => false
  end.

(** *** Values *)

Inductive value : Type :=
| VUndefined
| VNull
| VBool (b : bool)
| VNum (n : number)
| VBigInt (z : Z)
| VStr (s : jsstring)
| VArr (elems : list value)
| VObj (props : list (jsstring * value)).

(** ToBoolean. *)
Definition truthy (v : value) : bool :=
  match v with
  | VUndefined | VNull => false
  | VBool b => b
  | VNum NaN | VNum (Zero _) => false
  | VNum _ => true
  | VBigInt z => negb (z =? 0)%Z
  | VStr [] => false
  | VStr _ => true
  | VArr _ | VObj _ => true
  end.

(** [a && b] and [a || b] on values already evaluated. *)
Definition and_ (a b : value) : value := if truthy a then b else a.
Definition or_ (a b : value) : value := if truthy a then a else b.

(** Reading a property of a property list: the binding of the name,
    [undefined] when there is none. *)
Fixpoint lookup_prop (name : jsstring) (props : list (jsstring * value)) : value :=
  match props with
  | [] => VUndefined
  | (k, v) :: rest => if same_string k name then v else lookup_prop name rest
  end.

(** The property read [v.name], for a name no prototype defines; the
    code guards every read whose base can be [undefined]. *)
Definition get_prop (v : value) (name : jsstring) : value :=
  match v with
  | VObj props => lookup_prop name props
  | _ => VUndefined
  end.

Fixpoint has_prop (name : jsstring) (props : list (jsstring * value)) : bool :=
  match props with
  | [] => false
  | (k, _) :: rest => same_string k name || has_prop name rest
  end.

(** Every name once: what makes a property list an object. *)
Fixpoint distinct_names (props : list (jsstring * value)) : bool :=
  match props with
  | [] => true
  | (k, _) :: rest => negb (has_prop k rest) && distinct_names rest
  end.

(** An array index: the canonical decimal text of an integer from 0 to
    [2^32 - 2]. *)
Fixpoint decimal_value (acc : N) (s : jsstring) : option N :=
  match s with
  | [] => Some acc
  | c :: r =>
      if ((48 <=? c) && (c <=? 57))%N then decimal_value (10 * acc + (c - 48)) r
      else None
  end.

Definition array_index (name : jsstring) : option N :=
  match name with
  | [] => None
  | c :: r =>
      if (c =? 48)%N then match r with [] => Some 0%N | _ => None end
      else
        match decimal_value 0 name with
        | Some i => if (i <=? 4294967294)%N then Some i else None
        | None => None
        end
  end.

Fixpoint replace_prop (name : jsstring) (v : value) (props : list (jsstring * value))
  : list (jsstring * value) :=
  match props with
  | [] => []
  | (k, old) :: rest =>
      if same_string k name then (k, v) :: rest
      else (k, old) :: replace_prop name v rest
  end.

(** Where a new array index goes: after the smaller indices. *)
Fixpoint insert_index (i : N) (name : jsstring) (v : value)
  (props : list (jsstring * value)) : list (jsstring * value) :=
  match props with
  | [] => [(name, v)]
  | (k, x) :: rest =>
      match array_index k with
      | Some j =>
          if (j <? i)%N then (k, x) :: insert_index i name v rest
          else (name, v) :: props
      | None => (name, v) :: props
      end
  end.

(** CreateDataProperty on a property list: an existing binding keeps its
    position and takes the new value; a new array index goes among the
    indices, any other new name goes last. *)
Definition set_prop (name : jsstring) (v : value) (props : list (jsstring * value))
  : list (jsstring * value) :=
  if has_prop name props then replace_prop name v props
  else
    match array_index name with
    | Some i => insert_index i name v props
    | None => props ++ [(name, v)]
    end.

(** Own-property order of a list of names: array indices first, strictly
    ascending from [above] on, then other names, none twice. *)
Fixpoint own_order (above : Z) (names : list jsstring) : bool :=
  match names with
  | [] => true
  | name :: rest =>
      match array_index name with
      | Some i => (above <? Z.of_N i)%Z && own_order (Z.of_N i) rest
      | None =>
          forallb (fun x => match array_index x with Some _ => false | None => true end) rest
          && bool_decide (NoDup names)
      end
  end.

Fixpoint join (sep : jsstring) (parts : list jsstring) : jsstring :=
  match parts with
  | [] => []
  | [p] => p
  | p :: rest => p ++ sep ++ join sep rest
  end.

(** ToString. Arrays go through Array.prototype.join, where [undefined]
    and [null] elements print as the empty string; an object without
    its own [toString] prints as [[object Object]]. *)
Fixpoint ToString (v : value) : jsstring :=
  match v with
  | VUndefined => str "undefined"
  | VNull => str "null"
  | VBool true => str "true"
  | VBool false => str "false"
  | VNum n => chars_of_number n
  | VBigInt z => chars_of_Z z
  | VStr s => s
  | VArr elems =>
      join [44%N]
        (map (fun e => match e with
                       | VUndefined | VNull => []
                       | _ => ToString e
                       end) elems)
  | VObj _ => str "[object Object]"
  end.

(** The own enumerable properties an object spread [{...v}] copies:
    nothing for [undefined], [null] and the other primitives, the
    indexed code units of a string, the indexed elements of an array. *)
Fixpoint indexed {A : Type} (i : N) (l : list A) : list (jsstring * A) :=
  match l with
  | [] => []
  | x :: rest => (decimal i, x) :: indexed (N.succ i) rest
  end.

Definition spread (v : value) : list (jsstring * value) :=
  match v with
  | VObj props => props
  | VArr elems => indexed 0 elems
  | VStr s => indexed 0 (map (fun c => VStr [c]) s)
  | _ => []
  end.

(** Deep equality of values: the same shape, the same property names in
    the same order, and equal leaves, numbers compared as Numbers. *)
Fixpoint deep_equal (a b : value) : bool :=
  match a, b with
  | VUndefined, VUndefined | VNull, VNull => true
  | VBool x, VBool y => Bool.eqb x y
  | VNum x, VNum y => number_equal x y
  | VBigInt x, VBigInt y => (x =? y)%Z
  | VStr x, VStr y => same_string x y
  | VArr xs, VArr ys =>
      (fix all (xs ys : list value) : bool :=
         match xs, ys with
         | [], [] => true
         | x :: xs', y :: ys' => deep_equal x y && all xs' ys'
         | _, _ => false
         end) xs ys
  | VObj ps, VObj qs =>
      (fix all (ps qs : list (jsstring * value)) : bool :=
         match ps, qs with
         | [], [] => true
         | (k, x) :: ps', (l, y) :: qs' => same_string k l && deep_equal x y && all ps' qs'
         | _, _ => false
         end) ps qs
  | _, _ => false
  end.

(** The errors the code can surface, by the JavaScript class of the
    exception and what raised it. *)
Inductive type_error : Type :=
| ReadPropertyOfUndefined (prop : jsstring)   (* [undefined.send] *)
| CannotDestructure                           (* destructuring [null] *)
| CannotSerialize.                            (* JSON.stringify: BigInt *)

End JS.

(** ** JSON.stringify and JSON.parse *)

Module JSON.
Import JS.

(** *** Serialization (SerializeJSONProperty, without replacer or gap) *)

Definition hex_digit (n : N) : N := (if n <? 10 then 48 + n else 87 + n)%N.

(** UnicodeEscape: [\u] and four lower-case hexadecimal digits. *)
Definition unicode_escape (c : N) : jsstring :=
  [92; 117; hex_digit (c / 4096); hex_digit (c / 256 mod 16);
   hex_digit (c / 16 mod 16); hex_digit (c mod 16)]%N.

Definition is_lead (c : N) : bool := ((55296 <=? c) && (c <=? 56319))%N.
Definition is_trail (c : N) : bool := ((56320 <=? c) && (c <=? 57343))%N.

(** QuoteJSONString on a code unit that is not half of a surrogate pair:
    the short escapes, a [\u] escape for the other control characters
    and for a lone surrogate, the unit itself otherwise. *)
Definition quote_unit (c : N) : jsstring :=
  (if c =? 8 then [92; 98]
   else if c =? 9 then [92; 116]
   else if c =? 10 then [92; 110]
   else if c =? 12 then [92; 102]
   else if c =? 13 then [92; 114]
   else if c =? 34 then [92; 34]
   else if c =? 92 then [92; 92]
   else if (c <? 32) || is_lead c || is_trail c then unicode_escape c
   else [c])%N.

(** A leading surrogate followed by a trailing one is a code point and
    is copied as it is. *)
Fixpoint quote_units (s : jsstring) : jsstring :=
  match s with
  | [] => []
  | c :: rest =>
      match rest with
      | d :: rest' =>
          if is_lead c && is_trail d then c :: d :: quote_units rest'
          else quote_unit c ++ quote_units rest
      | [] => quote_unit c
      end
  end.

Definition quote (s : jsstring) : jsstring := 34%N :: quote_units s ++ [34%N].

(** The three outcomes of serializing one value: a TypeError, the value
    [undefined] (nothing to print), or text. *)
Inductive serialized : Type :=
| Throws
| Undefined
| Text (t : jsstring).

(** Array elements: an [undefined] element prints as [null]. *)
Fixpoint serialize_elements (ser : value -> serialized) (l : list value)
  : option (list jsstring) :=
  match l with
  | [] => Some []
  | e :: l' =>
      match ser e with
      | Throws => None
      | Undefined => cons (str "null") <$> serialize_elements ser l'
      | Text t => cons t <$> serialize_elements ser l'
      end
  end.

(** Object members: a property whose value is [undefined] is left out. *)
Fixpoint serialize_members (ser : value -> serialized) (l : list (jsstring * value))
  : option (list jsstring) :=
  match l with
  | [] => Some []
  | (k, e) :: l' =>
      match ser e with
      | Throws => None
      | Undefined => serialize_members ser l'
      | Text t => cons (quote k ++ 58%N :: t) <$> serialize_members ser l'
      end
  end.

Fixpoint serialize (v : value) : serialized :=
  match v with
  | VUndefined => Undefined
  | VNull => Text (str "null")
  | VBool true => Text (str "true")
  | VBool false => Text (str "false")
  | VNum NaN | VNum (Infinity _) => Text (str "null")
  | VNum n => Text (chars_of_number n)
  | VBigInt _ => Throws
  | VStr s => Text (quote s)
  | VArr elems =>
      match serialize_elements serialize elems with
      | Some parts => Text (91%N :: join [44%N] parts ++ [93%N])
      | None => Throws
      end
  | VObj props =>
      match serialize_members serialize props with
      | Some parts => Text (123%N :: join [44%N] parts ++ [125%N])
      | None => Throws
      end
  end.

(** [JSON.stringify(v)]: [inl] is the TypeError thrown, [inr] the value
    returned, a string or [undefined]. *)
Definition stringify (v : value) : type_error + value :=
  match serialize v with
  | Throws => inl CannotSerialize
  | Undefined => inr VUndefined
  | Text t => inr (VStr t)
  end.

(** *** Parsing *)

Inductive parse_error : Type :=
| SyntaxError
| OutOfFuel.     (* the parser's fuel ran out; [parse] never does *)

Inductive res (A : Type) : Type :=
| Ok (a : A)
| Err (e : parse_error).
Arguments Ok {A} a.
Arguments Err {A} e.

#[global] Instance res_bind : MBind res := fun A B f r =>
  match r with
  | Ok a => f a
  | Err e => Err e
  end.

Definition is_ws (c : N) : bool :=
  ((c =? 32) || (c =? 9) || (c =? 10) || (c =? 13))%N.

Fixpoint skip_ws (s : jsstring) : jsstring :=
  match s with
  | c :: r => if is_ws c then skip_ws r else s
  | [] => []
  end.

Fixpoint strip_prefix (p s : jsstring) : option jsstring :=
  match p, s with
  | [], _ => Some s
  | a :: p', b :: s' => if (a =? b)%N then strip_prefix p' s' else None
  | _ :: _, [] => None
  end.

Definition is_digit (c : N) : bool := ((48 <=? c) && (c <=? 57))%N.

(** The longest prefix of decimal digits: its value after the digits
    already read, and how many there are. *)
Fixpoint read_digits (acc : N) (count : nat) (s : jsstring) : N * nat * jsstring :=
  match s with
  | c :: r =>
      if is_digit c then read_digits (10 * acc + (c - 48)) (S count) r
      else (acc, count, s)
  | [] => (acc, count, [])
  end.

Definition starts_with_zero (s : jsstring) : bool :=
  match s with
  | c :: _ => (c =? 48)%N
  | [] => false
  end.

(** The fraction of a number, after the integer digits of value [int]:
    the value of all digits read so far and the number of fraction
    digits. *)
Definition read_fraction (int : N) (s : jsstring) : res (N * nat * jsstring) :=
  match s with
  | c :: r =>
      if (c =? 46)%N then
        let '(M, nf, r') := read_digits int 0 r in
        if (nf =? 0)%nat then Err SyntaxError else Ok (M, nf, r')
      else Ok (int, O, s)
  | [] => Ok (int, O, s)
  end.

(** The exponent part. *)
Definition read_exponent (s : jsstring) : res (Z * jsstring) :=
  match s with
  | c :: r =>
      if ((c =? 101) || (c =? 69))%N then
        let '(minus, r') :=
          match r with
          | d :: r'' =>
              if (d =? 45)%N then (true, r'')
              else if (d =? 43)%N then (false, r'')
              else (false, r)
          | [] => (false, r)
          end in
        let '(x, nx, r'') := read_digits 0 0 r' in
        if (nx =? 0)%nat then Err SyntaxError
        else Ok (if minus then (- Z.of_N x)%Z else Z.of_N x, r'')
      else Ok (0%Z, s)
  | [] => Ok (0%Z, s)
  end.

(** A JSON number after its optional minus sign: an integer part
    without a superfluous leading zero, an optional fraction, an optional
    exponent. Its value is the Number value of the decimal literal. *)
Definition read_number (negative : bool) (s : jsstring) : res (value * jsstring) :=
  let '(int, ni, r1) := read_digits 0 0 s in
  if (ni =? 0)%nat then Err SyntaxError
  else if starts_with_zero s && (1 <? ni)%nat then Err SyntaxError
  else
    '(M, nf, r2) ← read_fraction int r1;
    '(x, r3) ← read_exponent r2;
    Ok (VNum (of_decimal negative M (x - Z.of_nat nf)), r3).

Definition parse_number (s : jsstring) : res (value * jsstring) :=
  match s with
  | c :: r => if (c =? 45)%N then read_number true r else read_number false s
  | [] => Err SyntaxError
  end.

Definition hex_value (c : N) : option N :=
  (if (48 <=? c) && (c <=? 57) then Some (c - 48)
   else if (97 <=? c) && (c <=? 102) then Some (c - 87)
   else if (65 <=? c) && (c <=? 70) then Some (c - 55)
   else None)%N.

Definition hex4 (a b c d : N) : option N :=
  match hex_value a, hex_value b, hex_value c, hex_value d with
  | Some x, Some y, Some z, Some w => Some (((x * 16 + y) * 16 + z) * 16 + w)%N
  | _, _, _, _ => None
  end.

(** The code unit a one-letter escape stands for. *)
Definition unescape (e : N) : option N :=
  (if e =? 34 then Some 34
   else if e =? 92 then Some 92
   else if e =? 47 then Some 47
   else if e =? 98 then Some 8
   else if e =? 102 then Some 12
   else if e =? 110 then Some 10
   else if e =? 114 then Some 13
   else if e =? 116 then Some 9
   else None)%N.

Definition prepend (c : N) (r : res (jsstring * jsstring)) : res (jsstring * jsstring) :=
  '(cs, rest) ← r; Ok (c :: cs, rest).

(** The body of a string literal, after its opening quote. *)
Fixpoint parse_string_body (s : jsstring) : res (jsstring * jsstring) :=
  match s with
  | [] => Err SyntaxError
  | c :: r =>
      if (c =? 34)%N then Ok ([], r)
      else if (c =? 92)%N then
        match r with
        | [] => Err SyntaxError
        | e :: r1 =>
            match unescape e with
            | Some c' => prepend c' (parse_string_body r1)
            | None =>
                if (e =? 117)%N then
                  match r1 with
                  | h1 :: h2 :: h3 :: h4 :: r2 =>
                      match hex4 h1 h2 h3 h4 with
                      | Some n => prepend n (parse_string_body r2)
                      | None => Err SyntaxError
                      end
                  | _ => Err SyntaxError
                  end
                else Err SyntaxError
            end
        end
      else if (c <? 32)%N then Err SyntaxError
      else prepend c (parse_string_body r)
  end.

Definition expect (c : N) (s : jsstring) : res jsstring :=
  match s with
  | c' :: r => if (c =? c')%N then Ok r else Err SyntaxError
  | [] => Err SyntaxError
  end.

Definition keyword (word : jsstring) (v : value) (s : jsstring) : res (value * jsstring) :=
  match strip_prefix word s with
  | Some r => Ok (v, r)
  | None => Err SyntaxError
  end.

(** The object a list of members builds, one CreateDataProperty each. *)
Definition object_of (members : list (jsstring * value)) : value :=
  VObj (fold_left (fun o m => set_prop (fst m) (snd m) o) members []).

(** Values, array elements after [[] and object members after [{]. The
    fuel bounds the number of nested calls: two for each code unit read
    are enough, and that is what [parse] below supplies. *)
Fixpoint parse_value (fuel : nat) (s : jsstring) {struct fuel}
  : res (value * jsstring) :=
  match fuel with
  | O => Err OutOfFuel
  | S fuel =>
      match skip_ws s with
      | [] => Err SyntaxError
      | c :: r =>
          if (c =? 91)%N then
            match skip_ws r with
            | c' :: r' =>
                if (c' =? 93)%N then Ok (VArr [], r')
                else '(vs, r'') ← parse_elements fuel (c' :: r'); Ok (VArr vs, r'')
            | [] => Err SyntaxError
            end
          else if (c =? 123)%N then
            match skip_ws r with
            | c' :: r' =>
                if (c' =? 125)%N then Ok (VObj [], r')
                else '(ms, r'') ← parse_members fuel (c' :: r'); Ok (object_of ms, r'')
            | [] => Err SyntaxError
            end
          else if (c =? 34)%N then
            '(cs, r') ← parse_string_body r; Ok (VStr cs, r')
          else if (c =? 116)%N then keyword (str "true") (VBool true) (c :: r)
          else if (c =? 102)%N then keyword (str "false") (VBool false) (c :: r)
          else if (c =? 110)%N then keyword (str "null") VNull (c :: r)
          else parse_number (c :: r)
      end
  end
with parse_elements (fuel : nat) (s : jsstring) {struct fuel}
  : res (list value * jsstring) :=
  match fuel with
  | O => Err OutOfFuel
  | S fuel =>
      '(v, r) ← parse_value fuel s;
      match skip_ws r with
      | c :: r' =>
          if (c =? 44)%N then
            '(vs, r'') ← parse_elements fuel r'; Ok (v :: vs, r'')
          else if (c =? 93)%N then Ok ([v], r')
          else Err SyntaxError
      | [] => Err SyntaxError
      end
  end
with parse_members (fuel : nat) (s : jsstring) {struct fuel}
  : res (list (jsstring * value) * jsstring) :=
  match fuel with
  | O => Err OutOfFuel
  | S fuel =>
      r0 ← expect 34%N (skip_ws s);
      '(k, r1) ← parse_string_body r0;
      r2 ← expect 58%N (skip_ws r1);
      '(v, r3) ← parse_value fuel r2;
      match skip_ws r3 with
      | c :: r' =>
          if (c =? 44)%N then
            '(ms, r'') ← parse_members fuel r'; Ok ((k, v) :: ms, r'')
          else if (c =? 125)%N then Ok ([(k, v)], r')
          else Err SyntaxError
      | [] => Err SyntaxError
      end
  end.

(** [JSON.parse(x)] without reviver: the argument is converted with
    ToString, one value is read and nothing but white space may follow. *)
Definition parse (x : value) : res value :=
  let text := ToString x in
  '(v, r) ← parse_value (S (2 * length text)) text;
  match skip_ws r with
  | [] => Ok v
  | _ :: _ => Err SyntaxError
  end.

(** *** JSON values

    The values JSON represents: [null], booleans, finite numbers (every
    double, the two zeros included), strings, arrays and objects of
    these, the properties of an object being in own-property order. They
    contain no [undefined], no NaN or infinity and no BigInt. *)
Fixpoint is_json (v : value) : bool :=
  match v with
  | VNull | VBool _ => true
  | VStr s => is_string s
  | VNum (Zero _) => true
  | VNum (Finite negative m e) => is_double (Finite negative m e)
  | VArr elems => forallb is_json elems
  | VObj props =>
      forallb (fun p => is_string (fst p) && is_json (snd p)) props
      && own_order (-1) (map fst props)
  | VUndefined | VNum _ | VBigInt _ => false
  end.

(** What [JSON.parse] reads from the text of a JSON value: the value
    itself, but for the sign of a negative zero, which the text [0]
    does not carry. *)
Fixpoint read_back (v : value) : value :=
  match v with
  | VNum (Zero _) => VNum (Zero false)
  | VArr elems => VArr (map read_back elems)
  | VObj props => VObj (map (fun p => (fst p, read_back (snd p))) props)
  | _ => v
  end.

End JSON.

(** ** The SDK and the service behind the document client *)

(** A model of the collaborators the source reaches through the SDK: the
    client constructors, the document client's marshalling and [send],
    and the service: tables with a key schema, GetItem and PutItem by
    primary key, and the refusals a call can meet (unknown client,
    unknown table, a key that does not fit the schema, attributes the
    service does not take). A read sees every write acknowledged before
    it. Throttling, network failures and the delay of an eventually
    consistent read are left out, and so is the region a shared
    configuration file would supply. *)

Module DynamoDB.
Import JS.

(** Scalar types of key attributes (binary keys are not modelled). *)
Inductive key_type : Type := KString | KNumber.

(** A key value: a string, a number, or an integer that travelled as a
    BigInt because no double holds it. *)
Inductive key_scalar : Type :=
| KS (s : jsstring)
| KN (x : number)
| KI (z : Z).

#[global] Instance number_eq_dec : EqDecision number.
Proof. solve_decision. Defined.

#[global] Instance number_countable : Countable number.
Proof.
  refine (inj_countable'
            (fun x => match x with
                      | NaN => inl (inl tt)
                      | Infinity b => inl (inr b)
                      | Zero b => inr (inl b)
                      | Finite b m e => inr (inr (b, m, e))
                      end)
            (fun y => match y with
                      | inl (inl _) => NaN
                      | inl (inr b) => Infinity b
                      | inr (inl b) => Zero b
                      | inr (inr (b, m, e)) => Finite b m e
                      end) _).
  intros []; reflexivity.
Defined.

#[global] Instance key_scalar_eq_dec : EqDecision key_scalar.
Proof. solve_decision. Defined.

#[global] Instance key_scalar_countable : Countable key_scalar.
Proof.
  refine (inj_countable'
            (fun k => match k with
                      | KS s => inl s
                      | KN x => inr (inl x)
                      | KI z => inr (inr z)
                      end)
            (fun y => match y with
                      | inl s => KS s
                      | inr (inl x) => KN x
                      | inr (inr z) => KI z
                      end) _).
  intros []; reflexivity.
Defined.

(** A table: the names and types of its partition key and optional sort
    key, and its items by primary key. *)
Record table : Type := Table {
  key_schema : list (jsstring * key_type);
  items : gmap (list key_scalar) (list (jsstring * value));
}.

(** The two credential strategies [init] can hand to the client. *)
Inductive credentials : Type :=
| Federated (region identityPoolId : value)
| Static (accessKeyId secretAccessKey : value).

(** What [new DynamoDBClient({region, credentials})] captures. *)
Record client_config : Type := ClientConfig {
  client_region : value;
  client_credentials : credentials;
}.

(** A client constructor takes a region that is [undefined] or [null]
    (it will look for one when a request is made) and a region that is
    truthy; any other it refuses, throwing "Region is missing". *)
Definition constructs (region : value) : bool :=
  match region with
  | VUndefined | VNull => true
  | _ => truthy region
  end.

(** [fromCognitoIdentityPool({client: new CognitoIdentityClient({region}),
    identityPoolId})]: [None] when the constructor throws. *)
Definition fromCognitoIdentityPool (region identityPoolId : value) : option credentials :=
  if constructs region then Some (Federated region identityPoolId) else None.

(** [DynamoDBDocumentClient.from(new DynamoDBClient({region, credentials}))]:
    [None] when the constructor throws. *)
Definition DynamoDBClient (region : value) (c : credentials) : option client_config :=
  if constructs region then Some (ClientConfig region c) else None.

Inductive command : Type :=
| GetCommand (TableName : value) (Key : value)
| PutCommand (TableName : value) (Item : value).

Inductive service_error : Type :=
| UnrecognizedClientException
| ValidationException
| ResourceNotFoundException.

(** A request fails in the client, before anything is sent, when the
    input cannot be marshalled or the client finds no region; otherwise
    the service answers. *)
Inductive failure : Type :=
| MarshallError
| RegionMissing
| ServiceError (e : service_error).

(** The service: its tables, which regions and credentials it serves,
    which attribute lists it admits as an item or a key (sizes, number
    range, nesting), the [$metadata] of its answer to the last of the
    commands received, and the commands it has received, oldest first. *)
Record service : Type := Service {
  tables : gmap jsstring table;
  authorised : jsstring -> credentials -> bool;
  admits : list (jsstring * value) -> bool;
  metadata : list command -> value;
  received : list command;
}.

(** Whether a number is greater than Number.MAX_SAFE_INTEGER or less
    than Number.MIN_SAFE_INTEGER. *)
Definition beyond_safe_integers (x : number) : bool :=
  match x with
  | Finite _ m e =>
      if (0 <=? e)%Z then (9007199254740991 <? Zpos m * 2 ^ e)%Z
      else (9007199254740991 * 2 ^ (- e) <? Zpos m)%Z
  | _ => false
  end.

(** What the document client's unmarshalling gives back for a value its
    marshalling accepted (default options). [undefined], NaN, the
    infinities and the numbers beyond the safe integers are refused; a
    zero loses its sign; a BigInt travels as a number and comes back as
    one when it is a safe integer. *)
Fixpoint marshall (v : value) : option value :=
  match v with
  | VUndefined => None
  | VNum NaN | VNum (Infinity _) => None
  | VNum (Zero _) => Some (VNum (Zero false))
  | VNum x => if beyond_safe_integers x then None else Some v
  | VBigInt z => Some (if safe_integer z then VNum (of_Z z) else v)
  | VNull | VBool _ | VStr _ => Some v
  | VArr elems => VArr <$> mapM marshall elems
  | VObj props => VObj <$> mapM (fun p => pair (fst p) <$> marshall (snd p)) props
  end.

(** The attributes of an Item or a Key: each value is marshalled on its
    own, and an attribute whose value is [undefined] is not sent. *)
Fixpoint marshall_attributes (props : list (jsstring * value))
  : option (list (jsstring * value)) :=
  match props with
  | [] => Some []
  | (k, VUndefined) :: rest => marshall_attributes rest
  | (k, v) :: rest =>
      x ← marshall v; rest' ← marshall_attributes rest; Some ((k, x) :: rest')
  end.

(** The member [Key] or [Item] of a command input. A member that is
    [undefined] is left alone, [null] has no entries to go through
    (a TypeError), an array is marshalled element by element, anything
    else entry by entry. *)
Definition marshall_input (v : value) : option value :=
  match v with
  | VUndefined => Some VUndefined
  | VNull => None
  | VArr elems =>
      VArr <$> mapM (fun e => match e with
                              | VUndefined => Some VUndefined
                              | _ => marshall e
                              end) elems
  | _ => VObj <$> marshall_attributes (spread v)
  end.

Definition key_scalar_of (ty : key_type) (v : value) : option key_scalar :=
  match ty, v with
  | KString, VStr (c :: s) => Some (KS (c :: s))
  | KNumber, VNum (Zero _) => Some (KN (Zero false))
  | KNumber, VNum (Finite negative m e) => Some (KN (Finite negative m e))
  | KNumber, VBigInt z => Some (KI z)
  | _, _ => None
  end.

(** The primary key of an item (or of a Key argument): every attribute
    of the schema must be there with the schema's type. *)
Definition key_of (schema : list (jsstring * key_type)) (props : list (jsstring * value))
  : option (list key_scalar) :=
  mapM (fun a => key_scalar_of (snd a) (lookup_prop (fst a) props)) schema.

(** A Key argument may name no attribute outside the schema. *)
Definition only_key_attributes (schema : list (jsstring * key_type))
  (props : list (jsstring * value)) : bool :=
  forallb (fun p => has_prop (fst p) (map (fun a => (fst a, VNull)) schema)) props.

(** The primary key a Key argument denotes, when it fits the schema. *)
Definition primary_key (t : table) (key : list (jsstring * value))
  : option (list key_scalar) :=
  if only_key_attributes (key_schema t) key then key_of (key_schema t) key else None.

(** Whether the service admits a caller's Key or Item once the document
    client has marshalled it. *)
Definition accepts (svc : service) (input : value) : bool :=
  match marshall_input input with
  | Some (VObj props) => admits svc props
  | _ => false
  end.

(** The primary key a caller's Key addresses: the key is marshalled,
    admitted by the service, and fits the table's schema. *)
Definition addresses (svc : service) (t : table) (key : value) : option (list key_scalar) :=
  match marshall_input key with
  | Some (VObj props) => if admits svc props then primary_key t props else None
  | _ => None
  end.

(** GetItem: the response carries [Item] only when an item is stored. *)
Definition get_item (meta : value) (t : table) (key : list (jsstring * value))
  : service_error + value :=
  match primary_key t key with
  | Some pk =>
      match items t !! pk with
      | Some item => inr (VObj [(str "$metadata", meta); (str "Item", VObj item)])
      | None => inr (VObj [(str "$metadata", meta)])
      end
  | None => inl ValidationException
  end.

(** PutItem without a condition expression: the item replaces whatever
    is stored under its primary key. The output carries nothing but
    [$metadata]. *)
Definition put_item (meta : value) (t : table) (item : list (jsstring * value))
  : service_error + (table * value) :=
  match key_of (key_schema t) item with
  | Some pk =>
      inr (Table (key_schema t) (<[pk := item]> (items t)), VObj [(str "$metadata", meta)])
  | None => inl ValidationException
  end.

Definition log (cmd : command) (svc : service) : service :=
  Service (tables svc) (authorised svc) (admits svc) (metadata svc) (received svc ++ [cmd]).

Definition with_table (name : jsstring) (t : table) (svc : service) : service :=
  Service (<[name := t]> (tables svc)) (authorised svc) (admits svc) (metadata svc)
    (received svc).

(** The service's answer to a marshalled command from a client of the
    given region and credentials. *)
Definition serve (region : jsstring) (c : credentials) (cmd : command) (svc : service)
  : service * (service_error + value) :=
  if authorised svc region c then
    match cmd with
    | GetCommand (VStr name) (VObj key) =>
        match tables svc !! name with
        | Some t =>
            if admits svc key
            then (svc, get_item (metadata svc (received svc)) t key)
            else (svc, inl ValidationException)
        | None => (svc, inl ResourceNotFoundException)
        end
    | PutCommand (VStr name) (VObj item) =>
        match tables svc !! name with
        | Some t =>
            if admits svc item then
              match put_item (metadata svc (received svc)) t item with
              | inr (t', out) => (with_table name t' svc, inr out)
              | inl e => (svc, inl e)
              end
            else (svc, inl ValidationException)
        | None => (svc, inl ResourceNotFoundException)
        end
    | _ => (svc, inl ValidationException)
    end
  else (svc, inl UnrecognizedClientException).

Definition marshall_command (cmd : command) : option command :=
  match cmd with
  | GetCommand name key => GetCommand name <$> marshall_input key
  | PutCommand name item => PutCommand name <$> marshall_input item
  end.

(** The region of a request: the client's own when it was given a
    string, else, for a client built with [undefined] or [null], the
    environment's [AWS_REGION] as it is when the request is made. *)
Definition resolve_region (cfg : client_config) (AWS_REGION : value) : option jsstring :=
  match client_region cfg with
  | VStr (c :: r) => Some (c :: r)
  | VUndefined | VNull =>
      match AWS_REGION with
      | VStr (c :: r) => Some (c :: r)
      | _ => None
      end
  | _ => None
  end.

(** [client.send(cmd)], once awaited. The command is logged as the
    caller gave it when its request goes out. A credential provider that
    fails counts as a refusal by the service. *)
Definition send (AWS_REGION : value) (cfg : client_config) (cmd : command) (svc : service)
  : service * (failure + value) :=
  match marshall_command cmd with
  | None => (svc, inl MarshallError)
  | Some wire =>
      match resolve_region cfg AWS_REGION with
      | Some region =>
          let '(svc', answer) := serve region (client_credentials cfg) wire (log cmd svc) in
          (svc', match answer with
                 | inl e => inl (ServiceError e)
                 | inr out => inr out
                 end)
      | None => (svc, inl RegionMissing)
      end
  end.

End DynamoDB.

(** ** The source: [src/index.js] *)

Import JS.

Inductive error : Type :=
| TypeError (e : type_error)
| JsError (message : jsstring)               (* [new Error(message)] *)
| JsonSyntaxError                            (* thrown by JSON.parse *)
| SdkError                                   (* thrown by the client before a request *)
| BackendError (e : DynamoDB.service_error). (* the service's answer, passed through *)

Inductive settled : Type :=
| Fulfilled (v : value)
| Rejected (e : error).

(** The state the module runs in: the module variable [client]
    ([None] until an [init] assigned it), [process.env] ([None] where
    [typeof process] is ['undefined']) and the service behind the client. *)
Record world : Type := World {
  client : option DynamoDB.client_config;
  process_env : option (gmap jsstring jsstring);
  backend : DynamoDB.service;
}.

(** The promise of an [async] function: settled, or suspended at an
    [await] with the rest of the body, which will run in the world as it
    is when the body is resumed. *)
Inductive promise : Type :=
| Settled (r : settled)
| Pending (resume : world -> world * promise).

(** A call runs the body up to its first [await] and returns the promise. *)
Definition async : Type := world -> world * promise.

(** Running a promise to its end with nothing else scheduled in between. *)
Fixpoint run (p : promise) (w : world) : world * settled :=
  match p with
  | Settled r => (w, r)
  | Pending resume => let '(w', p') := resume w in run p' w'
  end.

(** [await call()]: the call and its promise run to the end. *)
Definition await (call : async) (w : world) : world * settled :=
  let '(w', p) := call w in run p w'.

(** [typeof process !== 'undefined' ? process.env.NAME : undefined] *)
Definition env_var (name : jsstring) (w : world) : value :=
  match process_env w with
  | Some env =>
      match env !! name with
      | Some s => VStr s
      | None => VUndefined
      end
  | None => VUndefined
  end.

(** A destructuring default [{name = d}]: [d] stands in when the property
    is [undefined], and only then. *)
Definition with_default (v d : value) : value :=
  match v with
  | VUndefined => d
  | _ => v
  end.

(** The four parameters of [init] after destructuring. *)
Record init_parameters : Type := InitParameters {
  region : value;
  identityPoolId : value;
  accessKeyId : value;
  secretAccessKey : value;
}.

Definition destructure (options : value) (w : world) : init_parameters :=
  {| region := with_default (get_prop options (str "region")) (env_var (str "AWS_REGION") w);
     identityPoolId :=
       with_default (get_prop options (str "identityPoolId"))
         (env_var (str "AWS_IDENTITY_POOL_ID") w);
     accessKeyId :=
       with_default (get_prop options (str "accessKeyId"))
         (env_var (str "AWS_ACCESS_KEY_ID") w);
     secretAccessKey :=
       with_default (get_prop options (str "secretAccessKey"))
         (env_var (str "AWS_SECRET_ACCESS_KEY") w) |}.

Definition insufficient_credentials : error :=
  JsError (str "Insufficient credentials provided").

(** What a client constructor throws. *)
Definition region_missing : error := JsError (str "Region is missing").

(** [client = DynamoDBDocumentClient.from(new DynamoDBClient({region,
    credentials}))], the last statement of [init]: when the constructor
    throws, nothing is assigned. *)
Definition assign_client (region : value) (credentials : DynamoDB.credentials)
  (w : world) : world * promise :=
  match DynamoDB.DynamoDBClient region credentials with
  | Some c => (World (Some c) (process_env w) (backend w), Settled (Fulfilled VUndefined))
  | None => (w, Settled (Rejected region_missing))
  end.

(** [export async function init({region = ..., ...} = {})]. The argument
    defaults to [{}] when it is [undefined]; [null] cannot be destructured.
    The parameters are bound when the call is made, the identity-pool
    branch awaits two imports before it builds its credentials. *)
Definition init (options : value) : async := fun w =>
  match options with
  | VNull => (w, Settled (Rejected (TypeError CannotDestructure)))
  | _ =>
      let p := destructure options w in
      if truthy (identityPoolId p) then
        (w, Pending (fun w1 =>
        (w1, Pending (fun w2 =>
          match DynamoDB.fromCognitoIdentityPool (region p) (identityPoolId p) with
          | Some credentials => assign_client (region p) credentials w2
          | None => (w2, Settled (Rejected region_missing))
          end))))
      else if truthy (and_ (accessKeyId p) (secretAccessKey p)) then
        assign_client (region p)
          (DynamoDB.Static (accessKeyId p) (secretAccessKey p)) w
      else (w, Settled (Rejected insufficient_credentials))
  end.

(** [tablename || (typeof process !== 'undefined' ?
    process.env.DYNAMODB_TABLE : undefined)] *)
Definition TableName (tablename : value) (w : world) : value :=
  or_ tablename (env_var (str "DYNAMODB_TABLE") w).

(** [{...PKorPKSK, JSON: json}] *)
Definition Item (PKorPKSK json : value) : value :=
  VObj (set_prop (str "JSON") json (spread PKorPKSK)).

Definition of_failure (f : DynamoDB.failure) : error :=
  match f with
  | DynamoDB.MarshallError | DynamoDB.RegionMissing => SdkError
  | DynamoDB.ServiceError e => BackendError e
  end.

(** [await client.send(command)] on an assigned client: the request is
    made, the body is suspended, and once resumed it settles with the
    error of a failed request or with what the rest of the body makes of
    the response. *)
Definition await_send (c : DynamoDB.client_config) (command : DynamoDB.command)
  (continue : value -> settled) (w : world) : world * promise :=
  let '(svc, answer) :=
    DynamoDB.send (env_var (str "AWS_REGION") w) c command (backend w) in
  (World (client w) (process_env w) svc,
   Pending (fun w' =>
     (w', Settled (match answer with
                   | inl f => Rejected (of_failure f)
                   | inr response => continue response
                   end)))).

(** [response.Item && response.Item.JSON ? JSON.parse(response.Item.JSON)
    : response.Item || null]. [JSON.parse] returns or throws a
    SyntaxError. *)
Definition unwrap (response : value) : settled :=
  let Item := get_prop response (str "Item") in
  if truthy (and_ Item (get_prop Item (str "JSON"))) then
    match JSON.parse (get_prop Item (str "JSON")) with
    | JSON.Ok v => Fulfilled v
    | JSON.Err _ => Rejected JsonSyntaxError
    end
  else Fulfilled (or_ Item VNull).

Definition undefined_client : error :=
  TypeError (ReadPropertyOfUndefined (str "send")).

Record atObject : Type := AtObject {
  get : async;
  put : value -> async;
}.

Record tableObject : Type := TableObject {
  at_ : value -> atObject;
}.

(** [export const table = (tablename) => ...]. Both methods first await
    the import of the command class. In [client.send(new XCommand(...))]
    the callee [client.send] is read before the argument is evaluated, so
    an [undefined] client throws before [JSON.stringify] runs. *)
Definition table (tablename : value) : tableObject :=
  {| at_ := fun PKorPKSK =>
       {| get := fun w0 =>
            (w0, Pending (fun w =>
               match client w with
               | None => (w, Settled (Rejected undefined_client))
               | Some c =>
                   await_send c
                     (DynamoDB.GetCommand (TableName tablename w) PKorPKSK)
                     unwrap w
               end));
          put := fun data w0 =>
            (w0, Pending (fun w =>
               match client w with
               | None => (w, Settled (Rejected undefined_client))
               | Some c =>
                   match JSON.stringify data with
                   | inl e => (w, Settled (Rejected (TypeError e)))
                   | inr json =>
                       await_send c
                         (DynamoDB.PutCommand (TableName tablename w)
                            (Item PKorPKSK json))
                         Fulfilled w
                   end
               end)) |} |}.

(** ** Observations used in the statements *)

(** The table a call through [table(tablename)] reaches in [w], with its
    name: the client is assigned and finds a region, the service serves
    it, and the table name resolves to a table that exists. *)
Definition reaches (tablename : value) (w : world) : option (jsstring * DynamoDB.table) :=
  match client w, TableName tablename w with
  | Some c, VStr name =>
      match DynamoDB.resolve_region c (env_var (str "AWS_REGION") w) with
      | Some r =>
          if DynamoDB.authorised (backend w) r (DynamoDB.client_credentials c)
          then pair name <$> DynamoDB.tables (backend w) !! name
          else None
      | None => None
      end
  | _, _ => None
  end.

(** The world after the service has answered a command. *)
Definition served (svc : DynamoDB.service) (w : world) : world :=
  World (client w) (process_env w) svc.

(** What [JSON.stringify(data)] returns, [undefined] when it throws. *)
Definition serialization (data : value) : value :=
  match JSON.stringify data with
  | inr json => json
  | inl _ => VUndefined
  end.

(** Awaited [init] calls, one after the other: the world they leave and
    how each one settled. *)
Fixpoint init_each (calls : list value) (w : world) : world * list settled :=
  match calls with
  | [] => (w, [])
  | options :: rest =>
      let '(w1, r) := await (init options) w in
      let '(w2, rs) := init_each rest w1 in
      (w2, r :: rs)
  end.

Definition is_rejected (r : settled) : bool :=
  match r with
  | Rejected _ => true
  | Fulfilled _ => false
  end.

(** ** Worlds and values for the examples *)

Module Examples.

(** A table keyed by [pk] and [sk], one keyed by a string [pk] and a
    number [ts], and one whose partition key is an attribute named
    [JSON]; all empty. *)
Definition users : DynamoDB.table :=
  DynamoDB.Table [(str "pk", DynamoDB.KString); (str "sk", DynamoDB.KString)] ∅.

Definition events : DynamoDB.table :=
  DynamoDB.Table [(str "pk", DynamoDB.KString); (str "ts", DynamoDB.KNumber)] ∅.

Definition envelopes : DynamoDB.table :=
  DynamoDB.Table [(str "JSON", DynamoDB.KString)] ∅.

(** The [$metadata] of an answer: the status and a request id, here the
    number of the request. *)
Definition request_number (received : list DynamoDB.command) : value :=
  VObj [(str "httpStatusCode", VNum (of_Z 200));
        (str "requestId", VStr (decimal (N.of_nat (length received))));
        (str "attempts", VNum (of_Z 1))].

(** A service that serves every client and admits items of up to a
    hundred attributes. *)
Definition service : DynamoDB.service :=
  DynamoDB.Service
    (<[str "users" := users]>
       (<[str "events" := events]> (<[str "envelopes" := envelopes]> ∅)))
    (fun _ _ => true)
    (fun props => (length props <=? 100)%nat)
    request_number
    [].

(** Before any [init]; the environment defines no variable. *)
Definition fresh : world := World None (Some ∅) service.

Definition static_options : value :=
  VObj [(str "region", VStr (str "us-east-1"));
        (str "accessKeyId", VStr (str "AKIAEXAMPLE"));
        (str "secretAccessKey", VStr (str "secret"))].

Definition both_options : value :=
  VObj [(str "region", VStr (str "us-east-1"));
        (str "identityPoolId", VStr (str "us-east-1:exampleId"));
        (str "accessKeyId", VStr (str "AKIAEXAMPLE"));
        (str "secretAccessKey", VStr (str "secret"))].

(** After [await init(static_options)]. *)
Definition ready : world := fst (await (init static_options) fresh).

Definition profile_key : value :=
  VObj [(str "pk", VStr (str "u1")); (str "sk", VStr (str "profile"))].
Definition profile_pk : list DynamoDB.key_scalar :=
  [DynamoDB.KS (str "u1"); DynamoDB.KS (str "profile")].

Definition ada : value :=
  VObj [(str "name", VStr (str "Ada")); (str "age", VNum (of_Z 30))].

(** A payload with a fraction, a number in exponent form, the two
    zeros, the least double, an array index as a property name, and a
    string with a surrogate pair and a lone surrogate. *)
Definition reading : value :=
  VObj [(str "0", VNum (of_decimal false 1 (-1)));
        (str "big", VNum (of_decimal true 15 299));
        (str "least", VNum (of_decimal false 5 (-324)));
        (str "zeros", VArr [VNum (Zero false); VNum (Zero true)]);
        (str "text", VStr [55357; 56832; 55357; 10; 233]%N);
        (str "none", VNull)].

(** A key for [envelopes]: its one attribute is named [JSON]. *)
Definition envelope_key : value := VObj [(str "JSON", VStr (str "x"))].

(** [ready] with one item in [users]. *)
Definition with_item (item : list (jsstring * value)) : world :=
  served
    (DynamoDB.with_table (str "users")
       (DynamoDB.Table (DynamoDB.key_schema users) {[ profile_pk := item ]})
       (backend ready))
    ready.

(** An item written by another tool, without the envelope attribute. *)
Definition foreign_item : list (jsstring * value) :=
  [(str "pk", VStr (str "u1")); (str "sk", VStr (str "profile"));
   (str "plan", VStr (str "free"))].

(** The item [put(null)] stores. *)
Definition null_item : list (jsstring * value) :=
  [(str "pk", VStr (str "u1")); (str "sk", VStr (str "profile"));
   (str "JSON", VStr (str "null"))].

(** A server process whose environment names a region, a static pair, an
    identity pool and a default table. *)
Definition environment : gmap jsstring jsstring :=
  <[str "AWS_REGION" := str "eu-west-1"]>
    (<[str "AWS_ACCESS_KEY_ID" := str "AKIAENV"]>
       (<[str "AWS_SECRET_ACCESS_KEY" := str "envsecret"]>
          (<[str "AWS_IDENTITY_POOL_ID" := str "eu-west-1:pool"]>
             (<[str "DYNAMODB_TABLE" := str "users"]> ∅)))).

Definition server : world := World None (Some environment) service.

(** Where [typeof process] is ['undefined']. *)
Definition browser : world := World None None service.

(** Static keys with the identity pool switched off by [null]. *)
Definition static_over_pool : value :=
  VObj [(str "region", VStr (str "us-east-1"));
        (str "identityPoolId", VNull);
        (str "accessKeyId", VStr (str "AKIAEXAMPLE"));
        (str "secretAccessKey", VStr (str "secret"))].

Definition server_ready : world := fst (await (init static_over_pool) server).

(** Options whose region is the empty string. *)
Definition empty_region : value :=
  VObj [(str "region", VStr []);
        (str "identityPoolId", VStr (str "us-east-1:exampleId"));
        (str "accessKeyId", VStr (str "AKIAEXAMPLE"));
        (str "secretAccessKey", VStr (str "secret"))].

(** A payload that loses information in JSON, and what comes back. *)
Definition lossy : value :=
  VObj [(str "name", VStr (str "Ada")); (str "nick", VUndefined); (str "score", VNum NaN)].
Definition lossy_read : value :=
  VObj [(str "name", VStr (str "Ada")); (str "score", VNull)].

Definition other_key : value :=
  VObj [(str "pk", VStr (str "u2")); (str "sk", VStr (str "profile"))].
Definition other_pk : list DynamoDB.key_scalar :=
  [DynamoDB.KS (str "u2"); DynamoDB.KS (str "profile")].

(** A key of [events] whose number is the least integer beyond the safe
    ones, [2^53]. *)
Definition unsafe_key : value :=
  VObj [(str "pk", VStr (str "u1")); (str "ts", VNum (of_Z 9007199254740992))].

End Examples.

Arguments JS.str : simpl never.
Arguments JS.of_decimal : simpl never.
Arguments JS.digits : simpl never.
Arguments JS.shortest : simpl never.
Arguments JS.format : simpl never.
Arguments JSON.parse_number : simpl never.

(** ** Predicates on JSON text used in the proofs *)

Module JsonText.
Import JSON.

(** The value of a digit sequence read from the left. *)
Definition step (a d : N) : N := (10 * a + d)%N.

(** Text that may follow a value inside an array or an object, or end
    the input. *)
Definition closes (rest : jsstring) : Prop :=
  match rest with
  | [] => True
  | c :: _ => c = 44%N \/ c = 93%N \/ c = 125%N
  end.

(** Text that does not go on with a digit. *)
Definition ends_digits (rest : jsstring) : Prop :=
  match rest with
  | [] => True
  | c :: _ => is_digit c = false
  end.

(** The fraction and the exponent of a number's text, after the digits
    of the integer part. *)
Definition fraction_text (b : list N) : jsstring :=
  match b with
  | [] => []
  | _ => 46%N :: map digit_char b
  end.

Definition exponent_text (x : option Z) : jsstring :=
  match x with
  | None => []
  | Some x => 101%N :: (if (0 <=? x)%Z then 43%N else 45%N) :: decimal (Z.to_N (Z.abs x))
  end.

(** Integer digits as JSON allows them: no leading zero before another
    digit. *)
Definition integer_digits (a : list N) : Prop :=
  exists d a', a = d :: a' /\ ((0 < d)%N \/ a' = []).

(** The first code unit of a value's text: no white space, and not the
    bracket that would close an empty array. *)
Definition starts_value (t : jsstring) : Prop :=
  match t with
  | c :: _ => is_ws c = false /\ (c =? 93)%N = false
  | [] => False
  end.

(** [t] is text from which [v] is read, whatever closes it. *)
Definition reads_as (v : value) (t : jsstring) : Prop :=
  starts_value t /\
  forall fuel rest,
    length t <= fuel -> closes rest ->
    parse_value fuel (t ++ rest) = Ok (v, rest).

(** The text of one object member. *)
Definition member_reads_as (p : jsstring * value) (m : jsstring) : Prop :=
  exists t, m = quote (fst p) ++ 58%N :: t /\ reads_as (snd p) t.

(** The first code unit of a number. *)
Definition starts_number (c : N) : bool := (c =? 45)%N || is_digit c.

(** A Number with the given sign. *)
Definition with_sign (negative : bool) (x : number) : number :=
  match x with
  | NaN => NaN
  | Infinity _ => Infinity negative
  | Zero _ => Zero negative
  | Finite _ m e => Finite negative m e
  end.

End JsonText.

Import JsonText.

(** * Properties *)

(** ** Strings *)

Section Strings.

Lemma same_string_spec a b : reflect (a = b) (same_string a b).
Proof.
  revert b. induction a as [|x a IH]; intros [|y b]; simpl; try (constructor; congruence).
  destruct (N.eqb_spec x y) as [->|Hne]; simpl.
  - destruct (IH b) as [->|Hne]; constructor; congruence.
  - constructor. congruence.
Qed.

Lemma same_string_refl a : same_string a a = true.
Proof. by destruct (same_string_spec a a). Qed.

Lemma same_string_eq a b : same_string a b = true -> a = b.
Proof. by destruct (same_string_spec a b). Qed.

Lemma same_string_neq a b : a <> b -> same_string a b = false.
Proof. by destruct (same_string_spec a b). Qed.

End Strings.

(** ** Decimal digits *)

Section Digits.
Local Open Scope N_scope.

Lemma digits_from_acc f n acc : digits_from f n acc = digits_from f n [] ++ acc.
Proof.
  revert n acc. induction f as [|f IH]; intros n acc; simpl; [done|].
  destruct (n <? 10); [done|].
  rewrite (IH _ (_ :: acc)), (IH _ [_]). by rewrite <- app_assoc.
Qed.

Lemma digits_from_spec f n :
  n < 2 ^ N.of_nat f ->
  Forall (fun d => d < 10) (digits_from (S f) n [])
  /\ fold_left step (digits_from (S f) n []) 0 = n
  /\ exists d ds, digits_from (S f) n [] = d :: ds /\ (0 < n -> 0 < d).
Proof.
  revert n. induction f as [|f IH]; intros n Hn.
  - simpl in Hn. assert (n = 0) as -> by lia. simpl.
    split; [by repeat constructor|]. split; [done|]. eauto.
  - change (digits_from (S (S f)) n [])
      with (if n <? 10 then [n] else digits_from (S f) (n / 10) [n mod 10]).
    destruct (N.ltb_spec n 10) as [Hlt|Hge].
    + split; [by repeat constructor|]. split; [unfold step; simpl; lia|]. eauto.
    + rewrite digits_from_acc.
      assert (Hdiv : n / 10 < 2 ^ N.of_nat f).
      { rewrite Nat2N.inj_succ, N.pow_succ_r' in Hn.
        apply N.Div0.div_lt_upper_bound. lia. }
      destruct (IH (n / 10) Hdiv) as (Hall & Hval & d & ds & Hd & Hpos).
      split; [|split].
      * apply Forall_app. split; [done|]. repeat constructor.
        apply N.mod_lt. lia.
      * rewrite fold_left_app, Hval. unfold step. simpl.
        rewrite (N.div_mod n 10) at 3 by lia. lia.
      * exists d, (ds ++ [n mod 10]). rewrite Hd. split; [done|].
        intros _. apply Hpos. apply N.div_str_pos. lia.
Qed.

Lemma digits_spec n :
  Forall (fun d => d < 10) (digits n)
  /\ fold_left step (digits n) 0 = n
  /\ exists d ds, digits n = d :: ds /\ (0 < n -> 0 < d).
Proof.
  apply digits_from_spec. rewrite N2Nat.id. apply N.size_gt.
Qed.

Lemma digits_small n : Forall (fun d => d < 10) (digits n).
Proof. apply digits_spec. Qed.

Lemma digits_value n : fold_left step (digits n) 0 = n.
Proof. apply digits_spec. Qed.

Lemma digits_head n : exists d ds, digits n = d :: ds /\ (0 < n -> 0 < d).
Proof. apply digits_spec. Qed.

Lemma fold_step_zeros j acc : fold_left step (repeat 0 j) acc = acc * 10 ^ N.of_nat j.
Proof.
  revert acc. induction j as [|j IH]; intros acc.
  - simpl. lia.
  - change (repeat 0 (S j)) with (0 :: repeat 0 j).
    simpl fold_left. rewrite IH, Nat2N.inj_succ, N.pow_succ_r'. unfold step. lia.
Qed.

Lemma is_digit_char d : d < 10 -> JSON.is_digit (digit_char d) = true.
Proof.
  intros Hd. unfold JSON.is_digit, digit_char.
  apply andb_true_intro. split; apply N.leb_le; lia.
Qed.

Lemma digit_char_value d : digit_char d - 48 = d.
Proof. unfold digit_char. lia. Qed.

Lemma read_digits_app ds rest acc count :
  Forall (fun d => d < 10) ds -> ends_digits rest ->
  JSON.read_digits acc count (map digit_char ds ++ rest)
  = (fold_left step ds acc, (count + length ds)%nat, rest).
Proof.
  intros Hds Hrest. revert acc count.
  induction Hds as [|d ds Hd _ IH]; intros acc count.
  - simpl. rewrite Nat.add_0_r.
    destruct rest as [|c rest]; [done|]. simpl in *. by rewrite Hrest.
  - simpl. rewrite is_digit_char by done. rewrite digit_char_value, IH.
    by rewrite Nat.add_succ_r.
Qed.

End Digits.

(** ** Rounding to a double *)

Section Rounding.
Local Open Scope Z_scope.

Lemma odd_part_pow2 p m c :
  Z.odd (Zpos m) = true -> 0 <= c -> Zpos p = Zpos m * 2 ^ c -> odd_part p = (m, c).
Proof.
  intros Hodd. revert c. induction p as [p IH|p IH|]; intros c Hc Hp.
  - destruct (decide (c = 0)) as [->|Hne].
    + rewrite Z.mul_1_r in Hp. by injection Hp as <-.
    + exfalso. replace c with (Z.succ (c - 1)) in Hp by lia.
      rewrite Z.pow_succ_r in Hp by lia. lia.
  - destruct (decide (c = 0)) as [->|Hne].
    + rewrite Z.mul_1_r in Hp. injection Hp as <-. done.
    + replace c with (Z.succ (c - 1)) in Hp by lia.
      rewrite Z.pow_succ_r in Hp by lia.
      simpl. rewrite (IH (c - 1)); [f_equal; lia | lia | lia].
  - destruct (decide (c = 0)) as [->|Hne].
    + rewrite Z.mul_1_r in Hp. by injection Hp as <-.
    + exfalso. replace c with (Z.succ (c - 1)) in Hp by lia.
      rewrite Z.pow_succ_r in Hp by lia. lia.
Qed.

Lemma make_exact negative m c u :
  Z.odd (Zpos m) = true -> 0 <= c -> u + c + Z.log2 (Zpos m) < 1024 ->
  make negative (Zpos m * 2 ^ c) u = Finite negative m (u + c).
Proof.
  intros Hodd Hc Hlt. unfold make.
  assert (Hpos : 0 < Zpos m * 2 ^ c) by (apply Z.mul_pos_pos; [lia | by apply Z.pow_pos_nonneg]).
  destruct (Zpos m * 2 ^ c) as [|p|p] eqn:E; try lia.
  rewrite (odd_part_pow2 p m c Hodd Hc (eq_sym E)).
  destruct (Z.leb_spec 1024 (u + c + Z.log2 (Zpos m))); [lia | done].
Qed.

Lemma scale_exact a b m e u :
  0 < b ->
  a * 2 ^ Z.max (- e) 0 = m * 2 ^ Z.max e 0 * b ->
  u <= e ->
  exists d, 0 < d /\ scale a b u = (m * 2 ^ (e - u) * d, d).
Proof.
  intros Hb Hab Hu. unfold scale.
  destruct (Z.leb_spec 0 u) as [Hu0|Hu0].
  - exists (b * 2 ^ u). split; [apply Z.mul_pos_pos; [done | by apply Z.pow_pos_nonneg]|].
    f_equal. rewrite Z.max_r, Z.max_l in Hab by lia.
    rewrite Z.pow_0_r, Z.mul_1_r in Hab. rewrite Hab.
    replace e with ((e - u) + u) at 1 by lia.
    rewrite Z.pow_add_r by lia. ring.
  - exists b. split; [done|]. f_equal.
    destruct (Z.le_gt_cases 0 e) as [He|He].
    + rewrite Z.max_r, Z.max_l in Hab by lia.
      rewrite Z.pow_0_r, Z.mul_1_r in Hab. rewrite Hab.
      replace (e - u) with (e + - u) by lia.
      rewrite Z.pow_add_r by lia. ring.
    + rewrite Z.max_l, Z.max_r in Hab by lia.
      rewrite Z.pow_0_r, Z.mul_1_r in Hab.
      replace (- u) with (- e + (e - u)) by lia.
      rewrite Z.pow_add_r by lia. rewrite Z.mul_assoc, Hab. ring.
Qed.

Lemma log2_ratio_bound a b m e :
  0 < b -> 0 < m ->
  a * 2 ^ Z.max (- e) 0 = m * 2 ^ Z.max e 0 * b ->
  Z.log2 a - Z.log2 b <= Z.log2 m + e + 1.
Proof.
  intros Hb Hm Hab.
  set (J := Z.max (- e) 0) in *. set (I := Z.max e 0) in *.
  assert (HJ : 0 <= J) by lia. assert (HI : 0 <= I) by lia.
  assert (HIJ : I - J = e) by lia.
  assert (Ha : 0 < a).
  { assert (0 < a * 2 ^ J).
    { rewrite Hab. apply Z.mul_pos_pos; [apply Z.mul_pos_pos|]; try done.
      by apply Z.pow_pos_nonneg. }
    assert (0 < 2 ^ J) by (by apply Z.pow_pos_nonneg). nia. }
  pose proof (Z.log2_spec a Ha) as [Hla _].
  pose proof (Z.log2_spec b Hb) as [_ Hlb].
  pose proof (Z.log2_spec m Hm) as [_ Hlm].
  pose proof (Z.log2_nonneg a). pose proof (Z.log2_nonneg b). pose proof (Z.log2_nonneg m).
  assert (Hlt : 2 ^ (Z.log2 a + J) < 2 ^ (Z.log2 m + I + Z.log2 b + 2)).
  { rewrite Z.pow_add_r by lia.
    apply Z.le_lt_trans with (a * 2 ^ J).
    { apply Z.mul_le_mono_nonneg_r; [apply Z.pow_nonneg; lia | done]. }
    rewrite Hab.
    replace (Z.log2 m + I + Z.log2 b + 2)
      with (Z.succ (Z.log2 m) + I + Z.succ (Z.log2 b)) by lia.
    rewrite !Z.pow_add_r by lia.
    assert (0 < 2 ^ I) by (by apply Z.pow_pos_nonneg).
    apply Z.mul_lt_mono_nonneg; [|  | lia | done].
    - apply Z.mul_nonneg_nonneg; lia.
    - apply Z.mul_lt_mono_pos_r; done. }
  apply Z.pow_lt_mono_r_iff in Hlt; lia.
Qed.

(** A rational that is a double is its own Number value. *)
Lemma round_ratio_exact negative m e a b :
  is_double (Finite negative m e) = true ->
  0 < b ->
  a * 2 ^ Z.max (- e) 0 = Zpos m * 2 ^ Z.max e 0 * b ->
  round_ratio negative a b = Finite negative m e.
Proof.
  intros Hdouble Hb Hab. unfold is_double in Hdouble.
  apply andb_prop in Hdouble as [Hdouble Htop%Z.ltb_lt].
  apply andb_prop in Hdouble as [Hdouble Hlow%Z.leb_le].
  apply andb_prop in Hdouble as [Hodd Hbits%Z.ltb_lt].
  pose proof (log2_ratio_bound a b (Zpos m) e Hb ltac:(done) Hab) as Hlog.
  unfold round_ratio.
  set (u0 := Z.max (Z.log2 a - Z.log2 b - 53) (-1074)).
  assert (Hu0 : u0 <= e) by (unfold u0; lia).
  destruct (scale_exact a b (Zpos m) e u0 Hb Hab Hu0) as (d0 & Hd0 & ->).
  rewrite Z.div_mul by lia.
  set (u := if 2 ^ 53 <=? Zpos m * 2 ^ (e - u0) then u0 + 1 else u0).
  assert (Hu : u <= e).
  { unfold u. destruct (Z.leb_spec (2 ^ 53) (Zpos m * 2 ^ (e - u0))) as [Hbig|_]; [|done].
    destruct (decide (u0 = e)) as [->|]; [|lia].
    rewrite Z.sub_diag, Z.mul_1_r in Hbig.
    pose proof (Z.log2_spec (Zpos m) ltac:(done)) as [_ Hm].
    assert (2 ^ Z.succ (Z.log2 (Zpos m)) <= 2 ^ 53)
      by (apply Z.pow_le_mono_r; lia).
    lia. }
  destruct (scale_exact a b (Zpos m) e u Hb Hab Hu) as (d & Hd & ->).
  rewrite Z.div_mul, Z.mod_mul by lia.
  destruct (Z.ltb_spec (2 * 0) d); [|lia].
  rewrite make_exact; [f_equal; lia | done | lia | lia].
Qed.

Lemma make_sign negative b n u : make negative n u = with_sign negative (make b n u).
Proof.
  unfold make. destruct n as [|p|p]; try done.
  destruct (odd_part p) as [m c]. by destruct (_ <=? _).
Qed.

Lemma round_ratio_sign negative b x y :
  round_ratio negative x y = with_sign negative (round_ratio b x y).
Proof.
  unfold round_ratio.
  destruct (scale x y _) as [n0 d0]. destruct (scale x y _) as [n d].
  apply make_sign.
Qed.

Lemma of_decimal_sign negative b M P :
  of_decimal negative M P = with_sign negative (of_decimal b M P).
Proof.
  unfold of_decimal.
  repeat match goal with |- context [if ?c then _ else _] => destruct c end;
    try done; apply round_ratio_sign.
Qed.

Lemma of_decimal_finite negative b b' M P m e :
  of_decimal b M P = Finite b' m e -> of_decimal negative M P = Finite negative m e.
Proof. intros H. by rewrite (of_decimal_sign negative b), H. Qed.

(** Zeros appended to the digits are a power of ten in the exponent. *)
Lemma of_decimal_shift negative s j :
  (0 < s)%N -> 0 <= j <= 400 ->
  of_decimal negative (s * 10 ^ Z.to_N j) 0 = of_decimal negative s j.
Proof.
  intros Hs Hj. unfold of_decimal.
  assert (Hpow : (0 < 10 ^ Z.to_N j)%N) by (apply N.neq_0_lt_0, N.pow_nonzero; lia).
  destruct (N.eqb_spec (s * 10 ^ Z.to_N j) 0) as [H0|_]; [lia|].
  destruct (N.eqb_spec s 0) as [H0|_]; [lia|].
  destruct (Z.ltb_spec 400 0); [lia|].
  destruct (Z.ltb_spec 400 j); [lia|].
  pose proof (Z.log2_nonneg (Z.of_N (s * 10 ^ Z.to_N j))).
  pose proof (Z.log2_nonneg (Z.of_N s)).
  destruct (Z.ltb_spec (0 + Z.log2 (Z.of_N (s * 10 ^ Z.to_N j)) + 1) (-400)); [lia|].
  destruct (Z.ltb_spec (j + Z.log2 (Z.of_N s) + 1) (-400)); [lia|].
  destruct (Z.leb_spec 0 0); [|lia].
  destruct (Z.leb_spec 0 j); [|lia].
  f_equal. rewrite N2Z.inj_mul, N2Z.inj_pow, Z2N.id by lia.
  change (Z.of_N 10) with 10. lia.
Qed.

End Rounding.

(** ** Number::toString gives digits that denote the number *)

Section Shortest.
Local Open Scope Z_scope.

Lemma denotes_sound m e s n k :
  denotes m e s n k = true ->
  (0 < Z.to_N s)%N /\
  forall negative,
    of_decimal negative (Z.to_N s) (n - Z.of_nat (length (digits (Z.to_N s))))
    = Finite negative m e.
Proof.
  unfold denotes. intros [[_ Hk%Z.eqb_eq]%andb_prop H]%andb_prop.
  rewrite Hk.
  destruct (of_decimal false (Z.to_N s) (n - k)) as [| | |b m' e'] eqn:E; try done.
  apply andb_prop in H as [->%Pos.eqb_eq ->%Z.eqb_eq].
  split.
  - destruct (Z.to_N s) eqn:Es; [|lia]. discriminate E.
  - intros negative. by apply (of_decimal_finite negative false b).
Qed.

Lemma attempt_sound m e n k s0 s n' :
  attempt m e n k s0 = Some (s, n') ->
  (0 < s)%N /\
  forall negative,
    of_decimal negative s (n' - Z.of_nat (length (digits s))) = Finite negative m e.
Proof.
  unfold attempt.
  destruct (if s0 =? 10 ^ k then _ else _) as [s1 n1].
  destruct (denotes m e s1 n1 k) eqn:E; [|done].
  intros [= <- <-]. by apply (denotes_sound m e s1 n1 k).
Qed.

Lemma candidate_sound m e a b n k s n' :
  candidate m e a b n k = Some (s, n') ->
  (0 < s)%N /\
  forall negative,
    of_decimal negative s (n' - Z.of_nat (length (digits s))) = Finite negative m e.
Proof.
  unfold candidate.
  destruct (if 0 <=? k - n then _ else _) as [num den].
  destruct (attempt m e n k _) as [[s1 n1]|] eqn:E1.
  - intros [= <- <-]. by apply attempt_sound in E1.
  - destruct (_ =? 0); [done|]. apply attempt_sound.
Qed.

Lemma search_sound m e a b n tries k s n' :
  search m e a b n k tries = Some (s, n') ->
  (0 < s)%N /\
  forall negative,
    of_decimal negative s (n' - Z.of_nat (length (digits s))) = Finite negative m e.
Proof.
  revert k. induction tries as [|tries IH]; intros k; simpl; [done|].
  destruct (candidate m e a b n k) as [[s1 n1]|] eqn:E.
  - intros [= <- <-]. by apply candidate_sound in E.
  - apply IH.
Qed.

Lemma pow4_le_pow5 j : 0 <= j -> 2 ^ (2 * j) <= 5 ^ j.
Proof.
  intros Hj. rewrite Z.pow_mul_r by lia. change (2 ^ 2) with 4.
  apply Z.pow_le_mono_l. lia.
Qed.

Lemma exact_sound b m e s n :
  is_double (Finite b m e) = true ->
  exact m e = (s, n) ->
  (0 < s)%N /\
  forall negative,
    of_decimal negative s (n - Z.of_nat (length (digits s))) = Finite negative m e.
Proof.
  intros Hdouble. unfold exact.
  destruct (Z.leb_spec 0 e) as [He|He]; intros [= <- <-].
  - assert (Hpos : 0 < Zpos m * 2 ^ e)
      by (apply Z.mul_pos_pos; [lia | by apply Z.pow_pos_nonneg]).
    split; [lia|]. intros negative.
    replace (_ + 0 - _) with 0 by lia.
    unfold of_decimal.
    destruct (N.eqb_spec (Z.to_N (Zpos m * 2 ^ e)) 0); [lia|].
    rewrite Z2N.id by lia.
    pose proof (Z.log2_nonneg (Zpos m * 2 ^ e)).
    destruct (Z.ltb_spec 400 0); [lia|].
    destruct (Z.ltb_spec (0 + Z.log2 (Zpos m * 2 ^ e) + 1) (-400)); [lia|].
    simpl (0 <=? 0).
    apply round_ratio_exact; [by destruct b | done|].
    rewrite Z.max_r, Z.max_l by lia. simpl. lia.
  - assert (H5 : 0 < 5 ^ (- e)) by (apply Z.pow_pos_nonneg; lia).
    assert (Hpos : 0 < Zpos m * 5 ^ (- e)) by (apply Z.mul_pos_pos; lia).
    split; [lia|]. intros negative.
    replace (_ + e - _) with e by lia.
    unfold of_decimal.
    destruct (N.eqb_spec (Z.to_N (Zpos m * 5 ^ (- e))) 0); [lia|].
    rewrite Z2N.id by lia.
    destruct (Z.ltb_spec 400 e); [lia|].
    assert (Hlog : 2 * - e <= Z.log2 (Zpos m * 5 ^ (- e))).
    { apply Z.log2_le_pow2; [done|].
      pose proof (pow4_le_pow5 (- e) ltac:(lia)). nia. }
    destruct (Z.ltb_spec (e + Z.log2 (Zpos m * 5 ^ (- e)) + 1) (-400)); [lia|].
    destruct (Z.leb_spec 0 e); [lia|].
    apply round_ratio_exact; [by destruct b | by apply Z.pow_pos_nonneg; lia|].
    rewrite Z.max_l, Z.max_r by lia.
    change 10 with (5 * 2). rewrite Z.pow_mul_l. simpl (2 ^ 0). ring.
Qed.

(** The digits Number::toString prints denote the number. *)
Lemma shortest_sound b m e s n :
  is_double (Finite b m e) = true ->
  shortest m e = (s, n) ->
  (0 < s)%N /\
  forall negative,
    of_decimal negative s (n - Z.of_nat (length (digits s))) = Finite negative m e.
Proof.
  intros Hdouble. unfold shortest.
  destruct (search m e _ _ _ 1 17) as [[s1 n1]|] eqn:E.
  - intros [= <- <-]. by apply search_sound in E.
  - by apply (exact_sound b).
Qed.

End Shortest.

(** ** The text of a number is read back *)

Section NumberText.
Import JSON.

Lemma closes_ends_digits rest : closes rest -> ends_digits rest.
Proof. destruct rest as [|c rest]; [done|]. by intros [-> | [-> | ->]]. Qed.

Lemma closes_skip_ws rest : closes rest -> skip_ws rest = rest.
Proof. destruct rest as [|c rest]; [done|]. by intros [-> | [-> | ->]]. Qed.

Lemma read_fraction_closes int rest :
  closes rest -> read_fraction int rest = Ok (int, O, rest).
Proof. destruct rest as [|c rest]; [done|]. by intros [-> | [-> | ->]]. Qed.

Lemma read_exponent_closes rest : closes rest -> read_exponent rest = Ok (0%Z, rest).
Proof. destruct rest as [|c rest]; [done|]. by intros [-> | [-> | ->]]. Qed.

Lemma digits_length_pos n : (0 < length (digits n))%nat.
Proof. destruct (digits_head n) as (d & ds & -> & _). simpl. lia. Qed.

Lemma read_exponent_text x rest :
  closes rest ->
  read_exponent (exponent_text x ++ rest)
  = Ok (match x with Some x => x | None => 0%Z end, rest).
Proof.
  intros Hrest. destruct x as [x|]; [|by apply read_exponent_closes].
  unfold exponent_text, decimal.
  pose proof (read_digits_app (digits (Z.to_N (Z.abs x))) rest 0%N 0%nat
                (digits_small _) (closes_ends_digits rest Hrest)) as Hread.
  rewrite digits_value in Hread.
  pose proof (digits_length_pos (Z.to_N (Z.abs x))) as Hlen.
  destruct (Z.leb_spec 0 x) as [Hx|Hx]; simpl; rewrite Hread;
    (destruct (length (digits (Z.to_N (Z.abs x)))); [lia|]); simpl;
    do 2 do 4 f_equal; lia.
Qed.

Lemma exponent_text_ends x rest : closes rest -> ends_digits (exponent_text x ++ rest).
Proof. destruct x; [done|]. apply closes_ends_digits. Qed.

Lemma read_fraction_text int b x rest :
  Forall (fun d => (d < 10)%N) b -> closes rest ->
  read_fraction int (fraction_text b ++ exponent_text x ++ rest)
  = Ok (fold_left step b int, length b, exponent_text x ++ rest).
Proof.
  intros Hb Hrest. destruct b as [|d b].
  - simpl. destruct x as [x|]; [done|]. by apply read_fraction_closes.
  - change (fraction_text (d :: b)) with (46%N :: map digit_char (d :: b)).
    rewrite <- app_comm_cons.
    change (read_fraction int (46%N :: ?t))
      with (let '(M, nf, r') := read_digits int 0 t in
            if (nf =? 0)%nat then Err SyntaxError else Ok (M, nf, r')).
    rewrite read_digits_app by (done || by apply exponent_text_ends).
    done.
Qed.

(** Integer digits, a fraction and an exponent are read as the decimal
    they write. *)
Lemma read_number_text negative a b x rest :
  integer_digits a ->
  Forall (fun d => (d < 10)%N) a -> Forall (fun d => (d < 10)%N) b ->
  closes rest ->
  read_number negative (map digit_char a ++ fraction_text b ++ exponent_text x ++ rest)
  = Ok (VNum (of_decimal negative (fold_left step (a ++ b) 0%N)
                (match x with Some x => x | None => 0 end - Z.of_nat (length b))%Z),
        rest).
Proof.
  intros (d & a' & -> & Hlead) Ha Hb Hrest. unfold read_number.
  rewrite read_digits_app; [|done|]; cycle 1.
  { destruct b as [|? b]; [by apply exponent_text_ends | done]. }
  assert (Hzero : starts_with_zero
                    (map digit_char (d :: a') ++ fraction_text b ++ exponent_text x ++ rest)
                  && (1 <? 0 + length (d :: a'))%nat = false).
  { destruct Hlead as [Hd | ->]; [|by rewrite andb_false_r].
    apply andb_false_intro1. simpl. unfold digit_char. apply N.eqb_neq. lia. }
  rewrite Hzero. simpl Nat.eqb. cbv iota.
  rewrite read_fraction_text by done. simpl.
  rewrite read_exponent_text by done. simpl.
  by rewrite fold_left_app.
Qed.

Lemma Forall_small_zeros j : Forall (fun d => (d < 10)%N) (repeat 0%N j).
Proof. induction j; simpl; constructor; [lia | done]. Qed.

Lemma format_cases s n :
  let ds := digits s in
  let k := Z.of_nat (length ds) in
  ((k <= n <= 21)%Z /\
   format s n = map digit_char (ds ++ repeat 0%N (Z.to_nat (n - k))))
  \/ ((0 < n < k)%Z /\ (n <= 21)%Z /\
      format s n = map digit_char (take (Z.to_nat n) ds)
                   ++ fraction_text (drop (Z.to_nat n) ds) ++ exponent_text None)
  \/ ((-6 < n <= 0)%Z /\
      format s n = map digit_char [0%N]
                   ++ fraction_text (repeat 0%N (Z.to_nat (- n)) ++ ds) ++ exponent_text None)
  \/ ((n <= -6 \/ 21 < n)%Z /\
      format s n = map digit_char (take 1 ds)
                   ++ fraction_text (drop 1 ds) ++ exponent_text (Some (n - 1)%Z)).
Proof.
  intros ds k. unfold format. fold ds. fold k.
  destruct (digits_head s) as (d & ds' & Hds & _). fold ds in Hds.
  assert (Hk : k = Z.of_nat (S (length ds'))) by (unfold k; by rewrite Hds).
  destruct (Z.leb_spec k n), (Z.leb_spec n 21), (Z.ltb_spec 0 n),
    (Z.ltb_spec (-6) n), (Z.leb_spec n 0); cbv [andb]; try lia;
    try (left; split; [lia | done]);
    try (right; right; right; split; [lia|]; unfold fraction_text;
         by destruct (drop 1 ds)).
  - right; left. split; [lia|]. split; [done|].
    rewrite app_nil_r. unfold fraction_text.
    destruct (drop (Z.to_nat n) ds) eqn:E; [|done].
    apply (f_equal length) in E. rewrite length_drop in E. simpl in E. lia.
  - right; right; left. split; [lia|].
    rewrite app_nil_r. unfold fraction_text.
    destruct (repeat 0%N (Z.to_nat (- n)) ++ ds) eqn:E; [|done].
    apply (f_equal length) in E. rewrite length_app, Hds in E. simpl in E. lia.
Qed.

(** The text Number::toString lays out for the digits [s] and the
    exponent [n] is read back as [s * 10^(n-k)]. *)
Lemma read_number_format negative s n rest :
  (0 < s)%N -> closes rest ->
  read_number negative (format s n ++ rest)
  = Ok (VNum (of_decimal negative s (n - Z.of_nat (length (digits s)))), rest).
Proof.
  intros Hs Hrest.
  pose proof (digits_small s) as Hsmall.
  pose proof (digits_value s) as Hvalue.
  destruct (digits_head s) as (d & ds & Hds & Hd). specialize (Hd Hs).
  assert (Hk : length (digits s) = S (length ds)) by by rewrite Hds.
  destruct (format_cases s n) as [[Hn ->] | [(Hn & Hn' & ->) | [[Hn ->] | [Hn ->]]]];
    rewrite <- ?app_assoc.
  - (* an integer, zeros appended *)
    pose proof (read_number_text negative
                  (digits s ++ repeat 0%N (Z.to_nat (n - Z.of_nat (length (digits s)))))
                  [] None rest) as Hread.
    simpl fraction_text in Hread. simpl exponent_text in Hread. simpl app in Hread.
    rewrite Hread; [|by eexists d, _; rewrite Hds; auto
                      |by apply Forall_app; auto using Forall_small_zeros|done|done].
    rewrite app_nil_r, fold_left_app, Hvalue, fold_step_zeros.
    rewrite <- (of_decimal_shift negative s (n - Z.of_nat (length (digits s)))) by lia.
    by rewrite Z_nat_N.
  - (* a decimal point inside the digits *)
    rewrite read_number_text; [|  |by apply Forall_take|by apply Forall_drop|done].
    + rewrite take_drop, Hvalue, length_drop. simpl. do 4 f_equal; lia.
    + rewrite Hds. destruct (Z.to_nat n) as [|n'] eqn:En; [lia|].
      simpl. eexists _, _. eauto.
  - (* zeros after the point *)
    rewrite read_number_text;
      [|by eexists _, _; eauto|by repeat constructor
       |by apply Forall_app; auto using Forall_small_zeros|done].
    change ([0%N] ++ ?l) with (0%N :: l). simpl fold_left.
    rewrite fold_left_app, fold_step_zeros.
    change (step 0 0 * ?x)%N with 0%N. rewrite Hvalue.
    rewrite length_app, repeat_length. simpl. do 4 f_equal; lia.
  - (* the exponent form *)
    rewrite read_number_text; [|  |by apply Forall_take|by apply Forall_drop|done].
    + rewrite take_drop, Hvalue, length_drop. do 4 f_equal; lia.
    + rewrite Hds. simpl. eexists _, _. eauto.
Qed.

End NumberText.

(** ** The text of a string is read back *)

Section StringText.
Import JSON.
Local Open Scope N_scope.

Lemma hex_value_digit d : d < 16 -> hex_value (hex_digit d) = Some d.
Proof.
  intros Hd. unfold hex_value, hex_digit.
  destruct (N.ltb_spec d 10).
  - replace ((48 <=? 48 + d) && (48 + d <=? 57)) with true; [f_equal; lia|].
    symmetry. apply andb_true_intro. split; apply N.leb_le; lia.
  - replace ((48 <=? 87 + d) && (87 + d <=? 57)) with false; cycle 1.
    { symmetry. apply andb_false_intro2. apply N.leb_gt. lia. }
    replace ((97 <=? 87 + d) && (87 + d <=? 102)) with true; [f_equal; lia|].
    symmetry. apply andb_true_intro. split; apply N.leb_le; lia.
Qed.

Lemma hex4_escape c :
  c < 65536 ->
  hex4 (hex_digit (c / 4096)) (hex_digit (c / 256 mod 16))
       (hex_digit (c / 16 mod 16)) (hex_digit (c mod 16)) = Some c.
Proof.
  intros Hc. unfold hex4.
  rewrite !hex_value_digit;
    [| apply N.mod_lt; lia | apply N.mod_lt; lia | apply N.mod_lt; lia
     | apply N.Div0.div_lt_upper_bound; lia].
  f_equal. zify. Z.to_euclidean_division_equations. lia.
Qed.

Lemma parse_string_body_escape c tail :
  c < 65536 ->
  parse_string_body (unicode_escape c ++ tail) = prepend c (parse_string_body tail).
Proof.
  intros Hc. unfold unicode_escape.
  change (parse_string_body ([92; 117; ?h1; ?h2; ?h3; ?h4] ++ tail))
    with (match hex4 h1 h2 h3 h4 with
          | Some n => prepend n (parse_string_body tail)
          | None => Err SyntaxError
          end).
  by rewrite hex4_escape.
Qed.

Lemma parse_string_body_literal c tail :
  (c =? 34) = false -> (c =? 92) = false -> (c <? 32) = false ->
  parse_string_body (c :: tail) = prepend c (parse_string_body tail).
Proof. intros H1 H2 H3. simpl. by rewrite H1, H2, H3. Qed.

Lemma parse_string_body_quote_unit c tail :
  parse_string_body (quote_unit c ++ tail) = prepend c (parse_string_body tail).
Proof.
  unfold quote_unit.
  destruct (N.eqb_spec c 8) as [->|?]; [done|].
  destruct (N.eqb_spec c 9) as [->|?]; [done|].
  destruct (N.eqb_spec c 10) as [->|?]; [done|].
  destruct (N.eqb_spec c 12) as [->|?]; [done|].
  destruct (N.eqb_spec c 13) as [->|?]; [done|].
  destruct (N.eqb_spec c 34) as [->|?]; [done|].
  destruct (N.eqb_spec c 92) as [->|?]; [done|].
  destruct ((c <? 32) || is_lead c || is_trail c) eqn:E.
  - apply parse_string_body_escape.
    unfold is_lead, is_trail in E.
    destruct (N.ltb_spec c 32); [lia|].
    destruct (N.leb_spec c 56319); [lia|].
    destruct (N.leb_spec c 57343); [lia|].
    rewrite !andb_false_r in E. discriminate E.
  - apply orb_false_elim in E as [[E _]%orb_false_elim _].
    apply parse_string_body_literal; [by apply N.eqb_neq.. | done].
Qed.

Lemma parse_string_body_pair c d tail :
  is_lead c = true -> is_trail d = true ->
  parse_string_body (c :: d :: tail) = prepend c (prepend d (parse_string_body tail)).
Proof.
  unfold is_lead, is_trail.
  intros [Hc _]%andb_prop [Hd _]%andb_prop.
  apply N.leb_le in Hc, Hd.
  rewrite !parse_string_body_literal;
    [done | apply N.eqb_neq; lia | apply N.eqb_neq; lia | apply N.ltb_ge; lia
     | apply N.eqb_neq; lia | apply N.eqb_neq; lia | apply N.ltb_ge; lia].
Qed.

Lemma parse_string_body_quote_bounded n s rest :
  (length s <= n)%nat ->
  parse_string_body (quote_units s ++ 34 :: rest) = Ok (s, rest).
Proof.
  revert s. induction n as [|n IH]; intros [|c [|d s]] Hn; simpl in Hn; try lia;
    try reflexivity.
  - change (quote_units [c]) with (quote_unit c).
    by rewrite parse_string_body_quote_unit.
  - change (quote_units (c :: d :: s))
      with (if is_lead c && is_trail d then c :: d :: quote_units s
            else quote_unit c ++ quote_units (d :: s)).
    destruct (is_lead c && is_trail d) eqn:E.
    + apply andb_prop in E as [Hc Hd].
      rewrite <- !app_comm_cons, parse_string_body_pair by done.
      rewrite IH by (simpl; lia). done.
    + rewrite <- app_assoc, parse_string_body_quote_unit.
      rewrite IH by (simpl; lia). done.
Qed.

Lemma parse_string_body_quote s rest :
  parse_string_body (quote_units s ++ 34 :: rest) = Ok (s, rest).
Proof. by apply (parse_string_body_quote_bounded (length s)). Qed.

Lemma quote_unfold s rest : quote s ++ rest = 34 :: quote_units s ++ 34 :: rest.
Proof. unfold quote. simpl. by rewrite <- app_assoc. Qed.

End StringText.

(** ** Property lists *)

Section PropertyLists.

Lemma has_prop_elem name props : has_prop name props = true <-> name ∈ map fst props.
Proof.
  induction props as [|[k v] props IH]; simpl.
  - split; [discriminate | by intros ?%elem_of_nil].
  - rewrite orb_true_iff, IH, elem_of_cons. simpl.
    destruct (same_string_spec k name) as [->|Hne]; [tauto|].
    split; [intros [?|?]; [done | by right] | intros [?|?]; [congruence | by right]].
Qed.

Lemma distinct_names_NoDup props :
  distinct_names props = true -> NoDup (map fst props).
Proof.
  induction props as [|[k v] props IH]; simpl; [constructor|].
  intros [Hk Hrest]%andb_prop. constructor; [|by apply IH].
  intros Hin%has_prop_elem. by rewrite Hin in Hk.
Qed.

Lemma has_prop_app name l1 l2 :
  has_prop name (l1 ++ l2) = has_prop name l1 || has_prop name l2.
Proof.
  induction l1 as [|[k v] l1 IH]; simpl; [done|]. by rewrite IH, orb_assoc.
Qed.

Lemma lookup_prop_missing name props :
  has_prop name props = false -> lookup_prop name props = VUndefined.
Proof.
  induction props as [|[k v] props IH]; simpl; [done|].
  intros [Hk Hrest]%orb_false_elim. rewrite Hk. auto.
Qed.

Lemma lookup_prop_app name l1 l2 :
  lookup_prop name (l1 ++ l2)
  = if has_prop name l1 then lookup_prop name l1 else lookup_prop name l2.
Proof.
  induction l1 as [|[k v] l1 IH]; simpl; [done|].
  destruct (same_string k name); simpl; [done | exact IH].
Qed.

Lemma has_replace_prop name other v props :
  has_prop other (replace_prop name v props) = has_prop other props.
Proof.
  induction props as [|[k old] props IH]; simpl; [done|].
  destruct (same_string k name); simpl; [done|]. by rewrite IH.
Qed.

Lemma lookup_replace_prop name v props :
  has_prop name props = true -> lookup_prop name (replace_prop name v props) = v.
Proof.
  induction props as [|[k old] props IH]; simpl; [done|].
  destruct (same_string k name) eqn:E; simpl; rewrite E; [done|]. exact IH.
Qed.

Lemma lookup_replace_prop_other name other v props :
  other <> name ->
  lookup_prop other (replace_prop name v props) = lookup_prop other props.
Proof.
  intros Hne. induction props as [|[k old] props IH]; simpl; [done|].
  destruct (same_string_spec k name) as [->|_]; simpl.
  - by rewrite same_string_neq by done.
  - by rewrite IH.
Qed.

Lemma has_insert_index i name other v props :
  has_prop other (insert_index i name v props)
  = same_string name other || has_prop other props.
Proof.
  induction props as [|[k x] props IH]; simpl; [done|].
  destruct (array_index k) as [j|]; [|done].
  destruct (j <? i)%N; simpl; [|done].
  rewrite IH. by destruct (same_string k other), (same_string name other).
Qed.

Lemma lookup_insert_index i name other v props :
  has_prop name props = false ->
  lookup_prop other (insert_index i name v props)
  = if same_string name other then v else lookup_prop other props.
Proof.
  induction props as [|[k x] props IH]; simpl; [done|].
  intros [Hk Hrest]%orb_false_elim.
  destruct (array_index k) as [j|]; [|done].
  destruct (j <? i)%N; simpl; [|done].
  rewrite IH by done.
  destruct (same_string_spec k other) as [->|_]; [|done].
  rewrite (same_string_neq name other); [done|].
  intros ->. by rewrite same_string_refl in Hk.
Qed.

Lemma has_set_prop name v props : has_prop name (set_prop name v props) = true.
Proof.
  unfold set_prop. destruct (has_prop name props) eqn:E.
  - by rewrite has_replace_prop.
  - destruct (array_index name).
    + by rewrite has_insert_index, same_string_refl.
    + rewrite has_prop_app. simpl. by rewrite same_string_refl, orb_true_r.
Qed.

Lemma lookup_set_prop name v props : lookup_prop name (set_prop name v props) = v.
Proof.
  unfold set_prop. destruct (has_prop name props) eqn:E.
  - by apply lookup_replace_prop.
  - destruct (array_index name).
    + by rewrite lookup_insert_index, same_string_refl.
    + rewrite lookup_prop_app, E. simpl. by rewrite same_string_refl.
Qed.

Lemma lookup_set_prop_other name other v props :
  other <> name -> lookup_prop other (set_prop name v props) = lookup_prop other props.
Proof.
  intros Hne. unfold set_prop. destruct (has_prop name props) eqn:E.
  - by apply lookup_replace_prop_other.
  - destruct (array_index name).
    + rewrite lookup_insert_index by done. by rewrite same_string_neq.
    + rewrite lookup_prop_app. destruct (has_prop other props) eqn:E'; [done|].
      simpl. rewrite same_string_neq by done. by rewrite lookup_prop_missing.
Qed.

(** A name that is not an array index goes last. *)
Lemma set_prop_missing name v props :
  has_prop name props = false -> array_index name = None ->
  set_prop name v props = props ++ [(name, v)].
Proof. intros Hmiss Hname. unfold set_prop. by rewrite Hmiss, Hname. Qed.

Lemma set_prop_present name v props :
  has_prop name props = true -> set_prop name v props = replace_prop name v props.
Proof. intros Hhas. unfold set_prop. by rewrite Hhas. Qed.

Lemma replace_prop_twice name v x props :
  replace_prop name v (replace_prop name x props) = replace_prop name v props.
Proof.
  induction props as [|[k old] props IH]; simpl; [done|].
  destruct (same_string k name) eqn:E; simpl; rewrite E; [done|]. by rewrite IH.
Qed.

Lemma replace_insert_index i name v x props :
  has_prop name props = false ->
  replace_prop name v (insert_index i name x props) = insert_index i name v props.
Proof.
  induction props as [|[k y] props IH]; simpl.
  - intros _. by rewrite same_string_refl.
  - intros [Hk Hrest]%orb_false_elim.
    destruct (array_index k) as [j|]; [destruct (j <? i)%N|]; simpl;
      rewrite ?same_string_refl, ?Hk, ?IH; done.
Qed.

Lemma replace_prop_last name v x props :
  has_prop name props = false ->
  replace_prop name v (props ++ [(name, x)]) = props ++ [(name, v)].
Proof.
  induction props as [|[k y] props IH]; simpl.
  - intros _. by rewrite same_string_refl.
  - intros [Hk Hrest]%orb_false_elim. by rewrite Hk, IH.
Qed.

(** The value a property had before it is set again plays no part. *)
Lemma set_prop_twice name v x props :
  set_prop name v (set_prop name x props) = set_prop name v props.
Proof.
  rewrite (set_prop_present name v (set_prop name x props)) by apply has_set_prop.
  unfold set_prop. destruct (has_prop name props) eqn:E.
  - apply replace_prop_twice.
  - destruct (array_index name).
    + by apply replace_insert_index.
    + by apply replace_prop_last.
Qed.

Lemma insert_index_last i name v props :
  Forall (fun p => exists j, array_index (fst p) = Some j /\ (j < i)%N) props ->
  insert_index i name v props = props ++ [(name, v)].
Proof.
  induction 1 as [|[k x] props (j & Hk & Hj) _ IH]; simpl in *; [done|].
  rewrite Hk. destruct (N.ltb_spec j i); [|lia]. by rewrite IH.
Qed.

Lemma fold_set_prop_names ms acc :
  Forall (fun m => array_index (fst m) = None) ms ->
  NoDup (map fst ms) ->
  Forall (fun m => has_prop (fst m) acc = false) ms ->
  fold_left (fun o m => set_prop (fst m) (snd m) o) ms acc = acc ++ ms.
Proof.
  revert acc. induction ms as [|[k v] ms IH]; intros acc Hnames Hnd Hacc.
  - by rewrite app_nil_r.
  - apply Forall_cons in Hnames as [Hk Hnames].
    apply NoDup_cons in Hnd as [Hfresh Hnd].
    apply Forall_cons in Hacc as [Hkacc Hacc]. simpl in *.
    rewrite set_prop_missing by done.
    rewrite IH; [by rewrite <- app_assoc | done | done|].
    rewrite Forall_forall in Hacc |- *. intros [k' v'] Hin.
    rewrite has_prop_app, (Hacc _ Hin). simpl.
    rewrite orb_false_r. apply same_string_neq. intros ->.
    apply Hfresh. apply list_elem_of_fmap. by exists (k', v').
Qed.

(** A property list in own-property order is the object its members
    build one by one. *)
Lemma fold_set_prop_ordered ms acc above :
  own_order above (map fst ms) = true ->
  Forall (fun p => exists j, array_index (fst p) = Some j /\ (Z.of_N j <= above)%Z) acc ->
  fold_left (fun o m => set_prop (fst m) (snd m) o) ms acc = acc ++ ms.
Proof.
  revert acc above. induction ms as [|[k v] ms IH]; intros acc above Hord Hacc.
  - by rewrite app_nil_r.
  - simpl in Hord. destruct (array_index k) as [i|] eqn:Hk.
    + apply andb_prop in Hord as [Hi%Z.ltb_lt Hord]. simpl.
      assert (Hmiss : has_prop k acc = false).
      { destruct (has_prop k acc) eqn:E; [|done].
        apply has_prop_elem, list_elem_of_fmap in E as ([k' x] & -> & Hin).
        rewrite Forall_forall in Hacc. destruct (Hacc _ Hin) as (j & Hj & Hle).
        rewrite Hk in Hj. injection Hj as ->. lia. }
      unfold set_prop at 2. rewrite Hmiss, Hk.
      rewrite insert_index_last; cycle 1.
      { eapply Forall_impl; [exact Hacc|]. intros p (j & Hj & Hle). exists j. split; [done|lia]. }
      rewrite (IH _ (Z.of_N i)); [by rewrite <- app_assoc | done|].
      apply Forall_app. split.
      * eapply Forall_impl; [exact Hacc|]. intros p (j & Hj & Hle). exists j. split; [done|lia].
      * repeat constructor. exists i. split; [done | lia].
    + apply andb_prop in Hord as [Hrest Hnd%bool_decide_eq_true].
      apply fold_set_prop_names; [|done|].
      * constructor; [done|]. rewrite forallb_forall in Hrest.
        apply Forall_forall. intros [k' v'] Hin.
        specialize (Hrest k'). simpl.
        destruct (array_index k'); [|done].
        discriminate Hrest. apply list_elem_of_In, list_elem_of_fmap. by exists (k', v').
      * assert (Hnone : forall name, array_index name = None -> has_prop name acc = false).
        { intros name Hname. destruct (has_prop name acc) eqn:E; [|done].
          apply has_prop_elem, list_elem_of_fmap in E as ([k' x] & -> & Hin).
          rewrite Forall_forall in Hacc. destruct (Hacc _ Hin) as (j & Hj & _).
          simpl in *. congruence. }
        constructor; [by apply Hnone|]. rewrite forallb_forall in Hrest.
        apply Forall_forall. intros [k' v'] Hin. apply Hnone.
        specialize (Hrest k'). simpl.
        destruct (array_index k'); [|done].
        discriminate Hrest. apply list_elem_of_In, list_elem_of_fmap. by exists (k', v').
Qed.

Lemma object_of_ordered props :
  own_order (-1) (map fst props) = true -> JSON.object_of props = VObj props.
Proof.
  intros Hord. unfold JSON.object_of.
  by rewrite (fold_set_prop_ordered props [] (-1) Hord).
Qed.

End PropertyLists.

(** ** Induction on values *)

Lemma value_ind_nested (P : value -> Prop) :
  P VUndefined -> P VNull -> (forall b, P (VBool b)) -> (forall n, P (VNum n)) ->
  (forall z, P (VBigInt z)) -> (forall s, P (VStr s)) ->
  (forall elems, Forall P elems -> P (VArr elems)) ->
  (forall props, Forall (fun p => P (snd p)) props -> P (VObj props)) ->
  forall v, P v.
Proof.
  intros Hu Hn Hb Hnum Hbig Hs Harr Hobj.
  fix IH 1.
  intros [| |b|n|z|s|elems|props];
    [exact Hu | exact Hn | apply Hb | apply Hnum | apply Hbig | apply Hs | | ].
  - apply Harr. induction elems as [|e l IHl]; constructor; [apply IH | exact IHl].
  - apply Hobj. induction props as [|p l IHl]; constructor; [apply IH | exact IHl].
Qed.

(** ** [JSON.parse] inverts [JSON.stringify] on JSON values *)

Section JsonRoundTrip.
Import JSON.

Lemma starts_value_skip_ws t rest :
  starts_value t -> skip_ws (t ++ rest) = t ++ rest.
Proof. destruct t as [|c t]; [done|]. intros [Hws _]. simpl. by rewrite Hws. Qed.

Lemma parse_elements_join elems parts :
  Forall2 reads_as elems parts -> elems <> [] ->
  forall fuel rest,
    length (join [44%N] parts) + 1 <= fuel ->
    parse_elements fuel (join [44%N] parts ++ 93%N :: rest) = Ok (elems, rest).
Proof.
  induction 1 as [|e t elems parts [Hstart Hread] Hall IH]; [done|].
  intros _ fuel rest Hfuel.
  destruct fuel as [|fuel]; [lia|].
  destruct Hall as [|e2 t2 elems parts H2 Hall].
  - simpl in Hfuel. simpl.
    rewrite (Hread fuel (93%N :: rest)); [done | lia | simpl; auto].
  - change (join [44%N] (t :: t2 :: parts))
      with (t ++ [44%N] ++ join [44%N] (t2 :: parts)) in *.
    set (J := join [44%N] (t2 :: parts)) in *.
    rewrite !length_app in Hfuel. simpl length in Hfuel.
    rewrite <- !app_assoc. simpl.
    rewrite (Hread fuel (44%N :: J ++ 93%N :: rest)); [| lia | simpl; auto].
    simpl. rewrite IH by (done || lia). done.
Qed.

Lemma parse_member fuel k t tail :
  parse_members (S fuel) ((quote k ++ 58%N :: t) ++ tail) =
  parse_value fuel (t ++ tail) ≫= (fun '(v, r3) =>
    match skip_ws r3 with
    | c :: r' =>
        if (c =? 44)%N then
          parse_members fuel r' ≫= (fun '(ms, r'') => Ok ((k, v) :: ms, r''))
        else if (c =? 125)%N then Ok ([(k, v)], r')
        else Err SyntaxError
    | [] => Err SyntaxError
    end).
Proof.
  rewrite <- app_assoc, quote_unfold.
  change (parse_members (S fuel) (34%N :: ?s))
    with (parse_string_body s ≫= (fun '(k, r1) =>
            expect 58%N (skip_ws r1) ≫= (fun r2 =>
            parse_value fuel r2 ≫= (fun '(v, r3) =>
    match skip_ws r3 with
    | c :: r' =>
        if (c =? 44)%N then
          parse_members fuel r' ≫= (fun '(ms, r'') => Ok ((k, v) :: ms, r''))
        else if (c =? 125)%N then Ok ([(k, v)], r')
        else Err SyntaxError
    | [] => Err SyntaxError
    end)))).
  by rewrite parse_string_body_quote.
Qed.

Lemma parse_members_join props parts :
  Forall2 member_reads_as props parts -> props <> [] ->
  forall fuel rest,
    length (join [44%N] parts) + 1 <= fuel ->
    parse_members fuel (join [44%N] parts ++ 125%N :: rest) = Ok (props, rest).
Proof.
  induction 1 as [|[k e] m props parts (t & -> & Hstart & Hread) Hall IH]; [done|].
  intros _ fuel rest Hfuel.
  destruct fuel as [|fuel]; [lia|].
  simpl fst in *; simpl snd in *.
  destruct Hall as [|p2 m2 props parts H2 Hall].
  - change (join [44%N] [?a]) with a in *.
    rewrite length_app in Hfuel. simpl length in Hfuel.
    rewrite parse_member.
    rewrite (Hread fuel (125%N :: rest)); [done | lia | simpl; auto].
  - change (join [44%N] (?a :: m2 :: parts))
      with (a ++ [44%N] ++ join [44%N] (m2 :: parts)) in *.
    set (J := join [44%N] (m2 :: parts)) in *.
    rewrite !length_app in Hfuel. simpl length in Hfuel.
    rewrite <- (app_assoc (quote k ++ 58%N :: t)), parse_member.
    rewrite <- app_assoc.
    rewrite (Hread fuel ([44%N] ++ J ++ 125%N :: rest)); [| lia | simpl; auto].
    simpl. rewrite IH by (done || lia). done.
Qed.

Lemma starts_number_inv c :
  starts_number c = true -> c = 45%N \/ (48 <= c <= 57)%N.
Proof.
  unfold starts_number, is_digit.
  intros [->%N.eqb_eq | [?%N.leb_le ?%N.leb_le]%andb_prop]%orb_prop; auto.
Qed.

Lemma starts_number_value c r : starts_number c = true -> starts_value (c :: r).
Proof.
  intros [-> | Hc]%starts_number_inv; [by split|].
  split; [unfold is_ws; rewrite !orb_false_iff; repeat split|]; apply N.eqb_neq; lia.
Qed.

Lemma parse_value_number fuel c r :
  starts_number c = true -> parse_value (S fuel) (c :: r) = parse_number (c :: r).
Proof.
  intros Hc. pose proof (starts_number_value c r Hc) as [Hws _].
  change (parse_value (S fuel) (c :: r))
    with (match skip_ws (c :: r) with
          | [] => Err SyntaxError
          | c :: r =>
              if (c =? 91)%N then
                match skip_ws r with
                | c' :: r' =>
                    if (c' =? 93)%N then Ok (VArr [], r')
                    else '(vs, r'') ← parse_elements fuel (c' :: r'); Ok (VArr vs, r'')
                | [] => Err SyntaxError
                end
              else if (c =? 123)%N then
                match skip_ws r with
                | c' :: r' =>
                    if (c' =? 125)%N then Ok (VObj [], r')
                    else '(ms, r'') ← parse_members fuel (c' :: r'); Ok (object_of ms, r'')
                | [] => Err SyntaxError
                end
              else if (c =? 34)%N then
                '(cs, r') ← parse_string_body r; Ok (VStr cs, r')
              else if (c =? 116)%N then keyword (str "true") (VBool true) (c :: r)
              else if (c =? 102)%N then keyword (str "false") (VBool false) (c :: r)
              else if (c =? 110)%N then keyword (str "null") VNull (c :: r)
              else parse_number (c :: r)
          end).
  simpl skip_ws. rewrite Hws.
  apply starts_number_inv in Hc.
  repeat match goal with
         | |- context [(c =? ?x)%N] => destruct (N.eqb_spec c x); [lia|]
         end.
  done.
Qed.

Lemma format_head s n :
  (0 < s)%N -> exists d r, format s n = digit_char d :: r /\ (d < 10)%N.
Proof.
  intros Hs. pose proof (digits_small s) as Hsmall.
  destruct (digits_head s) as (d & ds & Hds & _).
  rewrite Hds in Hsmall. apply Forall_cons in Hsmall as [Hd _].
  destruct (format_cases s n) as [[Hn ->] | [(Hn & Hn' & ->) | [[Hn ->] | [Hn ->]]]];
    rewrite Hds in *.
  - by eexists d, _.
  - destruct (Z.to_nat n) eqn:E; [lia|]. by eexists d, _.
  - by eexists 0%N, _.
  - by eexists d, _.
Qed.

Lemma digit_char_starts_number d : (d < 10)%N -> starts_number (digit_char d) = true.
Proof. intros Hd. unfold starts_number. by rewrite is_digit_char, orb_true_r. Qed.

(** The text of a finite number is read back as the number, a zero
    without its sign. *)
Lemma number_reads_as x :
  is_json (VNum x) = true ->
  exists t, serialize (VNum x) = Text t /\ reads_as (read_back (VNum x)) t.
Proof.
  destruct x as [| |b|b m e]; try discriminate.
  - intros _. exists (str "0"). split; [done|]. split; [by split|].
    intros [|fuel] rest Hfuel Hrest; [simpl in Hfuel; lia|].
    change (str "0" ++ rest) with (digit_char 0 :: rest).
    rewrite parse_value_number by done.
    pose proof (read_number_text false [0%N] [] None rest) as Hread.
    simpl in Hread. unfold parse_number. simpl.
    rewrite Hread; [done | by eexists _, _; eauto | | done..].
    by repeat constructor.
  - intros Hdouble. simpl in Hdouble. eexists. split; [done|].
    unfold chars_of_number.
    destruct (shortest m e) as [s n] eqn:Hshort.
    destruct (shortest_sound b m e s n Hdouble Hshort) as [Hs Hdenotes].
    destruct (format_head s n Hs) as (d & r & Hformat & Hd).
    pose proof (digit_char_starts_number d Hd) as Hstart.
    split.
    + destruct b; [by split|]. simpl. rewrite Hformat. by apply starts_number_value.
    + intros [|fuel] rest Hfuel Hrest.
      { rewrite length_app, Hformat in Hfuel. simpl in Hfuel. lia. }
      rewrite <- app_assoc. destruct b; simpl app.
      * rewrite parse_value_number by done. unfold parse_number. simpl.
        by rewrite read_number_format, Hdenotes.
      * pose proof (read_number_format false s n rest Hs Hrest) as Hread.
        rewrite Hformat in *. simpl app in *.
        rewrite parse_value_number by done. unfold parse_number.
        replace (digit_char d =? 45)%N with false; [by rewrite Hread, Hdenotes|].
        symmetry. apply N.eqb_neq. unfold digit_char. lia.
Qed.

Lemma serialize_elements_json elems :
  Forall (fun e => is_json e = true ->
                   exists t, serialize e = Text t /\ reads_as (read_back e) t) elems ->
  forallb is_json elems = true ->
  exists parts,
    serialize_elements serialize elems = Some parts /\
    Forall2 reads_as (map read_back elems) parts.
Proof.
  induction 1 as [|e elems He _ IH]; simpl; [eauto|].
  intros [Hj Hjs]%andb_prop.
  destruct (He Hj) as (t & -> & Hread).
  destruct (IH Hjs) as (parts & -> & Hall).
  simpl. eauto.
Qed.

Lemma serialize_members_json props :
  Forall (fun p => is_json (snd p) = true ->
                   exists t, serialize (snd p) = Text t /\ reads_as (read_back (snd p)) t)
    props ->
  forallb (fun p => is_string (fst p) && is_json (snd p)) props = true ->
  exists parts,
    serialize_members serialize props = Some parts /\
    Forall2 member_reads_as (map (fun p => (fst p, read_back (snd p))) props) parts.
Proof.
  induction 1 as [|[k e] props He _ IH]; simpl in *; [eauto|].
  intros [[_ Hj]%andb_prop Hjs]%andb_prop.
  destruct (He Hj) as (t & -> & Hread).
  destruct (IH Hjs) as (parts & -> & Hall).
  simpl. eexists. split; [done|]. constructor; [|done]. by exists t.
Qed.

(** A JSON value serializes to text from which it is read back. *)
Lemma serialize_reads_back v :
  is_json v = true -> exists t, serialize v = Text t /\ reads_as (read_back v) t.
Proof.
  induction v as [| |b|n|z|s|elems IH|props IH] using value_ind_nested;
    intros Hjson; try discriminate.
  - eexists. split; [done|]. split; [by split|].
    intros [|fuel] rest Hfuel _; [simpl in Hfuel; lia | reflexivity].
  - destruct b; (eexists; split; [done|]; split; [by split|];
      intros [|fuel] rest Hfuel _; [simpl in Hfuel; lia | reflexivity]).
  - by apply number_reads_as.
  - eexists. split; [done|]. split; [by split|].
    intros [|fuel] rest Hfuel _; [simpl in Hfuel; lia|].
    rewrite quote_unfold.
    change (parse_value (S fuel) (34%N :: ?r))
      with (parse_string_body r ≫= (fun '(cs, r') => Ok (VStr cs, r'))).
    by rewrite parse_string_body_quote.
  - simpl in Hjson.
    destruct (serialize_elements_json elems IH Hjson) as (parts & Hparts & Hall).
    exists (91%N :: join [44%N] parts ++ [93%N]).
    split; [simpl; by rewrite Hparts|]. split; [by split|].
    intros [|fuel] rest Hfuel _; [simpl in Hfuel; lia|].
    simpl read_back.
    destruct Hall as [|e t elems' parts He Hall]; [reflexivity|].
    pose proof (parse_elements_join (e :: elems') (t :: parts)
                  ltac:(by constructor)) as Hparse.
    set (J := join [44%N] (t :: parts)) in *.
    assert (Hstart : starts_value J).
    { destruct He as [Hstart _]. unfold J.
      destruct t as [|c t]; [done|]. by destruct parts. }
    simpl in Hfuel. rewrite length_app in Hfuel. simpl in Hfuel.
    specialize (Hparse ltac:(done) fuel rest ltac:(lia)).
    change ((91%N :: J ++ [93%N]) ++ rest)
      with (91%N :: (J ++ [93%N]) ++ rest).
    rewrite <- app_assoc. simpl app.
    destruct J as [|c J']; [done|]. destruct Hstart as [Hws Hclose].
    simpl. simpl in Hparse. rewrite Hws, Hclose.
    simpl in Hparse. by rewrite Hparse.
  - simpl in Hjson. apply andb_prop in Hjson as [Hjson Hord].
    destruct (serialize_members_json props IH Hjson) as (parts & Hparts & Hall).
    exists (123%N :: join [44%N] parts ++ [125%N]).
    split; [simpl; by rewrite Hparts|]. split; [by split|].
    intros [|fuel] rest Hfuel _; [simpl in Hfuel; lia|].
    simpl read_back.
    assert (Hobject : object_of (map (fun p => (fst p, read_back (snd p))) props)
                      = VObj (map (fun p => (fst p, read_back (snd p))) props)).
    { apply object_of_ordered. by rewrite map_map. }
    destruct Hall as [|p m props' parts (t & -> & Hp) Hall]; [reflexivity|].
    pose proof (parse_members_join (p :: props') (_ :: parts)
                  ltac:(constructor; [by exists t | done])) as Hparse.
    set (J := join [44%N] (_ :: parts)) in *.
    assert (HJ : exists J', J = 34%N :: J').
    { unfold J. simpl. destruct parts; eauto. }
    destruct HJ as [J' HJ].
    simpl in Hfuel. rewrite length_app in Hfuel. simpl in Hfuel.
    specialize (Hparse ltac:(done) fuel rest ltac:(lia)).
    change ((123%N :: J ++ [125%N]) ++ rest)
      with (123%N :: (J ++ [125%N]) ++ rest).
    rewrite <- app_assoc. simpl app. rewrite HJ in *.
    simpl. simpl in Hparse. rewrite Hparse. simpl. by rewrite Hobject.
Qed.

(** [JSON.parse(JSON.stringify(v))] reads [v] back, and the text is not
    empty. *)
Lemma parse_stringify v :
  is_json v = true ->
  exists s, stringify v = inr (VStr s) /\ s <> [] /\ parse (VStr s) = Ok (read_back v).
Proof.
  intros (t & Ht & Hstart & Hread)%serialize_reads_back.
  exists t. unfold stringify, parse. rewrite Ht.
  split; [done|]. split.
  - by destruct t.
  - simpl ToString.
    pose proof (Hread (S (2 * length t)) [] ltac:(lia) I) as Hparse.
    rewrite app_nil_r in Hparse. by rewrite Hparse.
Qed.

(** What is read back is deep-equal to the value. *)
Lemma deep_equal_read_back v : is_json v = true -> deep_equal (read_back v) v = true.
Proof.
  induction v as [| |b|n|z|s|elems IH|props IH] using value_ind_nested;
    intros Hjson; try discriminate; try done.
  - by destruct b.
  - destruct n as [| |b|b m e]; try done. simpl.
    by rewrite eqb_reflx, Pos.eqb_refl, Z.eqb_refl.
  - simpl. apply same_string_refl.
  - simpl in *. induction IH as [|e elems He _ IHl]; [done|].
    simpl in Hjson. apply andb_prop in Hjson as [Hj Hjs].
    simpl. by rewrite He, IHl.
  - simpl in *. apply andb_prop in Hjson as [Hjson _].
    induction IH as [|[k e] props He _ IHl]; [done|].
    simpl in Hjson. apply andb_prop in Hjson as [[_ Hj]%andb_prop Hjs].
    simpl in *. by rewrite same_string_refl, He, IHl.
Qed.

End JsonRoundTrip.

(** ** [JSON.parse] never runs out of fuel *)

Section ParseFuel.
Import JSON.

Lemma skip_ws_length s : length (skip_ws s) <= length s.
Proof.
  induction s as [|c s IH]; simpl; [lia|].
  destruct (is_ws c); simpl; lia.
Qed.

Lemma strip_prefix_length p s r :
  strip_prefix p s = Some r -> length r + length p = length s.
Proof.
  revert s. induction p as [|a p IH]; intros [|b s]; simpl; try congruence.
  - intros [= <-]. simpl. lia.
  - intros [= <-]. simpl. lia.
  - destruct (a =? b)%N; [|done]. intros H%IH. lia.
Qed.

Lemma read_digits_length acc count s M count' r :
  read_digits acc count s = (M, count', r) ->
  length r + count' = length s + count.
Proof.
  revert acc count. induction s as [|c s IH]; intros acc count; simpl.
  - intros [= <- <- <-]. simpl. lia.
  - destruct (is_digit c).
    + intros H%IH. lia.
    + intros [= <- <- <-]. simpl. lia.
Qed.

Lemma read_fraction_spec int s :
  read_fraction int s <> Err OutOfFuel /\
  forall M nf r, read_fraction int s = Ok (M, nf, r) -> length r <= length s.
Proof.
  unfold read_fraction. destruct s as [|c s]; [by split; [|intros ??? [= _ _ <-]]|].
  destruct (c =? 46)%N.
  - destruct (read_digits int 0 s) as [[M nf] r] eqn:E.
    apply read_digits_length in E.
    destruct (nf =? 0)%nat; [by split|].
    split; [done|]. intros ??? [= _ _ <-]. simpl. lia.
  - split; [done|]. by intros ??? [= _ _ <-].
Qed.

Lemma read_exponent_spec s :
  read_exponent s <> Err OutOfFuel /\
  forall x r, read_exponent s = Ok (x, r) -> length r <= length s.
Proof.
  unfold read_exponent. destruct s as [|c s]; [by split; [|intros ?? [= _ <-]]|].
  destruct ((c =? 101)%N || (c =? 69)%N); [|by split; [|intros ?? [= _ <-]]].
  destruct (match s with
            | [] => (false, s)
            | d :: r'' =>
                if (d =? 45)%N then (true, r'')
                else if (d =? 43)%N then (false, r'') else (false, s)
            end) as [minus s'] eqn:Es.
  assert (Hs' : length s' <= length s).
  { destruct s as [|d s0]; [by injection Es as _ <-|].
    destruct (d =? 45)%N; [injection Es as _ <-; simpl; lia|].
    destruct (d =? 43)%N; injection Es as _ <-; simpl; lia. }
  destruct (read_digits 0 0 s') as [[x nx] r] eqn:E.
  apply read_digits_length in E.
  destruct (nx =? 0)%nat; [by split|].
  split; [done|]. intros ?? [= _ <-]. simpl. lia.
Qed.

Lemma read_number_spec negative s :
  read_number negative s <> Err OutOfFuel /\
  forall v r, read_number negative s = Ok (v, r) -> length r < length s.
Proof.
  unfold read_number.
  destruct (read_digits 0 0 s) as [[int ni] r1] eqn:E.
  apply read_digits_length in E.
  destruct (Nat.eqb_spec ni 0); [by split|].
  destruct (starts_with_zero s && (1 <? ni)%nat); [by split|].
  destruct (read_fraction_spec int r1) as [Hf1 Hf2].
  destruct (read_fraction int r1) as [[[M nf] r2]|ef]; [|by split; [destruct ef|]].
  specialize (Hf2 _ _ _ eq_refl). simpl.
  destruct (read_exponent_spec r2) as [He1 He2].
  destruct (read_exponent r2) as [[x r3]|ee]; [|by split; [destruct ee|]].
  specialize (He2 _ _ eq_refl). simpl.
  split; [done|]. intros ?? [= _ <-]. lia.
Qed.

Lemma parse_number_consumes s v r :
  parse_number s = Ok (v, r) -> length r < length s.
Proof.
  unfold parse_number. destruct s as [|c s]; [done|].
  destruct (c =? 45)%N.
  - intros H%read_number_spec. simpl. lia.
  - apply read_number_spec.
Qed.

Lemma parse_number_fuel s : parse_number s <> Err OutOfFuel.
Proof.
  unfold parse_number. destruct s as [|c s]; [done|].
  destruct (c =? 45)%N; apply read_number_spec.
Qed.

Lemma prepend_ok c x cs r :
  prepend c x = Ok (cs, r) -> exists cs', x = Ok (cs', r) /\ cs = c :: cs'.
Proof. destruct x as [[cs' r']|e]; simpl; [|done]. intros [= <- <-]. eauto. Qed.

Lemma prepend_err c x e : prepend c x = Err e -> x = Err e.
Proof. destruct x as [[cs' r']|e']; simpl; congruence. Qed.

Lemma parse_string_body_spec n s :
  length s <= n ->
  parse_string_body s <> Err OutOfFuel /\
  forall cs r, parse_string_body s = Ok (cs, r) -> length r < length s.
Proof.
  revert s. induction n as [|n IH]; intros [|c s] Hn; simpl in *; try lia;
    try (split; done).
  destruct (c =? 34)%N; [split; [done|]; intros ? ? [= _ <-]; lia|].
  destruct (c =? 92)%N.
  - destruct s as [|e r1]; [by split|].
    destruct (unescape e).
    + destruct (IH r1 ltac:(simpl in *; lia)) as [Hfuel Hlen]. split.
      * by intros ?%prepend_err.
      * intros cs r (cs' & H%Hlen & _)%prepend_ok. simpl. lia.
    + destruct (e =? 117)%N; [|by split].
      destruct r1 as [|h1 [|h2 [|h3 [|h4 r2]]]]; try (by split).
      destruct (hex4 h1 h2 h3 h4) as [x|]; [|by split].
      destruct (IH r2 ltac:(simpl in *; lia)) as [Hfuel Hlen]. split.
      * by intros ?%prepend_err.
      * intros cs r (cs' & H%Hlen & _)%prepend_ok. simpl. lia.
  - destruct (c <? 32)%N; [by split|].
    destruct (IH s ltac:(lia)) as [Hfuel Hlen]. split.
    + by intros ?%prepend_err.
    + intros cs r (cs' & H%Hlen & _)%prepend_ok. lia.
Qed.

Lemma parse_string_body_consumes s cs r :
  parse_string_body s = Ok (cs, r) -> length r < length s.
Proof. apply (parse_string_body_spec (length s) s (Nat.le_refl _)). Qed.

Lemma parse_string_body_fuel s : parse_string_body s <> Err OutOfFuel.
Proof. apply (parse_string_body_spec (length s) s (Nat.le_refl _)). Qed.

Lemma keyword_consumes word v s v' r :
  word <> [] -> keyword word v s = Ok (v', r) -> length r < length s.
Proof.
  unfold keyword. intros Hword.
  destruct (strip_prefix word s) as [r'|] eqn:E; [|done].
  intros [= _ <-]. apply strip_prefix_length in E.
  destruct word; [done|]. simpl in E. lia.
Qed.

Lemma keyword_fuel word v s : keyword word v s <> Err OutOfFuel.
Proof. unfold keyword. by destruct (strip_prefix _ _). Qed.

Lemma expect_consumes c s r : expect c s = Ok r -> length s = S (length r).
Proof.
  destruct s as [|c' s]; simpl; [done|]. destruct (c =? c')%N; [|done].
  by intros [= <-].
Qed.

Lemma expect_fuel c s : expect c s <> Err OutOfFuel.
Proof. destruct s as [|c' s]; simpl; [done|]. by destruct (c =? c')%N. Qed.

(** A successful call has read at least one code unit. *)
Lemma parse_consumes fuel :
  (forall s v r, parse_value fuel s = Ok (v, r) -> length r < length s) /\
  (forall s vs r, parse_elements fuel s = Ok (vs, r) -> length r < length s) /\
  (forall s ms r, parse_members fuel s = Ok (ms, r) -> length r < length s).
Proof.
  induction fuel as [|fuel (IHv & IHe & IHm)]; [by repeat split|].
  repeat split; intros s; simpl.
  - intros v r. pose proof (skip_ws_length s) as Hs.
    destruct (skip_ws s) as [|c r0]; [done|]. simpl in Hs.
    destruct (c =? 91)%N.
    { pose proof (skip_ws_length r0) as Hr0.
      destruct (skip_ws r0) as [|c' r']; [done|]. simpl in Hr0.
      destruct (c' =? 93)%N; [intros [= _ <-]; lia|].
      destruct (parse_elements fuel (c' :: r')) as [[vs r'']|e] eqn:E; [|done].
      apply IHe in E. simpl in E. intros [= _ <-]. lia. }
    destruct (c =? 123)%N.
    { pose proof (skip_ws_length r0) as Hr0.
      destruct (skip_ws r0) as [|c' r']; [done|]. simpl in Hr0.
      destruct (c' =? 125)%N; [intros [= _ <-]; lia|].
      destruct (parse_members fuel (c' :: r')) as [[ms r'']|e] eqn:E; [|done].
      apply IHm in E. simpl in E. intros [= _ <-]. lia. }
    destruct (c =? 34)%N.
    { destruct (parse_string_body r0) as [[cs r']|e] eqn:E; [|done].
      apply parse_string_body_consumes in E. intros [= _ <-]. lia. }
    destruct (c =? 116)%N.
    { intros H%keyword_consumes; [simpl in H; lia | done]. }
    destruct (c =? 102)%N.
    { intros H%keyword_consumes; [simpl in H; lia | done]. }
    destruct (c =? 110)%N.
    { intros H%keyword_consumes; [simpl in H; lia | done]. }
    intros H%parse_number_consumes. simpl in H. lia.
  - intros vs r.
    destruct (parse_value fuel s) as [[v r0]|e] eqn:E; [|done].
    apply IHv in E. simpl.
    pose proof (skip_ws_length r0) as Hr0.
    destruct (skip_ws r0) as [|c r']; [done|]. simpl in Hr0.
    destruct (c =? 44)%N.
    { destruct (parse_elements fuel r') as [[vs' r'']|e] eqn:E'; [|done].
      apply IHe in E'. intros [= _ <-]. lia. }
    destruct (c =? 93)%N; [|done]. intros [= _ <-]. lia.
  - intros ms r. pose proof (skip_ws_length s) as Hs.
    destruct (expect 34%N (skip_ws s)) as [r0|e] eqn:E0; [|done].
    apply expect_consumes in E0. simpl.
    destruct (parse_string_body r0) as [[k r1]|e] eqn:E1; [|done].
    apply parse_string_body_consumes in E1. simpl.
    pose proof (skip_ws_length r1) as Hr1.
    destruct (expect 58%N (skip_ws r1)) as [r2|e] eqn:E2; [|done].
    apply expect_consumes in E2. simpl.
    destruct (parse_value fuel r2) as [[v r3]|e] eqn:E3; [|done].
    apply IHv in E3. simpl.
    pose proof (skip_ws_length r3) as Hr3.
    destruct (skip_ws r3) as [|c r']; [done|]. simpl in Hr3.
    destruct (c =? 44)%N.
    { destruct (parse_members fuel r') as [[ms' r'']|e] eqn:E'; [|done].
      apply IHm in E'. intros [= _ <-]. lia. }
    destruct (c =? 125)%N; [|done]. intros [= _ <-]. lia.
Qed.

(** Two units of fuel for each code unit are enough. *)
Lemma parse_has_fuel fuel :
  (forall s, 2 * length s < fuel -> parse_value fuel s <> Err OutOfFuel) /\
  (forall s, 2 * length s + 1 < fuel -> parse_elements fuel s <> Err OutOfFuel) /\
  (forall s, 2 * length s + 1 < fuel -> parse_members fuel s <> Err OutOfFuel).
Proof.
  induction fuel as [|fuel (IHv & IHe & IHm)]; [repeat split; intros; lia|].
  destruct (parse_consumes fuel) as (Cv & Ce & Cm).
  repeat split; intros s Hfuel; simpl.
  - pose proof (skip_ws_length s) as Hs.
    destruct (skip_ws s) as [|c r0]; [done|]. simpl in Hs.
    destruct (c =? 91)%N.
    { pose proof (skip_ws_length r0) as Hr0.
      destruct (skip_ws r0) as [|c' r']; [done|]. simpl in Hr0.
      destruct (c' =? 93)%N; [done|].
      pose proof (IHe (c' :: r') ltac:(simpl; lia)) as He.
      by destruct (parse_elements fuel (c' :: r')) as [[vs r'']|[]]. }
    destruct (c =? 123)%N.
    { pose proof (skip_ws_length r0) as Hr0.
      destruct (skip_ws r0) as [|c' r']; [done|]. simpl in Hr0.
      destruct (c' =? 125)%N; [done|].
      pose proof (IHm (c' :: r') ltac:(simpl; lia)) as Hm.
      by destruct (parse_members fuel (c' :: r')) as [[ms r'']|[]]. }
    destruct (c =? 34)%N.
    { pose proof (parse_string_body_fuel r0) as Hb.
      by destruct (parse_string_body r0) as [[cs r']|[]]. }
    destruct (c =? 116)%N; [apply keyword_fuel|].
    destruct (c =? 102)%N; [apply keyword_fuel|].
    destruct (c =? 110)%N; [apply keyword_fuel|].
    apply parse_number_fuel.
  - pose proof (IHv s ltac:(lia)) as Hv.
    destruct (parse_value fuel s) as [[v r0]|e] eqn:E; [|by destruct e].
    apply Cv in E. simpl.
    pose proof (skip_ws_length r0) as Hr0.
    destruct (skip_ws r0) as [|c r']; [done|]. simpl in Hr0.
    destruct (c =? 44)%N.
    { pose proof (IHe r' ltac:(lia)) as He.
      by destruct (parse_elements fuel r') as [[vs' r'']|[]]. }
    by destruct (c =? 93)%N.
  - pose proof (skip_ws_length s) as Hs.
    pose proof (expect_fuel 34%N (skip_ws s)) as H0.
    destruct (expect 34%N (skip_ws s)) as [r0|e] eqn:E0; [|by destruct e].
    apply expect_consumes in E0. simpl.
    pose proof (parse_string_body_fuel r0) as H1.
    destruct (parse_string_body r0) as [[k r1]|e] eqn:E1; [|by destruct e].
    apply parse_string_body_consumes in E1. simpl.
    pose proof (skip_ws_length r1) as Hr1.
    pose proof (expect_fuel 58%N (skip_ws r1)) as H2.
    destruct (expect 58%N (skip_ws r1)) as [r2|e] eqn:E2; [|by destruct e].
    apply expect_consumes in E2. simpl.
    pose proof (IHv r2 ltac:(lia)) as Hv.
    destruct (parse_value fuel r2) as [[v r3]|e] eqn:E3; [|by destruct e].
    apply Cv in E3. simpl.
    pose proof (skip_ws_length r3) as Hr3.
    destruct (skip_ws r3) as [|c r']; [done|]. simpl in Hr3.
    destruct (c =? 44)%N.
    { pose proof (IHm r' ltac:(lia)) as Hm.
      by destruct (parse_members fuel r') as [[ms' r'']|[]]. }
    by destruct (c =? 125)%N.
Qed.

(** [JSON.parse] returns a value or throws a SyntaxError; the model
    never stops short. *)
Lemma parse_never_out_of_fuel x : parse x <> Err OutOfFuel.
Proof.
  unfold parse.
  destruct (parse_has_fuel (S (2 * length (ToString x)))) as (Hv & _ & _).
  specialize (Hv (ToString x) ltac:(lia)).
  destruct (parse_value _ _) as [[v r]|e]; simpl; [|by destruct e].
  by destruct (skip_ws r).
Qed.

Lemma parse_throws_syntax_error x e : parse x = Err e -> e = SyntaxError.
Proof. destruct e; [done|]. by intros ?%parse_never_out_of_fuel. Qed.

End ParseFuel.

(** ** Marshalling and keys *)

Section Marshalling.
Import DynamoDB.

Lemma marshall_attributes_app l1 l2 :
  marshall_attributes (l1 ++ l2)
  = a ← marshall_attributes l1; b ← marshall_attributes l2; Some (a ++ b).
Proof.
  induction l1 as [|[k v] l1 IH]; simpl.
  - by destruct (marshall_attributes l2).
  - destruct v; try exact IH;
      (destruct (marshall _) as [x|]; simpl; [|done]);
      rewrite IH; destruct (marshall_attributes l1); simpl; try done;
      by destruct (marshall_attributes l2).
Qed.

Lemma marshall_attributes_has name props attrs :
  marshall_attributes props = Some attrs ->
  has_prop name attrs = true -> has_prop name props = true.
Proof.
  revert attrs. induction props as [|[k v] props IH]; intros attrs; simpl.
  - by intros [= <-].
  - destruct v;
      try (intros H Hhas; rewrite (IH _ H Hhas); apply orb_true_r);
      (destruct (marshall _) as [x|]; simpl; [|done]);
      (destruct (marshall_attributes props) as [rest|]; simpl; [|done]);
      intros [= <-]; simpl; intros [->|Hhas]%orb_prop; try done;
      rewrite (IH _ eq_refl Hhas); apply orb_true_r.
Qed.

(** The envelope attribute travels as it is, after the key's attributes. *)
Lemma marshall_attributes_envelope props attrs name s :
  marshall_attributes props = Some attrs ->
  marshall_attributes (props ++ [(name, VStr s)]) = Some (attrs ++ [(name, VStr s)]).
Proof. intros H. by rewrite marshall_attributes_app, H. Qed.

(** An envelope attribute that is [undefined] is not sent. *)
Lemma marshall_attributes_undefined props name :
  marshall_attributes (props ++ [(name, VUndefined)]) = marshall_attributes props.
Proof.
  rewrite marshall_attributes_app.
  destruct (marshall_attributes props); simpl; [|done]. by rewrite app_nil_r.
Qed.

Lemma marshall_attributes_string name s props attrs :
  marshall_attributes props = Some attrs ->
  lookup_prop name props = VStr s -> lookup_prop name attrs = VStr s.
Proof.
  revert attrs. induction props as [|[k v] props IH]; intros attrs; simpl; [done|].
  destruct (same_string k name) eqn:Hk.
  - intros H ->. simpl in H.
    destruct (marshall_attributes props) as [rest|]; simpl in H; [|done].
    injection H as <-. simpl. by rewrite Hk.
  - destruct v; try (by apply IH);
      (destruct (marshall _) as [x|]; simpl; [|done]);
      (destruct (marshall_attributes props) as [rest|]; simpl; [|done]);
      intros [= <-] Hlook; simpl; rewrite Hk; by apply IH.
Qed.

(** With every name once, replacing a property by [undefined] removes
    the attribute. *)
Lemma marshall_attributes_removed name props attrs :
  NoDup (map fst props) ->
  marshall_attributes (replace_prop name VUndefined props) = Some attrs ->
  has_prop name attrs = false.
Proof.
  revert attrs. induction props as [|[k v] props IH]; intros attrs Hnd; simpl.
  - by intros [= <-].
  - apply NoDup_cons in Hnd as [Hfresh Hnd]. simpl in Hfresh.
    destruct (same_string_spec k name) as [->|Hne]; simpl.
    + intros H. destruct (has_prop name attrs) eqn:E; [|done].
      exfalso. apply Hfresh. apply has_prop_elem.
      by apply (marshall_attributes_has name props attrs).
    + destruct v; try (by apply IH);
        (destruct (marshall _) as [x|]; simpl; [|done]);
        (destruct (marshall_attributes _) as [rest|] eqn:E; simpl; [|done]);
        intros [= <-]; simpl; rewrite (same_string_neq k name Hne); by apply IH.
Qed.

Lemma marshall_input_attributes k attrs :
  marshall_input k = Some (VObj attrs) -> marshall_attributes (spread k) = Some attrs.
Proof.
  unfold marshall_input.
  destruct k as [| |b|n|z|s|elems|props]; try done;
    try (destruct (marshall_attributes _); simpl; congruence).
  intros H. exfalso. revert H. generalize (fun e => match e with
                              | VUndefined => Some VUndefined
                              | _ => marshall e
                              end).
  intros f. by destruct (mapM f elems).
Qed.

Lemma marshall_input_object props :
  marshall_input (VObj props) = VObj <$> marshall_attributes props.
Proof. reflexivity. Qed.

(** More attributes after those of the key do not change the primary
    key. *)
Lemma key_of_app schema attrs more pk :
  key_of schema attrs = Some pk -> key_of schema (attrs ++ more) = Some pk.
Proof.
  unfold key_of. rewrite !mapM_Some.
  induction 1 as [|[a ty] sc schema pk Ha _ IH]; constructor; [|done].
  simpl in *. rewrite lookup_prop_app.
  destruct (has_prop a attrs) eqn:E; [done|].
  rewrite lookup_prop_missing in Ha by done. by destruct ty.
Qed.

Lemma addresses_same_schema svc svc' schema stored stored' k :
  admits svc' = admits svc ->
  addresses svc' (Table schema stored') k = addresses svc (Table schema stored) k.
Proof. intros H. unfold addresses. by rewrite H. Qed.

End Marshalling.

(** ** The two methods, awaited *)

Section Awaited.

Lemma await_get tablename PKorPKSK w :
  await (get (at_ (table tablename) PKorPKSK)) w =
  match client w with
  | None => (w, Rejected undefined_client)
  | Some c =>
      let '(svc, answer) :=
        DynamoDB.send (env_var (str "AWS_REGION") w) c
          (DynamoDB.GetCommand (TableName tablename w) PKorPKSK) (backend w) in
      (served svc w,
       match answer with
       | inl f => Rejected (of_failure f)
       | inr response => unwrap response
       end)
  end.
Proof.
  unfold await. simpl. destruct (client w); [|done].
  unfold await_send. by destruct (DynamoDB.send _ _ _ _).
Qed.

Lemma await_put tablename PKorPKSK data w :
  await (put (at_ (table tablename) PKorPKSK) data) w =
  match client w with
  | None => (w, Rejected undefined_client)
  | Some c =>
      match JSON.stringify data with
      | inl e => (w, Rejected (TypeError e))
      | inr json =>
          let '(svc, answer) :=
            DynamoDB.send (env_var (str "AWS_REGION") w) c
              (DynamoDB.PutCommand (TableName tablename w) (Item PKorPKSK json))
              (backend w) in
          (served svc w,
           match answer with
           | inl f => Rejected (of_failure f)
           | inr response => Fulfilled response
           end)
      end
  end.
Proof.
  unfold await. simpl. destruct (client w); [|done].
  destruct (JSON.stringify data); [done|].
  unfold await_send. by destruct (DynamoDB.send _ _ _ _).
Qed.

End Awaited.

(** ** Requests that reach a table *)

Section Reached.

Lemma reaches_inv tablename w name tbl :
  reaches tablename w = Some (name, tbl) ->
  exists c r,
    client w = Some c /\
    DynamoDB.resolve_region c (env_var (str "AWS_REGION") w) = Some r /\
    DynamoDB.authorised (backend w) r (DynamoDB.client_credentials c) = true /\
    TableName tablename w = VStr name /\
    DynamoDB.tables (backend w) !! name = Some tbl.
Proof.
  unfold reaches. destruct (client w) as [c|]; [|done].
  destruct (TableName tablename w); try done.
  destruct (DynamoDB.resolve_region c _) as [r|] eqn:Hregion; [|done].
  destruct (DynamoDB.authorised (backend w) r _) eqn:Hauth; [|done].
  destruct (DynamoDB.tables (backend w) !! s) eqn:Ht; simpl; [|done].
  intros [= <- <-]. eexists _, _. by repeat split.
Qed.

(** What the service answers to a GetItem for the primary key [pk]. *)
Lemma get_reached tablename PKorPKSK w name tbl pk :
  reaches tablename w = Some (name, tbl) ->
  DynamoDB.addresses (backend w) tbl PKorPKSK = Some pk ->
  await (get (at_ (table tablename) PKorPKSK)) w =
  (served (DynamoDB.log (DynamoDB.GetCommand (VStr name) PKorPKSK) (backend w)) w,
   unwrap
     (VObj ((str "$metadata",
             DynamoDB.metadata (backend w)
               (DynamoDB.received (backend w)
                ++ [DynamoDB.GetCommand (VStr name) PKorPKSK]))
            :: match DynamoDB.items tbl !! pk with
               | Some item => [(str "Item", VObj item)]
               | None => []
               end))).
Proof.
  intros (c & r & Hc & Hregion & Hauth & Hname & Htbl)%reaches_inv Hpk.
  rewrite await_get, Hc, Hname.
  unfold DynamoDB.addresses in Hpk.
  unfold DynamoDB.send, DynamoDB.marshall_command.
  destruct (DynamoDB.marshall_input PKorPKSK) as [[| | | | | | |key]|]; try done.
  destruct (DynamoDB.admits (backend w) key) eqn:Hadmits; [|done].
  simpl. rewrite Hregion.
  unfold DynamoDB.serve, DynamoDB.log. simpl.
  rewrite Hauth, Htbl, Hadmits. unfold DynamoDB.get_item. rewrite Hpk.
  by destruct (DynamoDB.items tbl !! pk).
Qed.

(** A put whose Item the client marshals and the service admits and can
    key is acknowledged, and the item is stored under its primary key. *)
Lemma put_reached tablename PKorPKSK data w name tbl json item pk :
  reaches tablename w = Some (name, tbl) ->
  JSON.stringify data = inr json ->
  DynamoDB.marshall_input (Item PKorPKSK json) = Some (VObj item) ->
  DynamoDB.admits (backend w) item = true ->
  DynamoDB.key_of (DynamoDB.key_schema tbl) item = Some pk ->
  await (put (at_ (table tablename) PKorPKSK) data) w =
  (served
     (DynamoDB.with_table name
        (DynamoDB.Table (DynamoDB.key_schema tbl) (<[pk := item]> (DynamoDB.items tbl)))
        (DynamoDB.log (DynamoDB.PutCommand (VStr name) (Item PKorPKSK json)) (backend w)))
     w,
   Fulfilled
     (VObj [(str "$metadata",
             DynamoDB.metadata (backend w)
               (DynamoDB.received (backend w)
                ++ [DynamoDB.PutCommand (VStr name) (Item PKorPKSK json)]))])).
Proof.
  intros (c & r & Hc & Hregion & Hauth & Hname & Htbl)%reaches_inv Hs Hm Hadmits Hpk.
  rewrite await_put, Hc, Hs, Hname.
  unfold DynamoDB.send, DynamoDB.marshall_command. rewrite Hm. simpl.
  rewrite Hregion.
  unfold DynamoDB.serve, DynamoDB.log. simpl.
  rewrite Hauth, Htbl, Hadmits. unfold DynamoDB.put_item. by rewrite Hpk.
Qed.

(** A fulfilled put was such a put. *)
Lemma put_fulfilled_inv tablename PKorPKSK data w w1 ack :
  await (put (at_ (table tablename) PKorPKSK) data) w = (w1, Fulfilled ack) ->
  exists name tbl json item pk,
    reaches tablename w = Some (name, tbl) /\
    JSON.stringify data = inr json /\
    DynamoDB.marshall_input (Item PKorPKSK json) = Some (VObj item) /\
    DynamoDB.admits (backend w) item = true /\
    DynamoDB.key_of (DynamoDB.key_schema tbl) item = Some pk /\
    w1 = served
           (DynamoDB.with_table name
              (DynamoDB.Table (DynamoDB.key_schema tbl)
                 (<[pk := item]> (DynamoDB.items tbl)))
              (DynamoDB.log (DynamoDB.PutCommand (VStr name) (Item PKorPKSK json))
                 (backend w)))
           w /\
    ack = VObj [(str "$metadata",
                 DynamoDB.metadata (backend w)
                   (DynamoDB.received (backend w)
                    ++ [DynamoDB.PutCommand (VStr name) (Item PKorPKSK json)]))].
Proof.
  rewrite await_put. unfold reaches.
  destruct (client w) as [c|] eqn:Hc; [|done].
  destruct (JSON.stringify data) as [e|json] eqn:Hs; [done|].
  unfold DynamoDB.send, DynamoDB.marshall_command.
  destruct (DynamoDB.marshall_input _) as [wire|] eqn:Hm; simpl; [|done].
  destruct (DynamoDB.resolve_region c _) as [r|] eqn:Hregion; [|done].
  unfold DynamoDB.serve, DynamoDB.log. simpl.
  destruct (DynamoDB.authorised (backend w) r _) eqn:Hauth; [|done].
  destruct (TableName tablename w) as [| |?|?|?|name|?|?] eqn:Hname; try done.
  destruct wire as [| |?|?|?|?|?|item]; try done.
  destruct (DynamoDB.tables (backend w) !! name) as [tbl|] eqn:Htbl; [|done].
  destruct (DynamoDB.admits (backend w) item) eqn:Hadmits; [|done].
  unfold DynamoDB.put_item.
  destruct (DynamoDB.key_of _ item) as [pk|] eqn:Hpk; [|done].
  intros [= <- <-]. by exists name, tbl, json, item, pk.
Qed.

(** What a put settles with, the rest of the world is as it was: only
    the service changes. *)
Lemma put_frame tablename PKorPKSK data w :
  let w1 := fst (await (put (at_ (table tablename) PKorPKSK) data) w) in
  client w1 = client w /\ process_env w1 = process_env w /\
  DynamoDB.authorised (backend w1) = DynamoDB.authorised (backend w) /\
  DynamoDB.admits (backend w1) = DynamoDB.admits (backend w) /\
  DynamoDB.metadata (backend w1) = DynamoDB.metadata (backend w).
Proof.
  cbv zeta. rewrite await_put.
  destruct (client w) as [c|] eqn:Hc; [|done].
  destruct (JSON.stringify data) as [e|json]; [done|].
  unfold DynamoDB.send, DynamoDB.marshall_command.
  destruct (DynamoDB.marshall_input _) as [wire|]; simpl; [|done].
  destruct (DynamoDB.resolve_region c _) as [r|]; [|done].
  unfold DynamoDB.serve, DynamoDB.log. simpl.
  destruct (DynamoDB.authorised (backend w) r _); [|done].
  destruct (TableName tablename w) as [| |?|?|?|name|?|?]; try done.
  destruct wire as [| |?|?|?|?|?|item]; try done.
  destruct (DynamoDB.tables (backend w) !! name) as [tbl|]; [|done].
  destruct (DynamoDB.admits (backend w) item); [|done].
  by destruct (DynamoDB.put_item _ tbl item) as [err|[tbl' out]].
Qed.

(** A rejected put has changed no table. *)
Lemma put_rejected_tables tablename PKorPKSK data w w1 e :
  await (put (at_ (table tablename) PKorPKSK) data) w = (w1, Rejected e) ->
  DynamoDB.tables (backend w1) = DynamoDB.tables (backend w).
Proof.
  rewrite await_put. destruct (client w) as [c|] eqn:Hc; [|by intros [= <- _]].
  destruct (JSON.stringify data) as [err|json]; [by intros [= <- _]|].
  unfold DynamoDB.send, DynamoDB.marshall_command.
  destruct (DynamoDB.marshall_input _) as [wire|]; simpl; [|by intros [= <- _]].
  destruct (DynamoDB.resolve_region c _) as [r|]; [|by intros [= <- _]].
  unfold DynamoDB.serve, DynamoDB.log. simpl.
  destruct (DynamoDB.authorised (backend w) r _); [|by intros [= <- _]].
  destruct (TableName tablename w) as [| |?|?|?|name|?|?]; try (by intros [= <- _]).
  destruct wire as [| |?|?|?|?|?|item]; try (by intros [= <- _]).
  destruct (DynamoDB.tables (backend w) !! name) as [tbl|]; [|by intros [= <- _]].
  destruct (DynamoDB.admits (backend w) item); [|by intros [= <- _]].
  destruct (DynamoDB.put_item _ tbl item) as [err|[tbl' out]]; [by intros [= <- _]|done].
Qed.

(** The table reached is a matter of the client, the environment, whom
    the service serves and the tables it has. *)
Lemma reaches_same tablename w w' :
  client w' = client w -> process_env w' = process_env w ->
  DynamoDB.authorised (backend w') = DynamoDB.authorised (backend w) ->
  DynamoDB.tables (backend w') = DynamoDB.tables (backend w) ->
  reaches tablename w' = reaches tablename w.
Proof.
  intros Hc He Ha Ht. unfold reaches, TableName, env_var. by rewrite Hc, He, Ha, Ht.
Qed.

Lemma reaches_after_put tablename w name tbl tbl' cmd :
  reaches tablename w = Some (name, tbl) ->
  reaches tablename
    (served (DynamoDB.with_table name tbl' (DynamoDB.log cmd (backend w))) w)
  = Some (name, tbl').
Proof.
  intros (c & r & Hc & Hregion & Hauth & Hname & Htbl)%reaches_inv.
  unfold reaches. simpl.
  change (TableName tablename (served ?s w)) with (TableName tablename w).
  change (env_var ?n (served ?s w)) with (env_var n w).
  by rewrite Hc, Hname, Hregion, Hauth, lookup_insert_eq.
Qed.

End Reached.

(** ** What [get] makes of a response *)

Section Unwrap.

Lemma unwrap_absent meta : unwrap (VObj [(str "$metadata", meta)]) = Fulfilled VNull.
Proof. reflexivity. Qed.

Lemma response_item meta item :
  get_prop (VObj [(str "$metadata", meta); (str "Item", VObj item)]) (str "Item")
  = VObj item.
Proof. reflexivity. Qed.

Lemma unwrap_raw meta item :
  truthy (lookup_prop (str "JSON") item) = false ->
  unwrap (VObj [(str "$metadata", meta); (str "Item", VObj item)]) = Fulfilled (VObj item).
Proof.
  intros Hfalsy. unfold unwrap. rewrite response_item.
  unfold and_. simpl. by rewrite Hfalsy.
Qed.

Lemma unwrap_envelope meta item :
  truthy (lookup_prop (str "JSON") item) = true ->
  unwrap (VObj [(str "$metadata", meta); (str "Item", VObj item)])
  = match JSON.parse (lookup_prop (str "JSON") item) with
    | JSON.Ok v => Fulfilled v
    | JSON.Err _ => Rejected JsonSyntaxError
    end.
Proof.
  intros Htruthy. unfold unwrap. rewrite response_item.
  unfold and_. simpl. by rewrite Htruthy.
Qed.

End Unwrap.

(** ** [init] *)

Section Init.

Lemma truthy_and a b : truthy (and_ a b) = truthy a && truthy b.
Proof. unfold and_. by destruct (truthy a) eqn:E; simpl. Qed.

(** [init], awaited. *)
Lemma await_init options w :
  options <> VNull ->
  await (init options) w =
  let p := destructure options w in
  if truthy (identityPoolId p) then
    if DynamoDB.constructs (region p) then
      (World (Some (DynamoDB.ClientConfig (region p)
                      (DynamoDB.Federated (region p) (identityPoolId p))))
         (process_env w) (backend w),
       Fulfilled VUndefined)
    else (w, Rejected region_missing)
  else if truthy (accessKeyId p) && truthy (secretAccessKey p) then
    if DynamoDB.constructs (region p) then
      (World (Some (DynamoDB.ClientConfig (region p)
                      (DynamoDB.Static (accessKeyId p) (secretAccessKey p))))
         (process_env w) (backend w),
       Fulfilled VUndefined)
    else (w, Rejected region_missing)
  else (w, Rejected insufficient_credentials).
Proof.
  intros Hnull. cbv zeta. rewrite <- truthy_and. unfold await, init.
  destruct options; try done;
    (destruct (truthy (identityPoolId _));
     [|destruct (truthy (and_ _ _)); [|done]]);
    unfold assign_client, DynamoDB.fromCognitoIdentityPool, DynamoDB.DynamoDBClient;
    simpl; by destruct (DynamoDB.constructs _).
Qed.

Lemma null_or_not (options : value) : options = VNull \/ options <> VNull.
Proof. destruct options; (by left) || by right. Qed.

Lemma init_rejected_keeps_world options w w1 e :
  await (init options) w = (w1, Rejected e) -> w1 = w.
Proof.
  destruct (null_or_not options) as [->|Hnull]; [by intros [= <- _]|].
  rewrite await_init by done. cbv zeta.
  repeat match goal with |- context [if ?c then _ else _] => destruct c end;
    congruence.
Qed.

Lemma init_keeps_backend options w :
  backend (fst (await (init options) w)) = backend w /\
  process_env (fst (await (init options) w)) = process_env w.
Proof.
  destruct (null_or_not options) as [->|Hnull]; [done|].
  rewrite await_init by done. cbv zeta.
  repeat match goal with |- context [if ?c then _ else _] => destruct c end; done.
Qed.

Lemma destructure_same_environment options w w' :
  process_env w' = process_env w -> destructure options w' = destructure options w.
Proof. intros H. unfold destructure, env_var. by rewrite H. Qed.

Lemma init_each_rejected calls w :
  forallb is_rejected (snd (init_each calls w)) = true -> fst (init_each calls w) = w.
Proof.
  revert w. induction calls as [|options calls IH]; intros w; simpl; [done|].
  destruct (await (init options) w) as [w1 r] eqn:E1.
  destruct (init_each calls w1) as [w2 rs] eqn:E2. simpl.
  intros [Hr Hrs]%andb_prop. destruct r as [|e]; [done|].
  apply init_rejected_keeps_world in E1 as ->.
  specialize (IH w). rewrite E2 in IH. by apply IH.
Qed.

End Init.

(** ** A put at a key, and the get after it *)

Section PutAtKey.

Lemma envelope_is_no_index : array_index (str "JSON") = None.
Proof. reflexivity. Qed.

Lemma digits_nonempty n : digits n <> [].
Proof. by destruct (digits_head n) as (d & ds & -> & _). Qed.

Lemma format_nonempty s n : format s n <> [].
Proof.
  pose proof (digits_nonempty s) as Hds.
  destruct (format_cases s n) as [[Hn ->] | [(Hn & Hn' & ->) | [[Hn ->] | [Hn ->]]]];
    try done.
  - by destruct (digits s).
  - destruct (Z.to_nat n) eqn:E; [lia|]. by destruct (digits s).
  - by destruct (digits s).
Qed.

Lemma serialize_text_nonempty v t : JSON.serialize v = JSON.Text t -> t <> [].
Proof.
  destruct v as [| |[]|[| |b|b m e]|z|s|elems|props]; simpl;
    try discriminate; try (by intros [= <-]).
  - unfold chars_of_number. destruct (shortest m e) as [s n].
    intros [= <-]. pose proof (format_nonempty s n). destruct b; [done|]. by simpl.
  - destruct (JSON.serialize_elements _ _); [by intros [= <-] | done].
  - destruct (JSON.serialize_members _ _); [by intros [= <-] | done].
Qed.

(** [JSON.stringify] returns [undefined] or a string that is not empty. *)
Lemma stringify_cases data json :
  JSON.stringify data = inr json ->
  json = VUndefined \/ exists c s, json = VStr (c :: s).
Proof.
  unfold JSON.stringify.
  destruct (JSON.serialize data) as [| |t] eqn:E; [done | intros [= <-]; by left|].
  intros [= <-]. right. apply serialize_text_nonempty in E.
  destruct t as [|c s]; [done|]. by exists c, s.
Qed.

(** The item a put stores: the key's attributes as marshalled, then the
    envelope when there is one. *)
Lemma item_at_key k json attrs :
  has_prop (str "JSON") (spread k) = false ->
  DynamoDB.marshall_attributes (spread k) = Some attrs ->
  json = VUndefined \/ (exists c s, json = VStr (c :: s)) ->
  DynamoDB.marshall_input (Item k json)
  = Some (VObj (attrs ++ match json with
                         | VUndefined => []
                         | _ => [(str "JSON", json)]
                         end)).
Proof.
  intros Hfree Hattrs Hjson. unfold Item.
  rewrite set_prop_missing by (done || apply envelope_is_no_index).
  rewrite marshall_input_object.
  destruct Hjson as [-> | (c & s & ->)].
  - by rewrite marshall_attributes_undefined, Hattrs, app_nil_r.
  - by rewrite (marshall_attributes_envelope _ attrs).
Qed.

Lemma addresses_inv svc tbl k pk :
  DynamoDB.addresses svc tbl k = Some pk ->
  exists attrs,
    DynamoDB.marshall_input k = Some (VObj attrs) /\
    DynamoDB.marshall_attributes (spread k) = Some attrs /\
    DynamoDB.admits svc attrs = true /\
    DynamoDB.key_of (DynamoDB.key_schema tbl) attrs = Some pk.
Proof.
  unfold DynamoDB.addresses, DynamoDB.primary_key.
  destruct (DynamoDB.marshall_input k) as [[| | | | | | |attrs]|] eqn:Hm; try done.
  destruct (DynamoDB.admits svc attrs) eqn:Hadmits; [|done].
  destruct (DynamoDB.only_key_attributes _ _); [|done].
  intros Hpk. exists attrs. repeat split; try done.
  by apply marshall_input_attributes.
Qed.

(** A put at a key that fits the table, of a payload the serializer
    takes, with an Item the service admits: it is acknowledged and the
    item is stored under the key. *)
Lemma put_at_key t k data w name tbl pk json :
  reaches t w = Some (name, tbl) ->
  DynamoDB.addresses (backend w) tbl k = Some pk ->
  has_prop (str "JSON") (spread k) = false ->
  JSON.stringify data = inr json ->
  DynamoDB.accepts (backend w) (Item k json) = true ->
  exists attrs,
    DynamoDB.marshall_attributes (spread k) = Some attrs /\
    has_prop (str "JSON") attrs = false /\
    await (put (at_ (table t) k) data) w =
    (served
       (DynamoDB.with_table name
          (DynamoDB.Table (DynamoDB.key_schema tbl)
             (<[pk := attrs ++ match json with
                               | VUndefined => []
                               | _ => [(str "JSON", json)]
                               end]> (DynamoDB.items tbl)))
          (DynamoDB.log (DynamoDB.PutCommand (VStr name) (Item k json)) (backend w)))
       w,
     Fulfilled
       (VObj [(str "$metadata",
               DynamoDB.metadata (backend w)
                 (DynamoDB.received (backend w)
                  ++ [DynamoDB.PutCommand (VStr name) (Item k json)]))])).
Proof.
  intros Hreach (attrs & _ & Hattrs & _ & Hpk)%addresses_inv Hfree Hs Haccepts.
  pose proof (item_at_key k json attrs Hfree Hattrs (stringify_cases data json Hs)) as Hitem.
  exists attrs. split; [done|]. split.
  - destruct (has_prop (str "JSON") attrs) eqn:E; [|done].
    by rewrite (marshall_attributes_has _ _ _ Hattrs E) in Hfree.
  - apply put_reached; try done.
    + unfold DynamoDB.accepts in Haccepts. by rewrite Hitem in Haccepts.
    + by apply key_of_app.
Qed.

(** The get after such a put reads what was stored. *)
Lemma get_after_put t k data w name tbl pk json :
  reaches t w = Some (name, tbl) ->
  DynamoDB.addresses (backend w) tbl k = Some pk ->
  has_prop (str "JSON") (spread k) = false ->
  JSON.stringify data = inr json ->
  DynamoDB.accepts (backend w) (Item k json) = true ->
  exists attrs ack,
    DynamoDB.marshall_attributes (spread k) = Some attrs /\
    snd (await (put (at_ (table t) k) data) w) = Fulfilled ack /\
    snd (await (get (at_ (table t) k)) (fst (await (put (at_ (table t) k) data) w)))
    = match json with
      | VUndefined => Fulfilled (VObj attrs)
      | _ => match JSON.parse json with
             | JSON.Ok v => Fulfilled v
             | JSON.Err _ => Rejected JsonSyntaxError
             end
      end.
Proof.
  intros Hreach Hpk Hfree Hs Haccepts.
  destruct (put_at_key t k data w name tbl pk json Hreach Hpk Hfree Hs Haccepts)
    as (attrs & Hattrs & Hnone & Hput).
  exists attrs. eexists. split; [done|]. rewrite Hput. split; [reflexivity|].
  cbn [fst].
  erewrite get_reached; [|by eapply reaches_after_put|]; cycle 1.
  { destruct tbl as [schema stored].
    simpl. erewrite (addresses_same_schema (backend w) _ schema stored); [exact Hpk | done]. }
  cbn [snd]. simpl DynamoDB.items. rewrite lookup_insert_eq.
  destruct (stringify_cases data json Hs) as [-> | (c & s & ->)].
  - rewrite app_nil_r. apply unwrap_raw. by rewrite lookup_prop_missing.
  - rewrite unwrap_envelope; rewrite lookup_prop_app, Hnone; simpl; done.
Qed.

End PutAtKey.

(** * The claims *)

(** C1, as amended. For every JSON value [v] (null, booleans, finite
    numbers, strings, arrays and objects of these: no [undefined] field)
    and every key [k] of the table that has no attribute named [JSON]:
    on an assigned client that the service serves, with an Item the
    service admits, [put(v)] through [table(t).at(k)] is fulfilled, and a
    [get()] through [table(t).at(k)] right after it is fulfilled with
    what [JSON.parse] reads back from the text of [v], a value deep-equal
    to [v] ([v] itself but for the sign of a negative zero). *)
Theorem put_then_get_returns_value (t k v : value) (w : world)
    (name : jsstring) (tbl : DynamoDB.table) (pk : list DynamoDB.key_scalar) :
  reaches t w = Some (name, tbl) ->
  DynamoDB.addresses (backend w) tbl k = Some pk ->
  has_prop (str "JSON") (spread k) = false ->
  JSON.is_json v = true ->
  DynamoDB.accepts (backend w) (Item k (serialization v)) = true ->
  exists w1 w2 ack r,
    await (put (at_ (table t) k) v) w = (w1, Fulfilled ack) /\
    await (get (at_ (table t) k)) w1 = (w2, Fulfilled r) /\
    r = JSON.read_back v /\
    deep_equal r v = true.
Proof.
  intros Hreach Hpk Hfree Hjson Haccepts.
  destruct (parse_stringify v Hjson) as (s & Hs & Hne & Hparse).
  unfold serialization in Haccepts. rewrite Hs in Haccepts.
  destruct (get_after_put t k v w name tbl pk (VStr s) Hreach Hpk Hfree Hs Haccepts)
    as (attrs & ack & _ & Hput & Hget).
  rewrite Hparse in Hget.
  destruct (await (put (at_ (table t) k) v) w) as [w1 r1] eqn:E1.
  cbn [fst snd] in Hput, Hget.
  destruct (await (get (at_ (table t) k)) w1) as [w2 r2] eqn:E2.
  cbn [fst snd] in Hget.
  exists w1, w2, ack, (JSON.read_back v). subst r1 r2.
  repeat split; try done. by apply deep_equal_read_back.
Qed.

(** The scenario [put(reading)] then [get()] at [{pk: 'u1', sk:
    'profile'}] of [users], for a payload with a fraction, an exponent,
    both zeros and a lone surrogate. *)
Lemma put_then_get_returns_value_witness :
  exists w1 w2 ack r,
    await (put (at_ (table (VStr (str "users"))) Examples.profile_key) Examples.reading)
      Examples.ready = (w1, Fulfilled ack) /\
    await (get (at_ (table (VStr (str "users"))) Examples.profile_key)) w1
    = (w2, Fulfilled r) /\
    r = JSON.read_back Examples.reading /\
    deep_equal r Examples.reading = true.
Proof.
  apply (put_then_get_returns_value (VStr (str "users")) Examples.profile_key
           Examples.reading Examples.ready (str "users") Examples.users
           Examples.profile_pk);
    vm_compute; reflexivity.
Defined.

(** C1 as stated fails for a key that has an attribute named [JSON]: on
    the table whose partition key is [JSON], [put(ada)] at the key
    [{JSON: "x"}] is fulfilled and stores the item under the serialized
    payload, so the [get()] at the same key finds no item and is
    fulfilled with [null], which is not deep-equal to [ada]. *)
Lemma put_then_get_key_named_JSON :
  JSON.is_json Examples.ada = true /\
  DynamoDB.addresses Examples.service Examples.envelopes Examples.envelope_key
  = Some [DynamoDB.KS (str "x")] /\
  is_rejected
    (snd (await (put (at_ (table (VStr (str "envelopes"))) Examples.envelope_key)
                   Examples.ada) Examples.ready)) = false /\
  snd (await (get (at_ (table (VStr (str "envelopes"))) Examples.envelope_key))
         (fst (await (put (at_ (table (VStr (str "envelopes"))) Examples.envelope_key)
                        Examples.ada) Examples.ready)))
  = Fulfilled VNull /\
  deep_equal VNull Examples.ada = false.
Proof. repeat split; vm_compute; reflexivity. Qed.

(** C2. For every key of a reached table (a key the document client
    marshals, the service takes and the table's key schema fits) under
    which no item is stored, [get()] is fulfilled with [null], the
    absent-marker: the promise is not rejected, and its value is
    [null], not [undefined]. *)
Theorem get_absent_is_null (t k : value) (w : world)
    (name : jsstring) (tbl : DynamoDB.table) (pk : list DynamoDB.key_scalar) :
  reaches t w = Some (name, tbl) ->
  DynamoDB.addresses (backend w) tbl k = Some pk ->
  DynamoDB.items tbl !! pk = None ->
  exists w1,
    await (get (at_ (table t) k)) w = (w1, Fulfilled VNull) /\
    Fulfilled VNull <> Fulfilled VUndefined.
Proof.
  intros Hreach Hpk Hnone.
  rewrite (get_reached t k w name tbl pk Hreach Hpk), Hnone.
  eexists. split; [by rewrite unwrap_absent | discriminate].
Qed.

(** A [get()] on the empty table [users]. *)
Lemma get_absent_is_null_witness :
  exists w1,
    await (get (at_ (table (VStr (str "users"))) Examples.profile_key)) Examples.ready
    = (w1, Fulfilled VNull) /\
    Fulfilled VNull <> Fulfilled VUndefined.
Proof.
  apply (get_absent_is_null (VStr (str "users")) Examples.profile_key Examples.ready
           (str "users") Examples.users Examples.profile_pk);
    vm_compute; reflexivity.
Defined.

(** C3. For every configuration in which, after the environment
    defaults, [identityPoolId], [accessKeyId] and [secretAccessKey] are
    all present (truthy), [init] takes the identity-pool branch: with a
    region the client constructors take, the client it assigns holds
    the Federated credentials of that pool and region; with a region
    they refuse, their error rejects [init] and nothing is assigned. In
    neither case is a client with the static pair assigned. *)
Theorem init_prefers_identity_pool (options : value) (w : world) :
  options <> VNull ->
  truthy (identityPoolId (destructure options w)) = true ->
  truthy (accessKeyId (destructure options w)) = true ->
  truthy (secretAccessKey (destructure options w)) = true ->
  await (init options) w
  = (if DynamoDB.constructs (region (destructure options w))
     then (World
             (Some (DynamoDB.ClientConfig (region (destructure options w))
                      (DynamoDB.Federated (region (destructure options w))
                         (identityPoolId (destructure options w)))))
             (process_env w) (backend w),
           Fulfilled VUndefined)
     else (w, Rejected region_missing)).
Proof.
  intros Hnull Hpool _ _. rewrite await_init by done. cbv zeta. by rewrite Hpool.
Qed.

(** [init] with a pool and a static pair in the options. *)
Lemma init_prefers_identity_pool_witness :
  await (init Examples.both_options) Examples.fresh
  = (World
       (Some (DynamoDB.ClientConfig (VStr (str "us-east-1"))
                (DynamoDB.Federated (VStr (str "us-east-1"))
                   (VStr (str "us-east-1:exampleId")))))
       (Some ∅) Examples.service,
     Fulfilled VUndefined).
Proof.
  exact (init_prefers_identity_pool Examples.both_options Examples.fresh
           ltac:(discriminate) eq_refl eq_refl eq_refl).
Defined.

(** C4. For every configuration in which, after environment fallback,
    [identityPoolId] is missing and [accessKeyId] and [secretAccessKey]
    are not both present, the promise [init] returns is already rejected
    with [Error("Insufficient credentials provided")] when the call
    returns: the error is raised in the synchronous part of the body,
    before any [await], and the world, [client] included, is unchanged. *)
Theorem init_insufficient_credentials (options : value) (w : world) :
  options <> VNull ->
  truthy (identityPoolId (destructure options w)) = false ->
  truthy (accessKeyId (destructure options w))
  && truthy (secretAccessKey (destructure options w)) = false ->
  init options w = (w, Settled (Rejected insufficient_credentials)) /\
  await (init options) w = (w, Rejected insufficient_credentials).
Proof.
  intros Hnull Hpool Hpair. rewrite <- truthy_and in Hpair.
  unfold await, init.
  destruct options; try done; by rewrite Hpool, Hpair.
Qed.

(** An access key without its secret, and nothing in the environment. *)
Lemma init_insufficient_credentials_witness :
  init (VObj [(str "accessKeyId", VStr (str "AKIAEXAMPLE"))]) Examples.fresh
  = (Examples.fresh, Settled (Rejected insufficient_credentials)) /\
  await (init (VObj [(str "accessKeyId", VStr (str "AKIAEXAMPLE"))])) Examples.fresh
  = (Examples.fresh, Rejected insufficient_credentials).
Proof.
  apply (init_insufficient_credentials
           (VObj [(str "accessKeyId", VStr (str "AKIAEXAMPLE"))]) Examples.fresh);
    [discriminate | reflexivity | reflexivity].
Defined.

(** C5, as amended. For every fulfilled [put(data)] of a payload whose
    serialization is a string [s], at a key that has no attribute named
    [JSON]: the one command the service received is a PutCommand whose
    Item is the key's attributes followed by one more attribute, [JSON],
    holding [s]; and in the table the key's attributes as marshalled,
    followed by that attribute, are stored under the item's primary key
    whatever was stored there before, all else unchanged. *)
Theorem put_writes_key_and_envelope (t k data : value) (w w1 : world) (ack : value)
    (s : jsstring) :
  has_prop (str "JSON") (spread k) = false ->
  JSON.stringify data = inr (VStr s) ->
  await (put (at_ (table t) k) data) w = (w1, Fulfilled ack) ->
  exists name tbl pk attrs,
    DynamoDB.received (backend w1)
    = DynamoDB.received (backend w)
      ++ [DynamoDB.PutCommand (VStr name) (VObj (spread k ++ [(str "JSON", VStr s)]))] /\
    DynamoDB.marshall_attributes (spread k) = Some attrs /\
    has_prop (str "JSON") attrs = false /\
    DynamoDB.tables (backend w) !! name = Some tbl /\
    DynamoDB.tables (backend w1)
    = <[name := DynamoDB.Table (DynamoDB.key_schema tbl)
                  (<[pk := attrs ++ [(str "JSON", VStr s)]]> (DynamoDB.items tbl))]>
        (DynamoDB.tables (backend w)).
Proof.
  intros Hfree Hs Hput.
  apply put_fulfilled_inv in Hput
    as (name & tbl & json & item & pk & Hreach & Hs' & Hm & _ & Hpk & -> & _).
  rewrite Hs in Hs'. injection Hs' as <-.
  apply reaches_inv in Hreach as (c & r & _ & _ & _ & _ & Htbl).
  unfold Item in *.
  rewrite set_prop_missing in * by (done || apply envelope_is_no_index).
  rewrite marshall_input_object, marshall_attributes_app in Hm.
  destruct (DynamoDB.marshall_attributes (spread k)) as [attrs|] eqn:Hattrs; [|done].
  simpl in Hm. injection Hm as <-.
  exists name, tbl, pk, attrs. repeat split; try done.
  destruct (has_prop (str "JSON") attrs) eqn:E; [|done].
  by rewrite (marshall_attributes_has _ _ _ Hattrs E) in Hfree.
Qed.

(** The Item of [put({name: 'Ada', age: 30})] at [{pk, sk}]. *)
Lemma put_writes_key_and_envelope_witness :
  exists name tbl pk attrs,
    DynamoDB.received
      (backend (fst (await (put (at_ (table (VStr (str "users"))) Examples.profile_key)
                              Examples.ada) Examples.ready)))
    = DynamoDB.received (backend Examples.ready)
      ++ [DynamoDB.PutCommand (VStr name)
            (VObj (spread Examples.profile_key
                   ++ [(str "JSON", serialization Examples.ada)]))] /\
    DynamoDB.marshall_attributes (spread Examples.profile_key) = Some attrs /\
    has_prop (str "JSON") attrs = false /\
    DynamoDB.tables (backend Examples.ready) !! name = Some tbl /\
    DynamoDB.tables
      (backend (fst (await (put (at_ (table (VStr (str "users"))) Examples.profile_key)
                              Examples.ada) Examples.ready)))
    = <[name := DynamoDB.Table (DynamoDB.key_schema tbl)
                  (<[pk := attrs ++ [(str "JSON", serialization Examples.ada)]]>
                     (DynamoDB.items tbl))]>
        (DynamoDB.tables (backend Examples.ready)).
Proof.
  refine (put_writes_key_and_envelope (VStr (str "users")) Examples.profile_key
            Examples.ada Examples.ready _ _ _ _ _ _);
    vm_compute; reflexivity.
Defined.

(** C5 as stated fails in two ways. At a key that has an attribute named
    [JSON], the fulfilled [put(ada)] at [{JSON: "x"}] sends an Item with
    the single attribute [JSON]: not the key's attributes plus one. And
    for a payload whose serialization is [undefined], the fulfilled
    [put(undefined)] at [{pk, sk}] stores the key's two attributes and
    no attribute named [JSON]. *)
Lemma put_item_is_not_key_plus_envelope :
  (exists item,
     is_rejected
       (snd (await (put (at_ (table (VStr (str "envelopes"))) Examples.envelope_key)
                      Examples.ada) Examples.ready)) = false /\
     DynamoDB.received
       (backend (fst (await (put (at_ (table (VStr (str "envelopes")))
                                    Examples.envelope_key)
                               Examples.ada) Examples.ready)))
     = [DynamoDB.PutCommand (VStr (str "envelopes")) (VObj item)] /\
     length item = 1 /\
     length (spread Examples.envelope_key) = 1) /\
  (exists tbl item,
     is_rejected
       (snd (await (put (at_ (table (VStr (str "users"))) Examples.profile_key)
                      VUndefined) Examples.ready)) = false /\
     DynamoDB.tables
       (backend (fst (await (put (at_ (table (VStr (str "users"))) Examples.profile_key)
                               VUndefined) Examples.ready))) !! str "users"
     = Some tbl /\
     DynamoDB.items tbl !! Examples.profile_pk = Some item /\
     item = spread Examples.profile_key /\
     has_prop (str "JSON") item = false).
Proof.
  split.
  - eexists. repeat split; vm_compute; reflexivity.
  - eexists _, _. repeat split; vm_compute; reflexivity.
Qed.

(** C6. For every item that is stored under a key of a reached table
    and has no attribute named [JSON], [get()] at that key is fulfilled
    with the item's attributes as they are stored: nothing is parsed and
    nothing is changed. *)
Theorem get_item_without_envelope (t k : value) (w : world)
    (name : jsstring) (tbl : DynamoDB.table) (pk : list DynamoDB.key_scalar)
    (item : list (jsstring * value)) :
  reaches t w = Some (name, tbl) ->
  DynamoDB.addresses (backend w) tbl k = Some pk ->
  DynamoDB.items tbl !! pk = Some item ->
  has_prop (str "JSON") item = false ->
  exists w1, await (get (at_ (table t) k)) w = (w1, Fulfilled (VObj item)).
Proof.
  intros Hreach Hpk Hitem Hnone.
  rewrite (get_reached t k w name tbl pk Hreach Hpk), Hitem.
  eexists. f_equal. apply unwrap_raw. by rewrite lookup_prop_missing.
Qed.

(** An item another tool wrote: [{pk, sk, plan}]. *)
Lemma get_item_without_envelope_witness :
  exists w1,
    await (get (at_ (table (VStr (str "users"))) Examples.profile_key))
      (Examples.with_item Examples.foreign_item)
    = (w1, Fulfilled (VObj Examples.foreign_item)).
Proof.
  apply (get_item_without_envelope (VStr (str "users")) Examples.profile_key
           (Examples.with_item Examples.foreign_item) (str "users")
           (DynamoDB.Table (DynamoDB.key_schema Examples.users)
              {[ Examples.profile_pk := Examples.foreign_item ]})
           Examples.profile_pk Examples.foreign_item);
    vm_compute; reflexivity.
Defined.

(** C7. For every payload that [JSON.stringify] refuses, [put(data)] is
    rejected and leaves the world as it was: no command reaches the
    service and no table changes. On an assigned client the rejection is
    the serializer's own TypeError, raised while the argument of [send]
    is evaluated, before [send] is called. *)
Theorem put_unserializable_has_no_effect (t k data : value) (w : world)
    (e : type_error) :
  JSON.stringify data = inl e ->
  exists err,
    await (put (at_ (table t) k) data) w = (w, Rejected err) /\
    (client w <> None -> err = TypeError e).
Proof.
  intros Hs. rewrite await_put, Hs.
  destruct (client w); eexists; (split; [reflexivity|]); [done|congruence].
Qed.

(** A payload with a BigInt field, which [JSON.stringify] refuses. *)
Lemma put_unserializable_has_no_effect_witness :
  exists err,
    await (put (at_ (table (VStr (str "users"))) Examples.profile_key)
             (VObj [(str "visits", VBigInt 3)])) Examples.ready
    = (Examples.ready, Rejected err) /\
    (client Examples.ready <> None -> err = TypeError CannotSerialize).
Proof.
  apply (put_unserializable_has_no_effect (VStr (str "users")) Examples.profile_key
           (VObj [(str "visits", VBigInt 3)]) Examples.ready CannotSerialize).
  reflexivity.
Defined.

(** C8, as amended. Where [client] is unassigned and every [init]
    awaited since has been rejected, [client] is unassigned still and
    nothing has reached the service. A call to [get()] or [put(data)],
    in whatever world it is made, returns a pending promise without
    touching that world; when its body is resumed, after the import it
    awaits, while no [init] has been fulfilled, the promise is rejected
    with the TypeError of reading [send] on [undefined], which is not an
    error of the service, and the world is unchanged: no command reaches
    the service. So it is for a call awaited at once in such a world. *)
Theorem get_put_before_init (t k data : value) (w0 w : world) (calls : list value) :
  client w = None ->
  forallb is_rejected (snd (init_each calls w)) = true ->
  let w' := fst (init_each calls w) in
  client w' = None /\
  DynamoDB.received (backend w') = DynamoDB.received (backend w) /\
  fst (get (at_ (table t) k) w0) = w0 /\
  fst (put (at_ (table t) k) data w0) = w0 /\
  run (snd (get (at_ (table t) k) w0)) w' = (w', Rejected undefined_client) /\
  run (snd (put (at_ (table t) k) data w0)) w' = (w', Rejected undefined_client) /\
  await (get (at_ (table t) k)) w' = (w', Rejected undefined_client) /\
  await (put (at_ (table t) k) data) w' = (w', Rejected undefined_client) /\
  (forall e, undefined_client <> BackendError e).
Proof.
  intros Hnone Hcalls. cbv zeta.
  rewrite (init_each_rejected calls w Hcalls).
  rewrite await_get, await_put. simpl. rewrite Hnone.
  by repeat split.
Qed.

(** Calls made in the fresh world and resumed after [init()] and
    [init({accessKeyId})] have both been rejected. *)
Lemma get_put_before_init_witness :
  let w := fst (init_each [VUndefined; VObj [(str "accessKeyId", VStr (str "AKIAEXAMPLE"))]]
                  Examples.fresh) in
  client w = None /\
  DynamoDB.received (backend w) = DynamoDB.received (backend Examples.fresh) /\
  fst (get (at_ (table (VStr (str "users"))) Examples.profile_key) Examples.fresh)
  = Examples.fresh /\
  fst (put (at_ (table (VStr (str "users"))) Examples.profile_key) Examples.ada
         Examples.fresh)
  = Examples.fresh /\
  run (snd (get (at_ (table (VStr (str "users"))) Examples.profile_key) Examples.fresh)) w
  = (w, Rejected undefined_client) /\
  run (snd (put (at_ (table (VStr (str "users"))) Examples.profile_key) Examples.ada
              Examples.fresh)) w
  = (w, Rejected undefined_client) /\
  await (get (at_ (table (VStr (str "users"))) Examples.profile_key)) w
  = (w, Rejected undefined_client) /\
  await (put (at_ (table (VStr (str "users"))) Examples.profile_key) Examples.ada) w
  = (w, Rejected undefined_client) /\
  (forall e, undefined_client <> BackendError e).
Proof.
  apply (get_put_before_init (VStr (str "users")) Examples.profile_key Examples.ada
           Examples.fresh Examples.fresh
           [VUndefined; VObj [(str "accessKeyId", VStr (str "AKIAEXAMPLE"))]]);
    reflexivity.
Defined.

(** C8 as stated fails for a call that is made before any [init] and
    resumed after one: [get()] is called in the fresh world, where no
    [init] was ever made, then [init(static_options)] is awaited, then
    the promise of the [get()] is run. The body reads [client] only when
    it is resumed, finds the client the [init] assigned, and the promise
    is fulfilled with [null] after the service has received the
    GetCommand. *)
Lemma get_before_init_is_served_after_it :
  client Examples.fresh = None /\
  fst (get (at_ (table (VStr (str "users"))) Examples.profile_key) Examples.fresh)
  = Examples.fresh /\
  snd (await (init Examples.static_options) Examples.fresh) = Fulfilled VUndefined /\
  snd (run (snd (get (at_ (table (VStr (str "users"))) Examples.profile_key)
                   Examples.fresh))
         (fst (await (init Examples.static_options) Examples.fresh)))
  = Fulfilled VNull /\
  DynamoDB.received
    (backend
       (fst (run (snd (get (at_ (table (VStr (str "users"))) Examples.profile_key)
                         Examples.fresh))
               (fst (await (init Examples.static_options) Examples.fresh)))))
  = [DynamoDB.GetCommand (VStr (str "users")) Examples.profile_key].
Proof. repeat split; vm_compute; reflexivity. Qed.

(** C9. When the [JSON] attribute of the item stored under a key of a
    reached table is the serialization of [null], [get()] at that key is
    fulfilled with [null]; where no item is stored under the key [get()]
    is fulfilled with [null] as well, so the two results are the same
    value. *)
Theorem stored_null_reads_as_absent (t k : value) (w w' : world)
    (name : jsstring) (tbl tbl' : DynamoDB.table) (pk : list DynamoDB.key_scalar)
    (item : list (jsstring * value)) :
  reaches t w = Some (name, tbl) ->
  DynamoDB.addresses (backend w) tbl k = Some pk ->
  DynamoDB.items tbl !! pk = Some item ->
  JSON.stringify VNull = inr (lookup_prop (str "JSON") item) ->
  reaches t w' = Some (name, tbl') ->
  DynamoDB.addresses (backend w') tbl' k = Some pk ->
  DynamoDB.items tbl' !! pk = None ->
  snd (await (get (at_ (table t) k)) w) = Fulfilled VNull /\
  snd (await (get (at_ (table t) k)) w') = snd (await (get (at_ (table t) k)) w).
Proof.
  intros Hreach Hpk Hitem Hnull Hreach' Hpk' Hnone.
  rewrite (get_reached t k w name tbl pk Hreach Hpk), Hitem.
  rewrite (get_reached t k w' name tbl' pk Hreach' Hpk'), Hnone.
  injection Hnull as Hnull.
  cbn [snd]. rewrite unwrap_absent, unwrap_envelope; rewrite <- Hnull; done.
Qed.

(** The item [put(null)] stores, against the empty table. *)
Lemma stored_null_reads_as_absent_witness :
  snd (await (get (at_ (table (VStr (str "users"))) Examples.profile_key))
         (Examples.with_item Examples.null_item))
  = Fulfilled VNull /\
  snd (await (get (at_ (table (VStr (str "users"))) Examples.profile_key)) Examples.ready)
  = snd (await (get (at_ (table (VStr (str "users"))) Examples.profile_key))
           (Examples.with_item Examples.null_item)).
Proof.
  apply (stored_null_reads_as_absent (VStr (str "users")) Examples.profile_key
           (Examples.with_item Examples.null_item) Examples.ready (str "users")
           (DynamoDB.Table (DynamoDB.key_schema Examples.users)
              {[ Examples.profile_pk := Examples.null_item ]})
           Examples.users Examples.profile_pk Examples.null_item);
    vm_compute; reflexivity.
Defined.

(** C10. For every fulfilled [put(data)] at a key that has an attribute
    named [JSON] (an object: every name once): the Item sent is the
    key's attributes with the value of [JSON] replaced by what
    [JSON.stringify(data)] returned, whatever the key's own value was;
    reading [JSON] on the stored item gives that serialization, the
    string when it is one, and [undefined] when it is [undefined], the
    attribute being absent then and only then; the key's own value is
    not stored. *)
Theorem put_replaces_key_attribute (t k data : value) (w w1 : world) (ack : value) :
  has_prop (str "JSON") (spread k) = true ->
  distinct_names (spread k) = true ->
  await (put (at_ (table t) k) data) w = (w1, Fulfilled ack) ->
  exists name tbl pk stored,
    DynamoDB.received (backend w1)
    = DynamoDB.received (backend w)
      ++ [DynamoDB.PutCommand (VStr name)
            (VObj (replace_prop (str "JSON") (serialization data) (spread k)))] /\
    (forall x, Item (VObj (set_prop (str "JSON") x (spread k))) (serialization data)
               = Item k (serialization data)) /\
    DynamoDB.tables (backend w) !! name = Some tbl /\
    DynamoDB.tables (backend w1)
    = <[name := DynamoDB.Table (DynamoDB.key_schema tbl)
                  (<[pk := stored]> (DynamoDB.items tbl))]>
        (DynamoDB.tables (backend w)) /\
    JSON.stringify data = inr (lookup_prop (str "JSON") stored) /\
    (has_prop (str "JSON") stored = false <-> JSON.stringify data = inr VUndefined).
Proof.
  intros Hhas Hnd%distinct_names_NoDup Hput.
  apply put_fulfilled_inv in Hput
    as (name & tbl & json & item & pk & Hreach & Hs & Hm & _ & Hpk & -> & _).
  apply reaches_inv in Hreach as (c & r & _ & _ & _ & _ & Htbl).
  unfold serialization. rewrite Hs.
  assert (Hstored :
            match json with
            | VUndefined => has_prop (str "JSON") item = false
            | _ => lookup_prop (str "JSON") item = json
            end).
  { unfold Item in Hm. rewrite set_prop_present in Hm by done.
    rewrite marshall_input_object in Hm.
    destruct (DynamoDB.marshall_attributes _) as [attrs|] eqn:Hattrs; [|done].
    injection Hm as <-.
    destruct (stringify_cases data json Hs) as [-> | (c0 & s & ->)].
    - by apply (marshall_attributes_removed _ (spread k)).
    - apply (marshall_attributes_string _ _ _ _ Hattrs).
      by apply lookup_replace_prop. }
  exists name, tbl, pk, item. split; [|split; [|split; [|split; [|split]]]]; try done.
  - simpl. unfold Item. by rewrite set_prop_present.
  - intros x. unfold Item. simpl spread. by rewrite set_prop_twice.
  - f_equal.
    destruct (stringify_cases data json Hs) as [-> | (c0 & s & ->)]; [|done].
    symmetry. by apply lookup_prop_missing.
  - destruct (stringify_cases data json Hs) as [-> | (c0 & s & ->)]; [done|].
    split; [|done]. intros Hmissing.
    by rewrite (lookup_prop_missing _ _ Hmissing) in Hstored.
Qed.

(** [put(ada)] at [{pk, sk, JSON: "mine"}]. *)
Lemma put_replaces_key_attribute_witness :
  exists name tbl pk stored,
    DynamoDB.received
      (backend
         (fst (await (put (at_ (table (VStr (str "users")))
                             (VObj (spread Examples.profile_key
                                    ++ [(str "JSON", VStr (str "mine"))])))
                        Examples.ada) Examples.ready)))
    = DynamoDB.received (backend Examples.ready)
      ++ [DynamoDB.PutCommand (VStr name)
            (VObj (replace_prop (str "JSON") (serialization Examples.ada)
                     (spread Examples.profile_key
                      ++ [(str "JSON", VStr (str "mine"))])))] /\
    (forall x,
       Item (VObj (set_prop (str "JSON") x
                     (spread Examples.profile_key ++ [(str "JSON", VStr (str "mine"))])))
         (serialization Examples.ada)
       = Item (VObj (spread Examples.profile_key ++ [(str "JSON", VStr (str "mine"))]))
           (serialization Examples.ada)) /\
    DynamoDB.tables (backend Examples.ready) !! name = Some tbl /\
    DynamoDB.tables
      (backend
         (fst (await (put (at_ (table (VStr (str "users")))
                             (VObj (spread Examples.profile_key
                                    ++ [(str "JSON", VStr (str "mine"))])))
                        Examples.ada) Examples.ready)))
    = <[name := DynamoDB.Table (DynamoDB.key_schema tbl)
                  (<[pk := stored]> (DynamoDB.items tbl))]>
        (DynamoDB.tables (backend Examples.ready)) /\
    JSON.stringify Examples.ada = inr (lookup_prop (str "JSON") stored) /\
    (has_prop (str "JSON") stored = false <-> JSON.stringify Examples.ada = inr VUndefined).
Proof.
  refine (put_replaces_key_attribute (VStr (str "users"))
            (VObj (spread Examples.profile_key ++ [(str "JSON", VStr (str "mine"))]))
            Examples.ada Examples.ready _ _ _ _ _);
    [reflexivity | reflexivity | vm_compute; reflexivity].
Defined.

(** * More of the code *)

(** ** [init]: the credentials it chooses and the client it leaves *)

(** X1. With no identity pool and both halves of the static pair
    present, [init] has settled when the call returns, this branch
    having no [await]: with a region the client constructor takes it has
    assigned a client holding the static pair, with a region the
    constructor refuses it is rejected with that error and has assigned
    nothing. *)
Theorem init_static_credentials (options : value) (w : world) :
  options <> VNull ->
  truthy (identityPoolId (destructure options w)) = false ->
  truthy (accessKeyId (destructure options w)) = true ->
  truthy (secretAccessKey (destructure options w)) = true ->
  init options w
  = (if DynamoDB.constructs (region (destructure options w))
     then (World
             (Some (DynamoDB.ClientConfig (region (destructure options w))
                      (DynamoDB.Static (accessKeyId (destructure options w))
                         (secretAccessKey (destructure options w)))))
             (process_env w) (backend w),
           Settled (Fulfilled VUndefined))
     else (w, Settled (Rejected region_missing))).
Proof.
  intros Hnull Hpool Hak Hsk. unfold init.
  assert (Hpair : truthy (and_ (accessKeyId (destructure options w))
                           (secretAccessKey (destructure options w))) = true)
    by (by rewrite truthy_and, Hak, Hsk).
  destruct options; try done; rewrite Hpool, Hpair;
    unfold assign_client, DynamoDB.DynamoDBClient; by destruct (DynamoDB.constructs _).
Qed.

Lemma init_static_credentials_witness :
  init Examples.static_options Examples.fresh
  = (World
       (Some (DynamoDB.ClientConfig (VStr (str "us-east-1"))
                (DynamoDB.Static (VStr (str "AKIAEXAMPLE")) (VStr (str "secret")))))
       (Some ∅) Examples.service,
     Settled (Fulfilled VUndefined)).
Proof.
  exact (init_static_credentials Examples.static_options Examples.fresh
           ltac:(discriminate) eq_refl eq_refl eq_refl).
Defined.

(** X2. [init] is fulfilled exactly when its argument is not [null],
    after the defaults the identity pool is present or both halves of
    the static pair are, and the region is one the client constructors
    take: [undefined], [null] or truthy. *)
Theorem init_fulfilled_iff (options : value) (w : world) :
  is_rejected (snd (await (init options) w)) = false <->
  options <> VNull /\
  truthy (identityPoolId (destructure options w))
  || truthy (accessKeyId (destructure options w))
     && truthy (secretAccessKey (destructure options w)) = true /\
  DynamoDB.constructs (region (destructure options w)) = true.
Proof.
  destruct (null_or_not options) as [->|Hnull]; [by split; [|intros [? _]]|].
  rewrite await_init by done. cbv zeta.
  destruct (truthy (identityPoolId _)), (truthy (accessKeyId _) && truthy (secretAccessKey _)),
    (DynamoDB.constructs _); simpl; split; try done; by intros (_ & ? & ?).
Qed.

(** X3. A default is taken from the environment only for an option that
    is [undefined]: an [identityPoolId] given explicitly with a falsy
    value other than [undefined] switches the identity pool off even when
    the environment names one, and a present static pair is then used,
    with a region the client constructor takes. *)
Theorem init_explicit_falsy_pool_wins (options : value) (w : world) :
  get_prop options (str "identityPoolId") <> VUndefined ->
  truthy (get_prop options (str "identityPoolId")) = false ->
  truthy (accessKeyId (destructure options w)) = true ->
  truthy (secretAccessKey (destructure options w)) = true ->
  DynamoDB.constructs (region (destructure options w)) = true ->
  await (init options) w
  = (World
       (Some (DynamoDB.ClientConfig (region (destructure options w))
                (DynamoDB.Static (accessKeyId (destructure options w))
                   (secretAccessKey (destructure options w)))))
       (process_env w) (backend w),
     Fulfilled VUndefined).
Proof.
  intros Hdef Hfalsy Hak Hsk Hregion.
  assert (Hpool : identityPoolId (destructure options w)
                  = get_prop options (str "identityPoolId")).
  { unfold destructure, with_default. simpl.
    by destruct (get_prop options (str "identityPoolId")). }
  assert (Hnull : options <> VNull) by (intros ->; by apply Hdef).
  rewrite (await_init options w Hnull). cbv zeta.
  by rewrite Hpool, Hfalsy, Hak, Hsk, Hregion.
Qed.

(** The environment names a pool, the options say [identityPoolId: null]. *)
Lemma init_explicit_falsy_pool_wins_witness :
  env_var (str "AWS_IDENTITY_POOL_ID") Examples.server = VStr (str "eu-west-1:pool") /\
  await (init Examples.static_over_pool) Examples.server
  = (World
       (Some (DynamoDB.ClientConfig (VStr (str "us-east-1"))
                (DynamoDB.Static (VStr (str "AKIAEXAMPLE")) (VStr (str "secret")))))
       (Some Examples.environment) Examples.service,
     Fulfilled VUndefined).
Proof.
  split; [reflexivity|].
  exact (init_explicit_falsy_pool_wins Examples.static_over_pool Examples.server
           ltac:(discriminate) eq_refl eq_refl eq_refl eq_refl).
Defined.

(** X4. Called without options, [init] takes all four parameters from
    the environment: the pool named there is used with the region named
    there, unless that region is one the client constructor refuses (an
    empty [AWS_REGION]). Where there is no [process] nothing can be
    defaulted and the call is rejected for want of credentials. *)
Theorem init_without_options (w : world) :
  (truthy (env_var (str "AWS_IDENTITY_POOL_ID") w) = true ->
   await (init VUndefined) w
   = (if DynamoDB.constructs (env_var (str "AWS_REGION") w)
      then (World
              (Some (DynamoDB.ClientConfig (env_var (str "AWS_REGION") w)
                       (DynamoDB.Federated (env_var (str "AWS_REGION") w)
                          (env_var (str "AWS_IDENTITY_POOL_ID") w))))
              (process_env w) (backend w),
            Fulfilled VUndefined)
      else (w, Rejected region_missing))) /\
  (process_env w = None ->
   await (init VUndefined) w = (w, Rejected insufficient_credentials)).
Proof.
  split.
  - intros Hpool. rewrite await_init by done. cbv zeta.
    change (identityPoolId (destructure VUndefined w))
      with (env_var (str "AWS_IDENTITY_POOL_ID") w).
    change (region (destructure VUndefined w)) with (env_var (str "AWS_REGION") w).
    by rewrite Hpool.
  - intros Hnone. unfold await, init, destructure, env_var. by rewrite Hnone.
Qed.

Lemma init_without_options_witness :
  await (init VUndefined) Examples.server
  = (World
       (Some (DynamoDB.ClientConfig (VStr (str "eu-west-1"))
                (DynamoDB.Federated (VStr (str "eu-west-1")) (VStr (str "eu-west-1:pool")))))
       (Some Examples.environment) Examples.service,
     Fulfilled VUndefined) /\
  await (init VUndefined) Examples.browser
  = (Examples.browser, Rejected insufficient_credentials).
Proof.
  split.
  - exact (proj1 (init_without_options Examples.server) eq_refl).
  - exact (proj2 (init_without_options Examples.browser) eq_refl).
Defined.

(** X5. [init] talks to no one: whatever it is given, the service and
    the environment are as before. *)
Theorem init_leaves_backend (options : value) (w : world) :
  backend (fst (await (init options) w)) = backend w /\
  process_env (fst (await (init options) w)) = process_env w.
Proof. apply init_keeps_backend. Qed.

(** X6. The last fulfilled [init] wins: whatever an earlier call did, a
    fulfilled call leaves the world it would have left on its own. *)
Theorem init_last_fulfilled_wins (first second : value) (w : world) :
  is_rejected (snd (await (init second) w)) = false ->
  await (init second) (fst (await (init first) w)) = await (init second) w.
Proof.
  intros Hok.
  assert (Hsecond : second <> VNull) by (intros ->; done).
  destruct (init_keeps_backend first w) as [Hback Henv].
  set (w' := fst (await (init first) w)) in *.
  revert Hok. rewrite !await_init by done. cbv zeta.
  rewrite (destructure_same_environment second w w' Henv).
  rewrite Hback, Henv.
  repeat match goal with |- context [if ?c then _ else _] => destruct c end; done.
Qed.

Lemma init_last_fulfilled_wins_witness :
  await (init Examples.static_options)
    (fst (await (init Examples.both_options) Examples.fresh))
  = await (init Examples.static_options) Examples.fresh.
Proof.
  apply (init_last_fulfilled_wins Examples.both_options Examples.static_options
           Examples.fresh).
  reflexivity.
Defined.

(** X7. A rejected [init] keeps the client an earlier call assigned: the
    throw comes before the assignment. *)
Theorem init_rejected_keeps_client (options : value) (w w1 : world) (e : error) :
  await (init options) w = (w1, Rejected e) -> client w1 = client w.
Proof. intros H. by rewrite (init_rejected_keeps_world options w w1 e H). Qed.

Lemma init_rejected_keeps_client_witness :
  client (fst (await (init (VObj [])) Examples.ready)) = client Examples.ready.
Proof.
  apply (init_rejected_keeps_client (VObj []) Examples.ready _
           insufficient_credentials).
  reflexivity.
Defined.

(** X19. A region that is falsy without being [undefined] or [null]
    (the empty string, zero, [false]) makes the client constructor
    throw: with credentials present, [init] is rejected with
    [Error("Region is missing")] and assigns nothing, in the identity
    pool branch as in the static one. *)
Theorem init_region_refused (options : value) (w : world) :
  options <> VNull ->
  truthy (identityPoolId (destructure options w))
  || truthy (accessKeyId (destructure options w))
     && truthy (secretAccessKey (destructure options w)) = true ->
  DynamoDB.constructs (region (destructure options w)) = false ->
  await (init options) w = (w, Rejected region_missing).
Proof.
  intros Hnull Hcreds Hregion. rewrite await_init by done. cbv zeta.
  rewrite Hregion.
  destruct (truthy (identityPoolId _)); [done|].
  rewrite orb_false_l in Hcreds. by rewrite Hcreds.
Qed.

(** [init({region: '', identityPoolId, accessKeyId, secretAccessKey})]. *)
Lemma init_region_refused_witness :
  await (init Examples.empty_region) Examples.fresh
  = (Examples.fresh, Rejected region_missing).
Proof.
  exact (init_region_refused Examples.empty_region Examples.fresh
           ltac:(discriminate) eq_refl eq_refl).
Defined.

(** ** [get] and [put]: what they store, read back and leave alone

    In what follows a table is reached when the client is assigned, the
    service serves it and the table name resolves to a table that
    exists ([reaches]); a key of the table is one the document client
    marshals, the service takes and the table's key schema fits
    ([DynamoDB.addresses]); an Item is accepted when the client marshals
    it and the service takes it ([DynamoDB.accepts]). *)

(** X8. On a reached table, at a key of the table without an attribute
    named [JSON], with an accepted Item: [put(data)] is fulfilled and
    [get()] at the same key returns what [JSON.parse] reads from the
    text [JSON.stringify(data)] gave, for every payload that serializes
    to a string [JSON.parse] reads, also one that JSON cannot hold in
    full (an [undefined] field is gone, NaN comes back as [null]). *)
Theorem put_then_get_parses_serialization (t k data v : value) (w : world)
    (name : jsstring) (tbl : DynamoDB.table) (pk : list DynamoDB.key_scalar)
    (s : jsstring) :
  reaches t w = Some (name, tbl) ->
  DynamoDB.addresses (backend w) tbl k = Some pk ->
  has_prop (str "JSON") (spread k) = false ->
  JSON.stringify data = inr (VStr s) ->
  DynamoDB.accepts (backend w) (Item k (VStr s)) = true ->
  JSON.parse (VStr s) = JSON.Ok v ->
  is_rejected (snd (await (put (at_ (table t) k) data) w)) = false /\
  snd (await (get (at_ (table t) k)) (fst (await (put (at_ (table t) k) data) w)))
  = Fulfilled v.
Proof.
  intros Hreach Hpk Hfree Hs Haccepts Hparse.
  destruct (get_after_put t k data w name tbl pk (VStr s) Hreach Hpk Hfree Hs Haccepts)
    as (attrs & ack & _ & Hput & Hget).
  rewrite Hput, Hget, Hparse. done.
Qed.

Lemma put_then_get_parses_serialization_witness :
  is_rejected
    (snd (await (put (at_ (table (VStr (str "users"))) Examples.profile_key)
                   Examples.lossy) Examples.ready)) = false /\
  snd (await (get (at_ (table (VStr (str "users"))) Examples.profile_key))
         (fst (await (put (at_ (table (VStr (str "users"))) Examples.profile_key)
                        Examples.lossy) Examples.ready)))
  = Fulfilled Examples.lossy_read.
Proof.
  apply (put_then_get_parses_serialization (VStr (str "users")) Examples.profile_key
           Examples.lossy Examples.lossy_read Examples.ready (str "users")
           Examples.users Examples.profile_pk
           (match serialization Examples.lossy with VStr s => s | _ => [] end));
    vm_compute; reflexivity.
Defined.

(** X9. On a reached table, at a key of the table without an attribute
    named [JSON], with accepted Items: two [put]s at that key are both
    fulfilled, and the [get()] after them returns what [get()] returns
    after the second [put] alone. The write replaces the item, it does
    not merge. *)
Theorem put_twice_last_wins (t k data1 data2 : value) (w : world)
    (name : jsstring) (tbl : DynamoDB.table) (pk : list DynamoDB.key_scalar)
    (json1 json2 : value) :
  reaches t w = Some (name, tbl) ->
  DynamoDB.addresses (backend w) tbl k = Some pk ->
  has_prop (str "JSON") (spread k) = false ->
  JSON.stringify data1 = inr json1 ->
  JSON.stringify data2 = inr json2 ->
  DynamoDB.accepts (backend w) (Item k json1) = true ->
  DynamoDB.accepts (backend w) (Item k json2) = true ->
  let w1 := fst (await (put (at_ (table t) k) data1) w) in
  let w2 := fst (await (put (at_ (table t) k) data2) w1) in
  is_rejected (snd (await (put (at_ (table t) k) data1) w)) = false /\
  is_rejected (snd (await (put (at_ (table t) k) data2) w1)) = false /\
  snd (await (get (at_ (table t) k)) w2)
  = snd (await (get (at_ (table t) k)) (fst (await (put (at_ (table t) k) data2) w))).
Proof.
  intros Hreach Hpk Hfree Hs1 Hs2 Ha1 Ha2.
  destruct (put_at_key t k data1 w name tbl pk json1 Hreach Hpk Hfree Hs1 Ha1)
    as (attrs & Hattrs & _ & Hput1).
  rewrite Hput1. cbv zeta. cbn [fst snd].
  set (tbl1 := DynamoDB.Table _ _). set (w1 := served _ w).
  assert (Hreach1 : reaches t w1 = Some (name, tbl1)) by by eapply reaches_after_put.
  assert (Hpk1 : DynamoDB.addresses (backend w1) tbl1 k = Some pk).
  { destruct tbl as [schema stored]. unfold tbl1. simpl.
    erewrite (addresses_same_schema (backend w) _ schema stored); [exact Hpk | done]. }
  destruct (get_after_put t k data2 w1 name tbl1 pk json2 Hreach1 Hpk1 Hfree Hs2 Ha2)
    as (attrs1 & ack1 & Hattrs1 & Hput2 & Hget2).
  destruct (get_after_put t k data2 w name tbl pk json2 Hreach Hpk Hfree Hs2 Ha2)
    as (attrs2 & ack2 & Hattrs2 & _ & Hget).
  assert (attrs2 = attrs1) as -> by congruence.
  split; [done|]. split; [by rewrite Hput2|]. by rewrite Hget2, Hget.
Qed.

Lemma put_twice_last_wins_witness :
  let w1 := fst (await (put (at_ (table (VStr (str "users"))) Examples.profile_key)
                          (VStr (str "draft"))) Examples.ready) in
  let w2 := fst (await (put (at_ (table (VStr (str "users"))) Examples.profile_key)
                          Examples.ada) w1) in
  is_rejected
    (snd (await (put (at_ (table (VStr (str "users"))) Examples.profile_key)
                   (VStr (str "draft"))) Examples.ready)) = false /\
  is_rejected
    (snd (await (put (at_ (table (VStr (str "users"))) Examples.profile_key)
                   Examples.ada) w1)) = false /\
  snd (await (get (at_ (table (VStr (str "users"))) Examples.profile_key)) w2)
  = snd (await (get (at_ (table (VStr (str "users"))) Examples.profile_key))
           (fst (await (put (at_ (table (VStr (str "users"))) Examples.profile_key)
                          Examples.ada) Examples.ready))).
Proof.
  apply (put_twice_last_wins (VStr (str "users")) Examples.profile_key
           (VStr (str "draft")) Examples.ada Examples.ready (str "users")
           Examples.users Examples.profile_pk
           (serialization (VStr (str "draft"))) (serialization Examples.ada));
    vm_compute; reflexivity.
Defined.

(** X10. Putting the same payload at the same key a second time changes
    nothing that is stored, whatever became of the first put. *)
Theorem put_same_twice (t k data : value) (w : world) :
  let w1 := fst (await (put (at_ (table t) k) data) w) in
  let w2 := fst (await (put (at_ (table t) k) data) w1) in
  DynamoDB.tables (backend w2) = DynamoDB.tables (backend w1).
Proof.
  cbv zeta.
  destruct (put_frame t k data w) as (Hc & He & Hauth & Hadmits & _).
  destruct (await (put (at_ (table t) k) data) w) as [w1 [ack|e]] eqn:E1;
    cbn [fst] in *.
  - apply put_fulfilled_inv in E1
      as (name & tbl & json & item & pk & Hreach & Hs & Hm & Hadm & Hpk & -> & _).
    erewrite put_reached; [|by eapply reaches_after_put|exact Hs|exact Hm|exact Hadm|exact Hpk].
    simpl. by rewrite !insert_insert_eq.
  - pose proof (put_rejected_tables t k data w w1 e E1) as Htables.
    destruct (await (put (at_ (table t) k) data) w1) as [w2 [ack|e2]] eqn:E2;
      cbn [fst].
    + exfalso. apply put_fulfilled_inv in E2
        as (name & tbl & json & item & pk & Hreach & Hs & Hm & Hadm & Hpk & _).
      rewrite (reaches_same t w w1) in Hreach by done.
      rewrite Hadmits in Hadm.
      rewrite (put_reached t k data w name tbl json item pk) in E1 by done.
      discriminate E1.
    + by apply (put_rejected_tables t k data w1 w2 e2).
Qed.

(** X11. On a reached table, at a key of the table without an attribute
    named [JSON], with an accepted Item: [put] is fulfilled and leaves
    what [get()] returns at every other key of the table, a key that
    addresses another primary key, as it was. *)
Theorem put_leaves_other_keys (t k other data : value) (w : world)
    (name : jsstring) (tbl : DynamoDB.table) (pk opk : list DynamoDB.key_scalar)
    (json : value) :
  reaches t w = Some (name, tbl) ->
  DynamoDB.addresses (backend w) tbl k = Some pk ->
  DynamoDB.addresses (backend w) tbl other = Some opk ->
  opk <> pk ->
  has_prop (str "JSON") (spread k) = false ->
  JSON.stringify data = inr json ->
  DynamoDB.accepts (backend w) (Item k json) = true ->
  is_rejected (snd (await (put (at_ (table t) k) data) w)) = false /\
  snd (await (get (at_ (table t) other))
         (fst (await (put (at_ (table t) k) data) w)))
  = snd (await (get (at_ (table t) other)) w).
Proof.
  intros Hreach Hpk Hopk Hne Hfree Hs Haccepts.
  destruct (put_at_key t k data w name tbl pk json Hreach Hpk Hfree Hs Haccepts)
    as (attrs & _ & _ & ->).
  split; [done|]. cbn [fst].
  erewrite get_reached; [|by eapply reaches_after_put|]; cycle 1.
  { destruct tbl as [schema stored]. simpl.
    erewrite (addresses_same_schema (backend w) _ schema stored); [exact Hopk | done]. }
  rewrite (get_reached t other w name tbl opk Hreach Hopk).
  cbn [snd]. simpl DynamoDB.items. rewrite lookup_insert_ne by done.
  unfold unwrap. by destruct (DynamoDB.items tbl !! opk).
Qed.

Lemma put_leaves_other_keys_witness :
  is_rejected
    (snd (await (put (at_ (table (VStr (str "users"))) Examples.other_key) Examples.ada)
            (Examples.with_item Examples.foreign_item))) = false /\
  snd (await (get (at_ (table (VStr (str "users"))) Examples.profile_key))
         (fst (await (put (at_ (table (VStr (str "users"))) Examples.other_key)
                        Examples.ada)
                 (Examples.with_item Examples.foreign_item))))
  = snd (await (get (at_ (table (VStr (str "users"))) Examples.profile_key))
           (Examples.with_item Examples.foreign_item)).
Proof.
  apply (put_leaves_other_keys (VStr (str "users")) Examples.other_key
           Examples.profile_key Examples.ada (Examples.with_item Examples.foreign_item)
           (str "users")
           (DynamoDB.Table (DynamoDB.key_schema Examples.users)
              {[ Examples.profile_pk := Examples.foreign_item ]})
           Examples.other_pk Examples.profile_pk (serialization Examples.ada));
    try (vm_compute; reflexivity).
  discriminate.
Defined.

(** X12. A fulfilled [put] writes into the table it names and into no
    other. *)
Theorem put_touches_one_table (t k data : value) (w w1 : world) (ack : value)
    (other : jsstring) :
  await (put (at_ (table t) k) data) w = (w1, Fulfilled ack) ->
  TableName t w <> VStr other ->
  DynamoDB.tables (backend w1) !! other = DynamoDB.tables (backend w) !! other.
Proof.
  intros Hput Hother.
  apply put_fulfilled_inv in Hput
    as (name & tbl & json & item & pk & Hreach & _ & _ & _ & _ & -> & _).
  apply reaches_inv in Hreach as (c & r & _ & _ & _ & Hname & _).
  simpl. apply lookup_insert_ne. congruence.
Qed.

Lemma put_touches_one_table_witness :
  DynamoDB.tables
    (backend (fst (await (put (at_ (table (VStr (str "users"))) Examples.profile_key)
                            Examples.ada) Examples.ready))) !! str "envelopes"
  = DynamoDB.tables (backend Examples.ready) !! str "envelopes".
Proof.
  refine (put_touches_one_table (VStr (str "users")) Examples.profile_key Examples.ada
            Examples.ready _ _ (str "envelopes") _ _);
    [vm_compute; reflexivity | discriminate].
Defined.

(** X13. [get()] only reads: fulfilled or rejected, in every world, it
    leaves [client], the environment and every table as they were, and
    the service has received at most one more command. *)
Theorem get_only_reads (t k : value) (w : world) :
  let w1 := fst (await (get (at_ (table t) k)) w) in
  client w1 = client w /\
  process_env w1 = process_env w /\
  DynamoDB.tables (backend w1) = DynamoDB.tables (backend w) /\
  (DynamoDB.received (backend w1) = DynamoDB.received (backend w) \/
   DynamoDB.received (backend w1)
   = DynamoDB.received (backend w) ++ [DynamoDB.GetCommand (TableName t w) k]).
Proof.
  cbv zeta. rewrite await_get.
  destruct (client w) as [c|] eqn:Hc; [|by (repeat split; try left)].
  unfold DynamoDB.send, DynamoDB.marshall_command.
  destruct (DynamoDB.marshall_input k) as [wire|]; simpl;
    [|by (repeat split; try left)].
  destruct (DynamoDB.resolve_region c _) as [r|]; [|by (repeat split; try left)].
  unfold DynamoDB.serve, DynamoDB.log. simpl.
  destruct (DynamoDB.authorised (backend w) r _);
    [|simpl; repeat split; try done; by right].
  destruct (TableName t w) as [| |?|?|?|name|?|?];
    try (simpl; repeat split; try done; by right).
  destruct wire as [| |?|?|?|?|?|key];
    try (simpl; repeat split; try done; by right).
  destruct (DynamoDB.tables (backend w) !! name);
    [|simpl; repeat split; try done; by right].
  destruct (DynamoDB.admits (backend w) key);
    simpl; repeat split; try done; by right.
Qed.

(** X14. A [put] that is rejected has stored nothing: every table is as
    it was, and so are [client] and the environment. *)
Theorem put_rejected_stores_nothing (t k data : value) (w w1 : world) (e : error) :
  await (put (at_ (table t) k) data) w = (w1, Rejected e) ->
  DynamoDB.tables (backend w1) = DynamoDB.tables (backend w) /\
  client w1 = client w /\
  process_env w1 = process_env w.
Proof.
  intros Hput. split; [by apply (put_rejected_tables t k data w w1 e)|].
  destruct (put_frame t k data w) as (Hc & He & _). by rewrite Hput in Hc, He.
Qed.

(** A put that the service refuses: the table does not exist. *)
Lemma put_rejected_stores_nothing_witness :
  DynamoDB.tables
    (backend (fst (await (put (at_ (table (VStr (str "nowhere"))) Examples.profile_key)
                            Examples.ada) Examples.ready)))
  = DynamoDB.tables (backend Examples.ready) /\
  client (fst (await (put (at_ (table (VStr (str "nowhere"))) Examples.profile_key)
                        Examples.ada) Examples.ready))
  = client Examples.ready /\
  process_env (fst (await (put (at_ (table (VStr (str "nowhere"))) Examples.profile_key)
                             Examples.ada) Examples.ready))
  = process_env Examples.ready.
Proof.
  refine (put_rejected_stores_nothing (VStr (str "nowhere")) Examples.profile_key
            Examples.ada Examples.ready _
            (BackendError DynamoDB.ResourceNotFoundException) _).
  vm_compute; reflexivity.
Defined.

(** X15. A falsy table name ([table()], [table('')]) stands for the
    table the environment names in [DYNAMODB_TABLE]: both methods then
    behave as on [table(name)]. *)
Theorem table_name_from_environment (tablename k data : value) (w : world)
    (name : jsstring) :
  truthy tablename = false ->
  env_var (str "DYNAMODB_TABLE") w = VStr name ->
  await (get (at_ (table tablename) k)) w = await (get (at_ (table (VStr name)) k)) w /\
  await (put (at_ (table tablename) k) data) w
  = await (put (at_ (table (VStr name)) k) data) w.
Proof.
  intros Hfalsy Henv.
  assert (H1 : TableName tablename w = VStr name)
    by (unfold TableName, or_; by rewrite Hfalsy).
  assert (H2 : TableName (VStr name) w = VStr name)
    by (unfold TableName, or_; rewrite Henv; by destruct (truthy (VStr name))).
  by rewrite !await_get, !await_put, H1, H2.
Qed.

Lemma table_name_from_environment_witness :
  await (get (at_ (table VUndefined) Examples.profile_key)) Examples.server_ready
  = await (get (at_ (table (VStr (str "users"))) Examples.profile_key))
      Examples.server_ready /\
  await (put (at_ (table VUndefined) Examples.profile_key) Examples.ada)
    Examples.server_ready
  = await (put (at_ (table (VStr (str "users"))) Examples.profile_key) Examples.ada)
      Examples.server_ready.
Proof.
  apply (table_name_from_environment VUndefined Examples.profile_key Examples.ada
           Examples.server_ready (str "users"));
    reflexivity.
Defined.

(** X16. On a reached table, an item stored under a key of the table
    whose [JSON] attribute is truthy but is not JSON text makes [get()]
    at that key reject with the SyntaxError of [JSON.parse], the one way
    [JSON.parse] fails: the raw item is not returned in its place. *)
Theorem get_envelope_not_json (t k : value) (w : world)
    (name : jsstring) (tbl : DynamoDB.table) (pk : list DynamoDB.key_scalar)
    (item : list (jsstring * value)) (e : JSON.parse_error) :
  reaches t w = Some (name, tbl) ->
  DynamoDB.addresses (backend w) tbl k = Some pk ->
  DynamoDB.items tbl !! pk = Some item ->
  truthy (lookup_prop (str "JSON") item) = true ->
  JSON.parse (lookup_prop (str "JSON") item) = JSON.Err e ->
  e = JSON.SyntaxError /\
  snd (await (get (at_ (table t) k)) w) = Rejected JsonSyntaxError.
Proof.
  intros Hreach Hpk Hitem Htruthy Hparse.
  split; [by apply (parse_throws_syntax_error (lookup_prop (str "JSON") item))|].
  rewrite (get_reached t k w name tbl pk Hreach Hpk), Hitem.
  cbn [snd]. by rewrite unwrap_envelope, Hparse.
Qed.

(** An item whose envelope is the text [1.], a number cut short. *)
Lemma get_envelope_not_json_witness :
  JSON.SyntaxError = JSON.SyntaxError /\
  snd (await (get (at_ (table (VStr (str "users"))) Examples.profile_key))
         (Examples.with_item
            [(str "pk", VStr (str "u1")); (str "sk", VStr (str "profile"));
             (str "JSON", VStr (str "1."))]))
  = Rejected JsonSyntaxError.
Proof.
  apply (get_envelope_not_json (VStr (str "users")) Examples.profile_key
           (Examples.with_item
              [(str "pk", VStr (str "u1")); (str "sk", VStr (str "profile"));
               (str "JSON", VStr (str "1."))])
           (str "users")
           (DynamoDB.Table (DynamoDB.key_schema Examples.users)
              {[ Examples.profile_pk :=
                   [(str "pk", VStr (str "u1")); (str "sk", VStr (str "profile"));
                    (str "JSON", VStr (str "1."))] ]})
           Examples.profile_pk
           [(str "pk", VStr (str "u1")); (str "sk", VStr (str "profile"));
            (str "JSON", VStr (str "1."))]);
    vm_compute; reflexivity.
Defined.

(** X17. On a reached table, an item stored under a key of the table
    whose [JSON] attribute is falsy (the empty string, zero, [false],
    [null]) is returned by [get()] at that key as it is stored, like an
    item without the attribute. *)
Theorem get_falsy_envelope (t k : value) (w : world)
    (name : jsstring) (tbl : DynamoDB.table) (pk : list DynamoDB.key_scalar)
    (item : list (jsstring * value)) :
  reaches t w = Some (name, tbl) ->
  DynamoDB.addresses (backend w) tbl k = Some pk ->
  DynamoDB.items tbl !! pk = Some item ->
  truthy (lookup_prop (str "JSON") item) = false ->
  snd (await (get (at_ (table t) k)) w) = Fulfilled (VObj item).
Proof.
  intros Hreach Hpk Hitem Hfalsy.
  rewrite (get_reached t k w name tbl pk Hreach Hpk), Hitem.
  cbn [snd]. by apply unwrap_raw.
Qed.

Lemma get_falsy_envelope_witness :
  snd (await (get (at_ (table (VStr (str "users"))) Examples.profile_key))
         (Examples.with_item
            [(str "pk", VStr (str "u1")); (str "sk", VStr (str "profile"));
             (str "JSON", VNum (Zero false))]))
  = Fulfilled
      (VObj [(str "pk", VStr (str "u1")); (str "sk", VStr (str "profile"));
             (str "JSON", VNum (Zero false))]).
Proof.
  apply (get_falsy_envelope (VStr (str "users")) Examples.profile_key
           (Examples.with_item
              [(str "pk", VStr (str "u1")); (str "sk", VStr (str "profile"));
               (str "JSON", VNum (Zero false))])
           (str "users")
           (DynamoDB.Table (DynamoDB.key_schema Examples.users)
              {[ Examples.profile_pk :=
                   [(str "pk", VStr (str "u1")); (str "sk", VStr (str "profile"));
                    (str "JSON", VNum (Zero false))] ]})
           Examples.profile_pk);
    vm_compute; reflexivity.
Defined.

(** X18. A payload for which [JSON.stringify] returns [undefined]
    ([put()] or [put(undefined)]) gives an Item whose [JSON] is
    [undefined], an attribute the document client does not send: on a
    reached table, at a key of the table without an attribute named
    [JSON], with an accepted Item, the put is fulfilled and stores the
    key's attributes alone, as the client marshals them, and the [get()]
    after it returns those attributes, not [undefined] and not [null]. *)
Theorem put_undefined_payload (t k data : value) (w : world)
    (name : jsstring) (tbl : DynamoDB.table) (pk : list DynamoDB.key_scalar) :
  reaches t w = Some (name, tbl) ->
  DynamoDB.addresses (backend w) tbl k = Some pk ->
  has_prop (str "JSON") (spread k) = false ->
  JSON.stringify data = inr VUndefined ->
  DynamoDB.accepts (backend w) (Item k VUndefined) = true ->
  exists attrs tbl1,
    DynamoDB.marshall_attributes (spread k) = Some attrs /\
    is_rejected (snd (await (put (at_ (table t) k) data) w)) = false /\
    DynamoDB.tables (backend (fst (await (put (at_ (table t) k) data) w))) !! name
    = Some tbl1 /\
    DynamoDB.items tbl1 !! pk = Some attrs /\
    snd (await (get (at_ (table t) k)) (fst (await (put (at_ (table t) k) data) w)))
    = Fulfilled (VObj attrs).
Proof.
  intros Hreach Hpk Hfree Hs Haccepts.
  destruct (get_after_put t k data w name tbl pk VUndefined Hreach Hpk Hfree Hs Haccepts)
    as (attrs & ack & Hattrs & Hput & Hget).
  destruct (put_at_key t k data w name tbl pk VUndefined Hreach Hpk Hfree Hs Haccepts)
    as (attrs' & Hattrs' & _ & Hw1).
  assert (attrs' = attrs) as -> by congruence.
  exists attrs. eexists. split; [done|]. rewrite Hput, Hget.
  split; [done|]. split; [|split; [|done]].
  - rewrite Hw1. simpl. by rewrite lookup_insert_eq.
  - simpl. by rewrite app_nil_r, lookup_insert_eq.
Qed.

(** [put(undefined)] over the item of [put(ada)]. *)
Lemma put_undefined_payload_witness :
  exists attrs tbl1,
    DynamoDB.marshall_attributes (spread Examples.profile_key) = Some attrs /\
    is_rejected
      (snd (await (put (at_ (table (VStr (str "users"))) Examples.profile_key) VUndefined)
              (Examples.with_item Examples.null_item))) = false /\
    DynamoDB.tables
      (backend
         (fst (await (put (at_ (table (VStr (str "users"))) Examples.profile_key)
                        VUndefined)
                 (Examples.with_item Examples.null_item)))) !! str "users"
    = Some tbl1 /\
    DynamoDB.items tbl1 !! Examples.profile_pk = Some attrs /\
    snd (await (get (at_ (table (VStr (str "users"))) Examples.profile_key))
           (fst (await (put (at_ (table (VStr (str "users"))) Examples.profile_key)
                          VUndefined)
                   (Examples.with_item Examples.null_item))))
    = Fulfilled (VObj attrs).
Proof.
  apply (put_undefined_payload (VStr (str "users")) Examples.profile_key VUndefined
           (Examples.with_item Examples.null_item) (str "users")
           (DynamoDB.Table (DynamoDB.key_schema Examples.users)
              {[ Examples.profile_pk := Examples.null_item ]})
           Examples.profile_pk);
    vm_compute; reflexivity.
Defined.

(** X20. On an assigned client, a Key that the document client cannot
    marshal (a number beyond the safe integers, NaN, an [undefined]
    inside a nested value) makes [get()] reject in the client, and so
    does [put(data)] for a payload that serializes when its Item cannot
    be marshalled: no command reaches the service and the world is as
    it was. *)
Theorem unmarshallable_input_sends_nothing (t k data : value) (w : world) (json : value) :
  client w <> None ->
  (DynamoDB.marshall_input k = None ->
   await (get (at_ (table t) k)) w = (w, Rejected SdkError)) /\
  (JSON.stringify data = inr json ->
   DynamoDB.marshall_input (Item k json) = None ->
   await (put (at_ (table t) k) data) w = (w, Rejected SdkError)).
Proof.
  intros Hc. rewrite await_get, await_put.
  destruct (client w) as [c|]; [|done].
  unfold DynamoDB.send, DynamoDB.marshall_command. split.
  - intros ->. by destruct w.
  - intros -> ->. by destruct w.
Qed.

(** A key whose number is [2^53], on the table keyed by a number. *)
Lemma unmarshallable_input_sends_nothing_witness :
  await (get (at_ (table (VStr (str "events"))) Examples.unsafe_key)) Examples.ready
  = (Examples.ready, Rejected SdkError) /\
  await (put (at_ (table (VStr (str "events"))) Examples.unsafe_key) Examples.ada)
    Examples.ready
  = (Examples.ready, Rejected SdkError).
Proof.
  destruct (unmarshallable_input_sends_nothing (VStr (str "events")) Examples.unsafe_key
              Examples.ada Examples.ready (serialization Examples.ada)
              ltac:(discriminate)) as [Hget Hput].
  split; [apply Hget | apply Hput]; reflexivity.
Defined.
